(** * Processing-graph utility nodes: LatencyNode, SummingNode, FadeInOutNode

    A shallow embedding of
      - modules/tracktion_graph/tracktion_graph/tracktion_graph_UtilityNodes.h
      - modules/tracktion_engine/playback/graph/tracktion_FadeInOutNode.cpp

    Conventions of the embedding.
      - [int] and [int64_t] values are integers of [Z]; the places where the
        source computes in [int] or narrows to [int] carry [Int.wrap32].
      - [float] and [double] values (samples, gains, times in seconds) are
        idealised as rationals of [Q]: rounding is not modelled.  Where the
        rounding decides what the code does, the same code is embedded a
        second time in IEEE 754 arithmetic: the MIDI delay queue of
        LatencyNode with its time stamps in binary64 ([LatencyNodeMidi]) and
        the audio sum of SummingNode with its samples in binary32
        ([SummingNodeAudio]).
      - An audio block (channels x samples) is held as the list of its sample
        frames; a frame is the list of the samples of all channels at one
        sample index.
      - A [Node*] is modelled by the node it points to, tagged with its
        address; a [std::unique_ptr<Node>] by the address it owns, [None] once
        it has been moved from or reset.
      - What the two files use and do not define (NodeProperties,
        MidiMessageArray, AudioFifo, AudioFadeCurve) is modelled from the
        specification, or taken as a parameter, and says so where it is
        declared. *)

From Stdlib Require Import ZArith QArith Qminmax List Bool Lia Lqa Permutation.
From Stdlib Require Import Floats.SpecFloat.
Import ListNotations.

Set Warnings "-register-all".
Local Open Scope Z_scope.

(** ** Machine integers *)

Module Int.

Definition INT_MAX : Z := 2147483647.
Definition INT_MIN : Z := -2147483648.

(** Two's-complement narrowing to a 32-bit [int]. *)
Definition wrap32 (x : Z) : Z := (x + 2147483648) mod 4294967296 - 2147483648.

(** Two's-complement narrowing to a 64-bit [int64_t]. *)
Definition wrap64 (x : Z) : Z :=
  (x + 9223372036854775808) mod 18446744073709551616 - 9223372036854775808.

Definition inRange (x : Z) : Prop := INT_MIN <= x <= INT_MAX.
Definition inRange64 (x : Z) : Prop :=
  -9223372036854775808 <= x <= 9223372036854775807.

End Int.

(** ** The graph interface: ranges, buffers, node properties *)

Module Graph.

(** [juce::Range<int64_t>]. *)
Record Range : Type := mkRange {
  getStart : Z;
  getEnd   : Z
}.

Definition getLength (r : Range) : Z := Int.wrap64 (getEnd r - getStart r).

(** [a.intersects (other)]: [other.start < a.end && a.start < other.end]. *)
Definition intersects (a other : Range) : bool :=
  (getStart other <? getEnd a) && (getStart a <? getEnd other).

Definition Frame : Type := list Q.
Definition AudioBlock : Type := list Frame.

(** Modelled from the spec: class [MidiMessageArray] and its messages are
    declared outside the two source files.  Spec 3: "midi: ordered sequence of
    timestamped events", the time stamps being "seconds relative to the start
    of the current block". *)
Record MidiMessage : Type := mkMidiMessage {
  getTimeStamp : Q;      (* seconds, relative to the start of the block *)
  getMessage   : nat     (* the message bytes, opaque here *)
}.

Definition MidiMessageArray : Type := list MidiMessage.

Record AudioAndMidiBuffer : Type := mkBuffers {
  audio : AudioBlock;
  midi  : MidiMessageArray
}.

Definition addToTimeStamp (delta : Q) (m : MidiMessage) : MidiMessage :=
  mkMidiMessage (getTimeStamp m + delta)%Q (getMessage m).

(** Modelled from the spec: [MidiMessageArray::addToTimestamps], "every
    remaining timestamp is shifted" by the amount given. *)
Definition addToTimestamps (delta : Q) (a : MidiMessageArray) : MidiMessageArray :=
  map (addToTimeStamp delta) a.

(** Modelled from the spec: [MidiMessageArray::add], the message goes to the
    end of the ordered sequence. *)
Definition midiAdd (a : MidiMessageArray) (m : MidiMessage) : MidiMessageArray :=
  a ++ [m].

(** Modelled from the spec: [MidiMessageArray::remove (i)], the message at
    index [i] leaves the sequence and the later ones move down. *)
Fixpoint midiRemove (i : nat) (a : MidiMessageArray) : MidiMessageArray :=
  match a, i with
  | [], _ => []
  | _ :: rest, O => rest
  | m :: rest, S i' => m :: midiRemove i' rest
  end.

(** A merge of [src], each time stamp moved by [delta], into [dst] that keeps
    [dst] ahead of the new messages; the simplest function that satisfies what
    the nodes below ask of [MidiMessageArray::mergeFromWithOffset]. *)
Definition appendWithOffset (dst src : MidiMessageArray) (delta : Q) : MidiMessageArray :=
  dst ++ addToTimestamps delta src.

Definition silentFrame (numChannels : nat) : Frame := repeat 0%Q numChannels.
Definition silence (numChannels numSamples : nat) : AudioBlock :=
  repeat (silentFrame numChannels) numSamples.

(** [dest[ch] += src[ch]] for the channels both frames have; the other
    channels of [dest] stay. *)
Fixpoint addFrame (dest src : Frame) : Frame :=
  match dest, src with
  | d :: dest', s :: src' => (d + s)%Q :: addFrame dest' src'
  | _, _ => dest
  end.

(** [AudioBlock::add]: sample-wise sum into [dest], over the frames both have. *)
Fixpoint addBlock (dest src : AudioBlock) : AudioBlock :=
  match dest, src with
  | d :: dest', s :: src' => addFrame d s :: addBlock dest' src'
  | _, _ => dest
  end.

(** Number of channels of a block, read off its first frame (a block without
    frames has no sample to add or scale). *)
Definition getNumChannels (b : AudioBlock) : nat :=
  match b with
  | [] => O
  | f :: _ => length f
  end.

Definition getNumSamples (b : AudioBlock) : nat := length b.

(** ** Node properties and the node graph *)

Record NodeProperties : Type := mkProps {
  hasAudio          : bool;
  hasMidi           : bool;
  numberOfChannels  : Z;
  latencyNumSamples : Z;
  nodeID            : Z
}.

(** Modelled from the spec: the declaration of [NodeProperties] is not in the
    two source files.  A [NodeProperties props;] as SummingNode declares it
    starts [latencyNumSamples] and [nodeID] at zero, which is what makes the
    loop of [SummingNode::getNodeProperties] compute "MAX over inputs" (spec
    4.4); the three other fields are assigned by the source itself. *)
Definition defaultNodeProperties : NodeProperties :=
  mkProps false false 0 0 0.

Inductive Node : Type :=
| OtherNode     (addr : nat) (props : NodeProperties)
| LatencyNodeAt (addr : nat) (ownsInput : bool) (input : Node) (numSamplesToDelay : Z)
| FadeInOutNodeAt (addr : nat) (input : Node)
| SummingNodeAt (addr : nat) (nodes : list Node).

Definition addressOf (n : Node) : nat :=
  match n with
  | OtherNode a _ => a
  | LatencyNodeAt a _ _ _ => a
  | FadeInOutNodeAt a _ => a
  | SummingNodeAt a _ => a
  end.

(** One turn of the loop of [SummingNode::getNodeProperties]. *)
Definition mergeProps (props nodeProps : NodeProperties) : NodeProperties :=
  mkProps (hasAudio props || hasAudio nodeProps)
          (hasMidi props || hasMidi nodeProps)
          (Z.max (numberOfChannels props) (numberOfChannels nodeProps))
          (Z.max (latencyNumSamples props) (latencyNumSamples nodeProps))
          (nodeID props).

(** The entry of [SummingNode::getNodeProperties]: a default-initialised
    record with [hasAudio], [hasMidi] and [numberOfChannels] assigned. *)
Definition summingInitialProps : NodeProperties :=
  mkProps false false 0
          (latencyNumSamples defaultNodeProperties) (nodeID defaultNodeProperties).

(** The three cases of [getNodeProperties] that the source files define. *)
Definition latencyNodeProperties (props : NodeProperties) (numSamplesToDelay : Z)
  : NodeProperties :=
  mkProps (hasAudio props) (hasMidi props) (numberOfChannels props)
          (Int.wrap32 (latencyNumSamples props + numSamplesToDelay))
          (nodeID props).

Definition fadeInOutNodeProperties (props : NodeProperties) : NodeProperties :=
  mkProps (hasAudio props) (hasMidi props) (numberOfChannels props)
          (latencyNumSamples props) 0.

Definition summingNodeProperties (inputs : list NodeProperties) : NodeProperties :=
  fold_left mergeProps inputs summingInitialProps.

(** [Node::getNodeProperties], by dynamic dispatch on the node's class. *)
Fixpoint getNodeProperties (n : Node) : NodeProperties :=
  match n with
  | OtherNode _ props => props
  | LatencyNodeAt _ _ input numSamplesToDelay =>
      latencyNodeProperties (getNodeProperties input) numSamplesToDelay
  | FadeInOutNodeAt _ input =>
      fadeInOutNodeProperties (getNodeProperties input)
  | SummingNodeAt _ nodes =>
      summingNodeProperties (map getNodeProperties nodes)
  end.

Definition latencyOf (n : Node) : Z := latencyNumSamples (getNodeProperties n).

(** [PlaybackInitialisationInfo]. *)
Record PlaybackInitialisationInfo : Type := mkInfo {
  sampleRate : Q;
  blockSize  : Z
}.

(** [ProcessContext]. *)
Record ProcessContext : Type := mkContext {
  streamSampleRange    : Range;
  referenceSampleRange : Range;
  buffers              : AudioAndMidiBuffer
}.

End Graph.

Export Graph.

(** ** AudioFifo *)

Module AudioFifo.

(** Modelled from the spec: class [AudioFifo] is declared outside the two
    source files.  Spec 3 describes it as a fixed-capacity ring buffer, a
    FIFO of sample frames; [ready] holds the frames written and not yet read,
    oldest first.  One slot of the [size] is kept free, as in a ring with a
    read and a write position, which is what the "+ 1" of LatencyNode's
    [setSize] call pays for.  A write that does not fit and a read of more than
    is ready do nothing ("prefer a defined fallback: clamp or no-op", spec 7). *)
Record t : Type := mk {
  numChannels : Z;
  size        : Z;
  ready       : AudioBlock
}.

Definition getNumChannels (f : t) : Z := numChannels f.
Definition getNumReady (f : t) : Z := Z.of_nat (length (ready f)).
Definition getFreeSpace (f : t) : Z := size f - getNumReady f - 1.

(** [setSize] resizes the storage and resets the read and write positions. *)
Definition setSize (f : t) (newNumChannels newSize : Z) : t :=
  mk newNumChannels newSize [].

Definition write (f : t) (block : AudioBlock) : t :=
  if Z.of_nat (getNumSamples block) <=? getFreeSpace f
  then mk (numChannels f) (size f) (ready f ++ block)
  else f.

Definition writeSilence (f : t) (numSamples : Z) : t :=
  write f (silence (Z.to_nat (numChannels f)) (Z.to_nat numSamples)).

(** [readAdding (dest)]: the oldest [dest.getNumSamples()] frames are added
    into [dest] and leave the FIFO. *)
Definition readAdding (f : t) (dest : AudioBlock) : t * AudioBlock :=
  if Z.of_nat (getNumSamples dest) <=? getNumReady f
  then (mk (numChannels f) (size f) (skipn (getNumSamples dest) (ready f)),
        addBlock dest (firstn (getNumSamples dest) (ready f)))
  else (f, dest).

End AudioFifo.

(** ** LatencyNode *)

Module LatencyNode.

Section WithMerge.

(** [MidiMessageArray::mergeFromWithOffset (source, delta)], declared outside
    the source files: the strategy by which the messages of [source], moved by
    [delta], enter the destination array. *)
Variable mergeFromWithOffset :
  MidiMessageArray -> MidiMessageArray -> Q -> MidiMessageArray.

Record t : Type := mk {
  input              : Node;
  latencyNumSamples  : Z;
  sampleRate         : Q;
  latencyTimeSeconds : Q;
  fifo               : AudioFifo.t;
  midi               : MidiMessageArray
}.

(** The constructors: [sampleRate = 44100.0], [latencyTimeSeconds = 0.0],
    [fifo { 1, 32 }] and an empty pending array. *)
Definition create (inputNode : Node) (numSamplesToDelay : Z) : t :=
  mk inputNode numSamplesToDelay (44100 # 1) 0 (AudioFifo.mk 1 32 []) [].

Definition getNodeProperties (node : t) : NodeProperties :=
  latencyNodeProperties (Graph.getNodeProperties (input node)) (latencyNumSamples node).

Definition getDirectInputNodes (node : t) : list Node := [input node].

Definition isReadyToProcess (hasProcessed : Node -> bool) (node : t) : bool :=
  hasProcessed (input node).

Definition prepareToPlay (node : t) (info : PlaybackInitialisationInfo) : t :=
  let fifo1 := AudioFifo.setSize (fifo node)
                 (numberOfChannels (getNodeProperties node))
                 (Int.wrap32 (Int.wrap32 (latencyNumSamples node + blockSize info) + 1)) in
  let fifo2 := AudioFifo.writeSilence fifo1 (latencyNumSamples node) in
  mk (input node) (latencyNumSamples node)
     (Graph.sampleRate info)
     (inject_Z (latencyNumSamples node) / Graph.sampleRate info)%Q
     fifo2 (midi node).

(** The loop [for (int i = midi.size(); --i >= 0;)]: [i] counts the indices
    still to visit, the index looked at is [i - 1]. *)
Fixpoint readOutDelayed (blockTimeSeconds : Q) (i : nat)
    (pending out : MidiMessageArray) : MidiMessageArray * MidiMessageArray :=
  match i with
  | O => (pending, out)
  | S i' =>
      match nth_error pending i' with
      | Some m =>
          if Qle_bool (getTimeStamp m) blockTimeSeconds
          then readOutDelayed blockTimeSeconds i' (midiRemove i' pending) (midiAdd out m)
          else readOutDelayed blockTimeSeconds i' pending out
      | None => readOutDelayed blockTimeSeconds i' pending out
      end
  end.

(** [process]: [inputOutput] is [input->getProcessedOutput()], [pc] the
    context with the destination buffers; the result is the node after the
    call and the destination buffers after the call. *)
Definition process (node : t) (inputOutput : AudioAndMidiBuffer) (pc : ProcessContext)
  : t * AudioAndMidiBuffer :=
  let outputBlock := audio (buffers pc) in
  let inputBuffer := audio inputOutput in
  let inputMidi := Graph.midi inputOutput in
  let numSamples := Int.wrap32 (getLength (streamSampleRange pc)) in
  let '(fifo', outputBlock') :=
    if 0 <? AudioFifo.getNumChannels (fifo node)
    then AudioFifo.readAdding (AudioFifo.write (fifo node) inputBuffer) outputBlock
    else (fifo node, outputBlock) in
  let merged := mergeFromWithOffset (midi node) inputMidi (latencyTimeSeconds node) in
  let blockTimeSeconds := (inject_Z numSamples / sampleRate node)%Q in
  let '(pending, outMidi) :=
    readOutDelayed blockTimeSeconds (length merged) merged (Graph.midi (buffers pc)) in
  let pending' := addToTimestamps (- blockTimeSeconds)%Q pending in
  (mk (input node) (latencyNumSamples node) (sampleRate node)
      (latencyTimeSeconds node) fifo' pending',
   mkBuffers outputBlock' outMidi).

(** A run of [process] calls, one per block: each call comes with the input
    node's output for the block and the context of the block. *)
Fixpoint run (node : t) (calls : list (AudioAndMidiBuffer * ProcessContext))
  : list (t * AudioAndMidiBuffer) :=
  match calls with
  | [] => []
  | (inputOutput, pc) :: rest =>
      let r := process node inputOutput pc in
      r :: run (fst r) rest
  end.

End WithMerge.

End LatencyNode.

(** ** SummingNode *)

Module SummingNode.

Record t : Type := mk {
  ownedNodes : list nat;     (* the addresses held by unique_ptr *)
  nodes      : list Node
}.

(** The three constructors; an owned input is in both vectors. *)
Definition createOwning (inputs : list Node) : t :=
  mk (map addressOf inputs) inputs.

Definition createReferencing (inputs : list Node) : t :=
  mk [] inputs.

Definition createMixed (ownedInputs referencedInputs : list Node) : t :=
  mk (map addressOf ownedInputs) (referencedInputs ++ ownedInputs).

Definition getNodeProperties (s : t) : NodeProperties :=
  summingNodeProperties (map Graph.getNodeProperties (nodes s)).

Definition getDirectInputNodes (s : t) : list Node := nodes s.

Fixpoint allProcessed (hasProcessed : Node -> bool) (ns : list Node) : bool :=
  match ns with
  | [] => true
  | node :: rest => if negb (hasProcessed node) then false else allProcessed hasProcessed rest
  end.

Definition isReadyToProcess (hasProcessed : Node -> bool) (s : t) : bool :=
  allProcessed hasProcessed (nodes s).

Section Process.

(** [Node::getProcessedOutput] of the inputs, and
    [MidiMessageArray::mergeFrom], both declared outside the source files. *)
Variable getProcessedOutput : Node -> AudioAndMidiBuffer.
Variable mergeFrom : MidiMessageArray -> MidiMessageArray -> MidiMessageArray.

(** [dest.getSubsetChannelBlock (0, n).add (src.getSubsetChannelBlock (0, n))]. *)
Definition addSubsetChannels (n : nat) (dest src : AudioBlock) : AudioBlock :=
  addBlock dest (map (firstn n) src).

(** The body of the loop of [process]. *)
Definition addInput (numChannels : nat) (dest : AudioAndMidiBuffer) (node : Node)
  : AudioAndMidiBuffer :=
  let inputFromNode := getProcessedOutput node in
  let numChannelsToAdd := Nat.min (getNumChannels (audio inputFromNode)) numChannels in
  let audio' :=
    if (0 <? numChannelsToAdd)%nat
    then addSubsetChannels numChannelsToAdd (audio dest) (audio (getProcessedOutput node))
    else audio dest in
  mkBuffers audio' (mergeFrom (midi dest) (midi inputFromNode)).

Definition process (s : t) (pc : ProcessContext) : AudioAndMidiBuffer :=
  let numChannels := getNumChannels (audio (buffers pc)) in
  fold_left (addInput numChannels) (nodes s) (buffers pc).

End Process.

(** The lambda [getOwnedNode]: the first owner of [nodeToFind] gives it up and
    is left null; the boolean tells whether there was one. *)
Fixpoint getOwnedNode (owned : list (option nat)) (nodeToFind : nat)
  : bool * list (option nat) :=
  match owned with
  | [] => (false, [])
  | ownedNode :: rest =>
      match ownedNode with
      | Some a =>
          if Nat.eqb a nodeToFind
          then (true, None :: rest)
          else let '(found, rest') := getOwnedNode rest nodeToFind in
               (found, ownedNode :: rest')
      | None =>
          let '(found, rest') := getOwnedNode rest nodeToFind in
          (found, ownedNode :: rest')
      end
  end.

(** The state of the first loop of [createLatencyNodes]. *)
Record LoopState : Type := mkLoop {
  owned           : list (option nat);     (* ownedNodes, with the moved-from slots *)
  visited         : list (option Node);    (* the slots of nodes already visited *)
  ownedNodesToAdd : list Node;
  nextAddress     : nat                    (* where the next node is allocated *)
}.

Fixpoint wrapInputs (maxLatency : Z) (todo : list Node) (st : LoopState) : LoopState :=
  match todo with
  | [] => st
  | node :: rest =>
      let nodeLatency := latencyNumSamples (Graph.getNodeProperties node) in
      let latencyToAdd := Int.wrap32 (maxLatency - nodeLatency) in
      if latencyToAdd =? 0
      then wrapInputs maxLatency rest
             (mkLoop (owned st) (visited st ++ [Some node])
                     (ownedNodesToAdd st) (nextAddress st))
      else
        let '(isOwned, owned') := getOwnedNode (owned st) (addressOf node) in
        let latencyNode := LatencyNodeAt (nextAddress st) isOwned node latencyToAdd in
        wrapInputs maxLatency rest
          (mkLoop owned' (visited st ++ [None])
                  (ownedNodesToAdd st ++ [latencyNode]) (S (nextAddress st)))
  end.

(** [erase (remove_if (== nullptr))]. *)
Fixpoint removeNull {A : Type} (l : list (option A)) : list A :=
  match l with
  | [] => []
  | Some x :: rest => x :: removeNull rest
  | None :: rest => removeNull rest
  end.

(** [createLatencyNodes]; [heapTop] is the address the first new LatencyNode
    gets.  [latencyNode->initialise (info)] prepares the new node's own buffers
    and leaves the graph as it is. *)
Definition createLatencyNodes (heapTop : nat) (s : t) (info : PlaybackInitialisationInfo) : t :=
  let maxLatency := latencyNumSamples (getNodeProperties s) in
  let st := wrapInputs maxLatency (nodes s)
              (mkLoop (map Some (ownedNodes s)) [] [] heapTop) in
  let nodes' := visited st ++ map Some (ownedNodesToAdd st) in
  let owned' := owned st ++ map (fun n => Some (addressOf n)) (ownedNodesToAdd st) in
  mk (removeNull owned') (removeNull nodes').

Definition prepareToPlay (heapTop : nat) (s : t) (info : PlaybackInitialisationInfo) : t :=
  createLatencyNodes heapTop s info.

End SummingNode.

(** ** FadeInOutNode *)

Module FadeInOutNode.

(** [AudioFadeCurve::Type]. *)
Inductive FadeType : Type := linear | convex | concave | sCurve.

(** [tracktion_graph::PlayHeadState], an outside collaborator: whether the
    play head is playing, and the first timeline range that
    [referenceSampleRangeToSplitTimelineRange] gives for a reference range. *)
Record PlayHeadState : Type := mkPlayHead {
  isPlaying      : bool;
  timelineRange1 : Range -> Range
}.

Record t : Type := mk {
  input              : Node;
  fadeInSampleRange  : Range;
  fadeOutSampleRange : Range;
  fadeInType         : FadeType;
  fadeOutType        : FadeType;
  clearExtraSamples  : bool
}.

Definition getNodeProperties (node : t) : NodeProperties :=
  fadeInOutNodeProperties (Graph.getNodeProperties (input node)).

Definition getDirectInputNodes (node : t) : list Node := [input node].

Definition isReadyToProcess (hasProcessed : Node -> bool) (node : t) : bool :=
  hasProcessed (input node).

Definition renderingNeeded (node : t) (playHeadState : PlayHeadState)
    (timelineSampleRange : Range) : bool :=
  if negb (isPlaying playHeadState) then false
  else intersects (fadeInSampleRange node) timelineSampleRange
       || intersects (fadeOutSampleRange node) timelineSampleRange.

(** [AudioBlock::copyFrom]: the samples of [src] overwrite those of [dest],
    over the channels and frames both have. *)
Fixpoint copyFrame (dest src : Frame) : Frame :=
  match dest, src with
  | _ :: dest', s :: src' => s :: copyFrame dest' src'
  | _, _ => dest
  end.

Fixpoint copyFrom (dest src : AudioBlock) : AudioBlock :=
  match dest, src with
  | d :: dest', s :: src' => copyFrame d s :: copyFrom dest' src'
  | _, _ => dest
  end.

(** Modelled from the spec: [MidiMessageArray::copyFrom], the array becomes a
    copy of [src] ("copy the input's produced ... MIDI verbatim"). *)
Definition midiCopyFrom (dest src : MidiMessageArray) : MidiMessageArray := src.

(** The frames of a block, each with its index, changed by [f]. *)
Fixpoint mapFrom (i : Z) (f : Z -> Frame -> Frame) (b : AudioBlock) : AudioBlock :=
  match b with
  | [] => []
  | fr :: rest => f i fr :: mapFrom (i + 1) f rest
  end.

(** [block.getSubBlock (start, length).clear()]. *)
Definition clearSubBlock (b : AudioBlock) (start len : Z) : AudioBlock :=
  mapFrom 0 (fun i fr =>
               if (start <=? i) && (i <? start + len)
               then silentFrame (length fr) else fr) b.

Definition scaleFrame (gain : Q) (fr : Frame) : Frame := map (Qmult gain) fr.

(** [juce::jlimit (0.0f, 1.0f, x)]. *)
Definition jlimit01 (x : Q) : Q :=
  if Qle_bool x 0 then 0%Q else if Qle_bool 1 x then 1%Q else x.

(** [juce::jmax (0.0, x)]. *)
Definition jmax0 (x : Q) : Q := if Qle_bool x 0 then 0%Q else x.

Section WithCurves.

(** The shapes of the curves other than [linear]: the gain that a curve type
    gives for a crossfade alpha (a pluggable strategy, spec 6). *)
Variable curveGain : FadeType -> Q -> Q.

Definition alphaToGain (type : FadeType) (alpha : Q) : Q :=
  match type with
  | linear => alpha
  | other => curveGain other alpha
  end.

(** Modelled from the spec: [AudioFadeCurve::applyCrossfadeSection] is declared
    outside the source files.  It applies the curve "across
    [startSamp, endSamp) interpolating amplitude from alpha1 to alpha2" (spec
    4.2): the frame at offset [k] of the [numSamples] frames from [startSample]
    is scaled by the gain of alpha [startAlpha + k (endAlpha - startAlpha) /
    numSamples]. *)
Definition applyCrossfadeSection (buffer : AudioBlock) (startSample numSamples : Z)
    (type : FadeType) (startAlpha endAlpha : Q) : AudioBlock :=
  mapFrom 0 (fun i fr =>
               if (startSample <=? i) && (i <? startSample + numSamples)
               then scaleFrame
                      (alphaToGain type
                         (startAlpha + inject_Z (i - startSample)
                                       * ((endAlpha - startAlpha) / inject_Z numSamples))%Q)
                      fr
               else fr) buffer.

(** What the two branches of [process] work out before they call
    [applyCrossfadeSection]. *)
Record Section_ : Type := mkSection {
  startSamp : Z;
  endSamp   : Z;
  alpha1    : Q;
  alpha2    : Q
}.

Definition fadeInSection (timelineRange fadeIn : Range) : Section_ :=
  let startSamp0 := Int.wrap32 (Int.wrap64 (getStart fadeIn - getStart timelineRange)) in
  let '(alpha1, startSamp) :=
    if 0 <? startSamp0 then (0%Q, startSamp0)
    else ((inject_Z (Int.wrap64 (getStart timelineRange - getStart fadeIn))
           / inject_Z (getLength fadeIn))%Q, 0) in
  let '(endSamp, alpha2) :=
    if getEnd fadeIn <=? getEnd timelineRange
    then (Int.wrap32 (Int.wrap64 (getEnd timelineRange - getEnd fadeIn)), 1%Q)
    else (Int.wrap32 (getLength timelineRange),
          jmax0 (inject_Z (Int.wrap64 (getEnd timelineRange - getStart fadeIn))
                 / inject_Z (getLength fadeIn))%Q) in
  mkSection startSamp endSamp alpha1 alpha2.

Definition fadeOutSection (numSamples : Z) (timelineRange fadeOut : Range) : Section_ :=
  let startSamp0 := Int.wrap32 (Int.wrap64 (getStart fadeOut - getStart timelineRange)) in
  let '(alpha1, startSamp) :=
    if startSamp0 <=? 0
    then ((inject_Z (Int.wrap64 (getStart timelineRange - getStart fadeOut))
           / inject_Z (getLength fadeOut))%Q, 0)
    else (0%Q, startSamp0) in
  let '(endSamp, alpha2) :=
    if getEnd fadeOut <=? getEnd timelineRange
    then (Int.wrap32 (Int.wrap64 (getEnd timelineRange - getEnd fadeOut)), 1%Q)
    else (numSamples,
          (inject_Z (Int.wrap64 (getEnd timelineRange - getStart fadeOut))
           / inject_Z (getLength fadeOut))%Q) in
  mkSection startSamp endSamp alpha1 alpha2.

(** The fade-in branch on the destination block. *)
Definition applyFadeIn (node : t) (timelineRange : Range) (dest : AudioBlock) : AudioBlock :=
  let s := fadeInSection timelineRange (fadeInSampleRange node) in
  let dest1 :=
    if (0 <? startSamp s) && clearExtraSamples node
    then clearSubBlock dest 0 (startSamp s) else dest in
  if startSamp s <? endSamp s
  then applyCrossfadeSection dest1 (startSamp s) (endSamp s - startSamp s)
         (fadeInType node) (alpha1 s) (alpha2 s)
  else dest1.

(** The fade-out branch on the destination block. *)
Definition applyFadeOut (node : t) (numSamples : Z) (timelineRange : Range)
    (dest : AudioBlock) : AudioBlock :=
  let s := fadeOutSection numSamples timelineRange (fadeOutSampleRange node) in
  let dest1 :=
    if (getEnd (fadeOutSampleRange node) <=? getEnd timelineRange)
       && clearExtraSamples node && (endSamp s <? numSamples)
    then clearSubBlock dest (endSamp s) (numSamples - endSamp s) else dest in
  if startSamp s <? endSamp s
  then applyCrossfadeSection dest1 (startSamp s) (endSamp s - startSamp s)
         (fadeOutType node)
         (jlimit01 (1 - alpha1 s)) (jlimit01 (1 - alpha2 s))
  else dest1.

(** [process]: [sourceBuffers] is [input->getProcessedOutput()]; the result is
    the destination buffers of [pc] after the call.

    [destAudioBlock] is an [AudioBlock], a view: what is written through it
    lands in [pc.buffers.audio].  [destMidiBlock] is declared
    [auto destMidiBlock = pc.buffers.midi], which makes it a MidiMessageArray
    of its own, copy-initialised from the destination array (LatencyNode, in
    the other file, writes to the array itself, [pc.buffers.midi.add (m)]).
    [destMidiBlock.copyFrom] fills that local array, which ends with the call:
    the destination array is as it was. *)
Definition process (node : t) (playHeadState : PlayHeadState)
    (sourceBuffers : AudioAndMidiBuffer) (pc : ProcessContext) : AudioAndMidiBuffer :=
  let timelineRange := timelineRange1 playHeadState (referenceSampleRange pc) in
  let destAudioBlock := audio (buffers pc) in
  let destMidiBlock := midi (buffers pc) in
  let destMidiBlock' := midiCopyFrom destMidiBlock (midi sourceBuffers) in
  let destAudioBlock1 := copyFrom destAudioBlock (audio sourceBuffers) in
  if negb (renderingNeeded node playHeadState timelineRange)
  then mkBuffers destAudioBlock1 (midi (buffers pc))
  else
    let numSamples := Int.wrap32 (Z.of_nat (getNumSamples destAudioBlock1)) in
    let destAudioBlock2 :=
      if intersects timelineRange (fadeInSampleRange node)
         && (0 <? getLength (fadeInSampleRange node))
      then applyFadeIn node timelineRange destAudioBlock1
      else destAudioBlock1 in
    let destAudioBlock3 :=
      if intersects timelineRange (fadeOutSampleRange node)
         && (0 <? getLength (fadeOutSampleRange node))
      then applyFadeOut node numSamples timelineRange destAudioBlock2
      else destAudioBlock2 in
    mkBuffers destAudioBlock3 (midi (buffers pc)).

(** The node run over the consecutive blocks of a signal that starts at
    timeline sample [position]: block by block, with a play head whose
    timeline is the reference range, into silent destination buffers of the
    block's shape.  The result is the list of the blocks' audio outputs. *)
Fixpoint runBlocks (node : t) (playing : bool) (position : Z)
    (blocks : list AudioBlock) : list AudioBlock :=
  match blocks with
  | [] => []
  | block :: rest =>
      let n := Z.of_nat (getNumSamples block) in
      let range := mkRange position (position + n) in
      let dest := silence (getNumChannels block) (getNumSamples block) in
      audio (process node (mkPlayHead playing (fun r => r))
               (mkBuffers block [])
               (mkContext (mkRange 0 n) range (mkBuffers dest [])))
      :: runBlocks node playing (position + n) rest
  end.

End WithCurves.

End FadeInOutNode.

(** ** IEEE 754 arithmetic *)

(** [double] is binary64: 53 bits of precision, exponents below 1024.  The
    operations are those of the Standard Library's specification of IEEE 754
    arithmetic, rounding to nearest, ties to even. *)
Module Double.

Definition t : Type := spec_float.
Definition prec : Z := 53.
Definition emax : Z := 1024.

(** The conversion of an [int] to [double], exact for every [int]. *)
Definition ofInt (n : Z) : t := binary_normalize prec emax n 0 false.

Definition add (x y : t) : t := SFadd prec emax x y.
Definition div (x y : t) : t := SFdiv prec emax x y.
Definition neg (x : t) : t := SFopp x.

(** [x <= y], false when one of the two is a NaN. *)
Definition leb (x y : t) : bool := SFleb x y.


End Double.

(** [float] is binary32: 24 bits of precision, exponents below 128. *)
Module Float.

Definition t : Type := spec_float.
Definition prec : Z := 24.
Definition emax : Z := 128.

Definition ofInt (n : Z) : t := binary_normalize prec emax n 0 false.
Definition add (x y : t) : t := SFadd prec emax x y.

(** [0.0f], the sample of a cleared buffer. *)
Definition zero : t := S754_zero false.

End Float.

(** ** LatencyNode: the MIDI delay queue in [double] *)

(** The MIDI half of [LatencyNode] with the time stamps, the sample rate and
    the latency time as the [double]s they are in the source, every
    operation rounded as the machine rounds it.  The audio half is
    [LatencyNode.process]'s; the two halves share no state. *)
Module LatencyNodeMidi.

(** Modelled from the spec: a message of a [MidiMessageArray], "timestamped
    events" with time stamps in "seconds relative to the start of the current
    block"; the time stamp is a [double]. *)
Record Message : Type := mkMessage {
  getTimeStamp : Double.t;
  getMessage   : nat
}.

Definition MessageArray : Type := list Message.

(** [m.addToTimeStamp (delta)]: [timeStamp += delta]. *)
Definition addToTimeStamp (delta : Double.t) (m : Message) : Message :=
  mkMessage (Double.add (getTimeStamp m) delta) (getMessage m).

(** Modelled from the spec: [MidiMessageArray::addToTimestamps], "every
    remaining timestamp is shifted" by the amount given. *)
Definition addToTimestamps (delta : Double.t) (a : MessageArray) : MessageArray :=
  map (addToTimeStamp delta) a.

(** Modelled from the spec: [add] puts the message at the end, [remove (i)]
    takes the message at index [i] out. *)
Definition add (a : MessageArray) (m : Message) : MessageArray := a ++ [m].

Fixpoint remove (i : nat) (a : MessageArray) : MessageArray :=
  match a, i with
  | [], _ => []
  | _ :: rest, O => rest
  | m :: rest, S i' => m :: remove i' rest
  end.

(** A merge that keeps the destination's messages ahead of the new ones. *)
Definition appendWithOffset (dst src : MessageArray) (delta : Double.t) : MessageArray :=
  dst ++ addToTimestamps delta src.

Section WithMerge.

(** [MidiMessageArray::mergeFromWithOffset (source, delta)], declared outside
    the source files. *)
Variable mergeFromWithOffset : MessageArray -> MessageArray -> Double.t -> MessageArray.

Record t : Type := mk {
  latencyNumSamples  : Z;
  sampleRate         : Double.t;
  latencyTimeSeconds : Double.t;
  midi               : MessageArray
}.

(** The constructors: [sampleRate = 44100.0], [latencyTimeSeconds = 0.0] and
    an empty pending array. *)
Definition create (numSamplesToDelay : Z) : t :=
  mk numSamplesToDelay (Double.ofInt 44100) (S754_zero false) [].

(** [prepareToPlay]: [sampleRate = info.sampleRate;
    latencyTimeSeconds = latencyNumSamples / info.sampleRate]. *)
Definition prepareToPlay (node : t) (infoSampleRate : Double.t) : t :=
  mk (latencyNumSamples node) infoSampleRate
     (Double.div (Double.ofInt (latencyNumSamples node)) infoSampleRate)
     (midi node).

(** The loop [for (int i = midi.size(); --i >= 0;)] with the test
    [m.getTimeStamp() <= blockTimeSeconds]. *)
Fixpoint readOutDelayed (blockTimeSeconds : Double.t) (i : nat)
    (pending out : MessageArray) : MessageArray * MessageArray :=
  match i with
  | O => (pending, out)
  | S i' =>
      match nth_error pending i' with
      | Some m =>
          if Double.leb (getTimeStamp m) blockTimeSeconds
          then readOutDelayed blockTimeSeconds i' (remove i' pending) (add out m)
          else readOutDelayed blockTimeSeconds i' pending out
      | None => readOutDelayed blockTimeSeconds i' pending out
      end
  end.

(** The MIDI part of [process]: [inputMidi] is the input node's MIDI output,
    [streamSampleRange] the range of the context and [destMidi] the MIDI
    buffer of the context; the result is the node and that buffer after the
    call. *)
Definition process (node : t) (inputMidi : MessageArray) (streamSampleRange : Range)
    (destMidi : MessageArray) : t * MessageArray :=
  let numSamples := Int.wrap32 (getLength streamSampleRange) in
  let merged := mergeFromWithOffset (midi node) inputMidi (latencyTimeSeconds node) in
  let blockTimeSeconds := Double.div (Double.ofInt numSamples) (sampleRate node) in
  let '(pending, outMidi) :=
    readOutDelayed blockTimeSeconds (length merged) merged destMidi in
  let pending' := addToTimestamps (Double.neg blockTimeSeconds) pending in
  (mk (latencyNumSamples node) (sampleRate node) (latencyTimeSeconds node) pending',
   outMidi).

(** What one call is given: the input's MIDI, the range and the destination. *)
Definition Call : Type := (MessageArray * Range * MessageArray)%type.

Definition inputOf (c : Call) : MessageArray := fst (fst c).
Definition rangeOf (c : Call) : Range := snd (fst c).
Definition destOf (c : Call) : MessageArray := snd c.

(** A run of [process] calls, one per block. *)
Fixpoint run (node : t) (calls : list Call) : list (t * MessageArray) :=
  match calls with
  | [] => []
  | c :: rest =>
      let r := process node (inputOf c) (rangeOf c) (destOf c) in
      r :: run (fst r) rest
  end.

End WithMerge.

End LatencyNodeMidi.

(** ** SummingNode: the audio sum in [float] *)

(** The audio half of [SummingNode::process] with the samples as the
    [float]s they are in the source. *)
Module SummingNodeAudio.

Definition Frame : Type := list Float.t.
Definition AudioBlock : Type := list Frame.

(** [dest[ch] += src[ch]] for the channels both frames have. *)
Fixpoint addFrame (dest src : Frame) : Frame :=
  match dest, src with
  | d :: dest', s :: src' => Float.add d s :: addFrame dest' src'
  | _, _ => dest
  end.

(** [AudioBlock::add]: sample-wise sum into [dest], over the frames both have. *)
Fixpoint addBlock (dest src : AudioBlock) : AudioBlock :=
  match dest, src with
  | d :: dest', s :: src' => addFrame d s :: addBlock dest' src'
  | _, _ => dest
  end.

Definition getNumChannels (b : AudioBlock) : nat :=
  match b with
  | [] => O
  | f :: _ => length f
  end.

Section Process.

(** The audio of [Node::getProcessedOutput] of the inputs. *)
Variable getProcessedAudio : Node -> AudioBlock.

(** [dest.getSubsetChannelBlock (0, n).add (src.getSubsetChannelBlock (0, n))]. *)
Definition addSubsetChannels (n : nat) (dest src : AudioBlock) : AudioBlock :=
  addBlock dest (map (firstn n) src).

(** The audio part of the body of the loop of [process]. *)
Definition addInput (numChannels : nat) (dest : AudioBlock) (node : Node) : AudioBlock :=
  let inputFromNode := getProcessedAudio node in
  let numChannelsToAdd := Nat.min (getNumChannels inputFromNode) numChannels in
  if (0 <? numChannelsToAdd)%nat
  then addSubsetChannels numChannelsToAdd dest (getProcessedAudio node)
  else dest.

Definition process (s : SummingNode.t) (dest : AudioBlock) : AudioBlock :=
  let numChannels := getNumChannels dest in
  fold_left (addInput numChannels) (SummingNode.nodes s) dest.

End Process.

End SummingNodeAudio.

(** * The vocabulary of the statements *)

(** The nodes a state of the loop stands for, once the null slots are gone. *)
Definition loopNodes (st : SummingNode.LoopState) : list Node :=
  SummingNode.removeNull (SummingNode.visited st) ++ SummingNode.ownedNodesToAdd st.

(** A SummingNode over two owned inputs, of latency 0 and 256, and one
    referenced input of latency 64. *)
Definition alignmentExample : SummingNode.t :=
  SummingNode.createMixed
    [OtherNode 1 (mkProps true false 2 0 1); OtherNode 2 (mkProps true true 1 256 2)]
    [OtherNode 3 (mkProps false true 0 64 3)].

(** What one [process] call of a single-input node is given: the processed
    output of the input node and the context of the block. *)
Definition Call : Type := (AudioAndMidiBuffer * ProcessContext)%type.

(** [numSamples] of a call, as [process] reads it off the context. *)
Definition numSamplesOf (c : Call) : Z :=
  Int.wrap32 (getLength (streamSampleRange (snd c))).

(** The duration of the block of a call, in seconds. *)
Definition blockTime (rate : Q) (c : Call) : Q := (inject_Z (numSamplesOf c) / rate)%Q.

(** The time at which block [j] of a run starts, counted from the start of
    the run: the durations of the blocks before it. *)
Fixpoint blockStart (rate : Q) (calls : list Call) (j : nat) : Q :=
  match j, calls with
  | S j', c :: rest => (blockTime rate c + blockStart rate rest j')%Q
  | _, _ => 0%Q
  end.

(** The test of the backward loop: [m.getTimeStamp() <= blockTimeSeconds]. *)
Definition isDue (blockTimeSeconds : Q) (m : MidiMessage) : bool :=
  Qle_bool (getTimeStamp m) blockTimeSeconds.

(** A message with payload [msg] enters the queue at block [k], due at time
    [a] from the start of the run: it was pending when the run started
    ([k = 0]), or it is in the input of block [k], [delay] seconds before. *)
Definition fedAt (rate delay : Q) (calls : list Call) (pending : MidiMessageArray)
    (k : nat) (a : Q) (msg : nat) : Prop :=
  (k = O /\ exists p, In p pending /\ (a == getTimeStamp p)%Q /\ msg = getMessage p)
  \/ (exists ck m, nth_error calls k = Some ck /\ In m (midi (fst ck))
                   /\ (a == blockStart rate calls k + getTimeStamp m + delay)%Q
                   /\ msg = getMessage m).

(** Three blocks of 4, 2 and 3 samples; two messages arrive in the first. *)
Definition midiExampleCalls : list Call :=
  [ (mkBuffers [] [mkMidiMessage 0 60; mkMidiMessage (1 # 48000) 64],
     mkContext (mkRange 0 4) (mkRange 0 4) (mkBuffers [] []));
    (mkBuffers [] [], mkContext (mkRange 4 6) (mkRange 4 6) (mkBuffers [] []));
    (mkBuffers [] [], mkContext (mkRange 6 9) (mkRange 6 9) (mkBuffers [] [])) ].

(** The call for one block of an audio-only signal of [c] channels: the
    block is the input node's output, the destination is silent and has the
    block's shape. *)
Definition audioCall (c : nat) (block : AudioBlock) : Call :=
  (mkBuffers block [],
   mkContext (mkRange 0 (Z.of_nat (getNumSamples block)))
             (mkRange 0 (Z.of_nat (getNumSamples block)))
             (mkBuffers (silence c (getNumSamples block)) [])).

(** The audio that the node puts out, block by block. *)
Definition audioOutputs
    (merge : MidiMessageArray -> MidiMessageArray -> Q -> MidiMessageArray)
    (node : LatencyNode.t) (c : nat) (blocks : list AudioBlock) : list AudioBlock :=
  map (fun r => audio (snd r)) (LatencyNode.run merge node (map (audioCall c) blocks)).

(** Every frame of the block has [c] channels. *)
Definition hasWidth (c : nat) (b : AudioBlock) : Prop :=
  Forall (fun fr : Frame => length fr = c) b.

(** The delay line between two calls: [delayed] frames wait in the FIFO, and
    there is room for a block on top of them. *)
Definition lineReady (numCh N B : Z) (delayed : AudioBlock) (node : LatencyNode.t) : Prop :=
  LatencyNode.fifo node = AudioFifo.mk numCh (N + B + 1) delayed
  /\ Z.of_nat (length delayed) = N
  /\ hasWidth (Z.to_nat numCh) delayed.

(** A mono input node, and an impulse at frame 1 of eight frames cut into
    blocks of 4, 3 and 1 frames. *)
Definition impulseInput : Node := OtherNode 0 (mkProps true false 1 0 0).

Definition impulseBlocks : list AudioBlock :=
  [ [[0%Q]; [1%Q]; [0%Q]; [0%Q]]; [[0%Q]; [0%Q]; [0%Q]]; [[0%Q]] ].

(** Two blocks of one shape: as many frames, and frame by frame as many
    channels. *)
Definition sameShape (dest src : AudioBlock) : Prop :=
  Forall2 (fun d s : Frame => length d = length s) dest src.

(** A play head that is not playing; its timeline is the reference range. *)
Definition stoppedPlayHead : FadeInOutNode.PlayHeadState :=
  FadeInOutNode.mkPlayHead false (fun r => r).

(** A node with a linear fade-in over the timeline samples [0, 4) and no
    fade-out. *)
Definition fadeNode : FadeInOutNode.t :=
  FadeInOutNode.mk (OtherNode 0 (mkProps true true 1 0 7))
    (mkRange 0 4) (mkRange 0 0) FadeInOutNode.linear FadeInOutNode.linear false.

Definition noteOn : MidiMessage := mkMidiMessage 0 144.

(** A range as [juce::Range<int64_t>] holds it: both ends are [int64_t]
    values and the end is not before the start. *)
Definition validRange (r : Range) : Prop :=
  Int.inRange64 (getStart r) /\ Int.inRange64 (getEnd r) /\ getStart r <= getEnd r.

(** The timeline range of a block: its length is the block's number of
    samples, an [int]. *)
Definition blockRange (r : Range) : Prop :=
  validRange r /\ 0 <= getLength r <= Int.INT_MAX.

(** [x] lies in the interval [0, 1]. *)
Definition inUnit (x : Q) : Prop := (0 <= x <= 1)%Q.

(** The node of the scenario: a linear fade-in over the samples [0, 4800)
    (0.1 s at 48000 Hz) and no fade-out, the fade-out range being an empty
    range at any position. *)
Definition fadeInScenario (input : Node) (emptyAt : Z)
    (fadeOutType : FadeInOutNode.FadeType) (clearExtraSamples : bool) : FadeInOutNode.t :=
  FadeInOutNode.mk input (mkRange 0 4800) (mkRange emptyAt emptyAt)
    FadeInOutNode.linear fadeOutType clearExtraSamples.

(** The scenario at work: a playing play head, 512 mono frames of value 1,
    and the context of the block that starts at a timeline sample. *)
Definition scenarioPlayHead : FadeInOutNode.PlayHeadState :=
  FadeInOutNode.mkPlayHead true (fun r => r).

Definition scenarioSource : AudioAndMidiBuffer := mkBuffers (repeat [1%Q] 512) [].

Definition scenarioContext (start : Z) : ProcessContext :=
  mkContext (mkRange 0 512) (mkRange start (start + 512)) (mkBuffers (silence 1 512) []).

(** [n] mono frames of value 1. *)
Definition unitSignal (n : nat) : AudioBlock := repeat [1%Q] n.

(** ** Vocabulary of the further properties *)

(** The largest element of a list of integers, and 0 for the empty list. *)
Definition maxOrZero (l : list Z) : Z := fold_right Z.max 0 l.

(** Whether the alignment step finds a latency to add for a node. *)
Definition needsLatency (maxLatency : Z) (n : Node) : bool :=
  negb (Int.wrap32 (maxLatency - latencyOf n) =? 0).

(** A LatencyNode over [n] that adds [delay] samples, at any address and
    owning its input or not. *)
Definition wraps (delay : Node -> Z) (n w : Node) : Prop :=
  exists owns, w = LatencyNodeAt (addressOf w) owns n (delay n).

(** Whether a LatencyNode owns its input; false of the other nodes. *)
Definition ownsItsInput (w : Node) : bool :=
  match w with
  | LatencyNodeAt _ owns _ _ => owns
  | _ => false
  end.

(** The properties of a node with the latency replaced. *)
Definition withLatency (latency : Z) (p : NodeProperties) : NodeProperties :=
  mkProps (hasAudio p) (hasMidi p) (numberOfChannels p) latency (nodeID p).

(** Two inputs at addresses of their own, of latency 0 and 256. *)
Definition owningExample : list Node :=
  [OtherNode 1 (mkProps true false 2 0 1); OtherNode 2 (mkProps true true 1 256 2)].

(** Two blocks with equal samples (as rationals), frame by frame and channel
    by channel. *)
Definition blockEq (a b : AudioBlock) : Prop := Forall2 (Forall2 Qeq) a b.

(** What the loop body of [SummingNode::process] adds to the destination for
    one input: its first channels, as many as it and the destination both
    have, or nothing. *)
Definition channelsAdded (getProcessedOutput : Node -> AudioAndMidiBuffer)
    (numChannels : nat) (node : Node) : AudioBlock :=
  let k := Nat.min (getNumChannels (audio (getProcessedOutput node))) numChannels in
  if (0 <? k)%nat then map (firstn k) (audio (getProcessedOutput node)) else [].

(** Every sample of the block multiplied by [k]. *)
Definition scaleBlock (k : Q) (b : AudioBlock) : AudioBlock := map (map (Qmult k)) b.

(** The simplest [mergeFrom]: the new messages go behind the old ones. *)
Definition mergeAppend (dst src : MidiMessageArray) : MidiMessageArray := dst ++ src.

(** A SummingNode over two referenced mono inputs; each input puts out one
    frame and one message that tell its address; a context of one silent
    frame. *)
Definition summingExample : SummingNode.t :=
  SummingNode.createReferencing
    [OtherNode 1 (mkProps true true 1 0 1); OtherNode 2 (mkProps true true 1 0 2)].

Definition summingExampleOutput (n : Node) : AudioAndMidiBuffer :=
  mkBuffers [[Z.of_nat (addressOf n) # 4]] [mkMidiMessage 0 (addressOf n)].

Definition summingExampleContext : ProcessContext :=
  mkContext (mkRange 0 1) (mkRange 0 1) (mkBuffers [[0%Q]] []).

(** Every input puts out the same two stereo frames. *)
Definition sameOutput (n : Node) : AudioAndMidiBuffer :=
  mkBuffers [[1 # 4; 1 # 2]; [3 # 4; 1%Q]] [].

(** A LatencyNode of 5 samples prepared at 48000 Hz for blocks of 4. *)
Definition keepExampleNode : LatencyNode.t :=
  LatencyNode.prepareToPlay (LatencyNode.create (OtherNode 0 defaultNodeProperties) 5)
    (mkInfo (48000 # 1) 4).

(** The FIFO between two calls, by its counts: [N] frames are ready, and a
    block of [B] frames fits on top of them. *)
Definition fifoLevel (N B : Z) (f : AudioFifo.t) : Prop :=
  AudioFifo.getNumReady f = N /\ AudioFifo.getFreeSpace f = B.

(** The block lies inside a fade-in range: it starts at or after the start
    of the fade, at most an [int] after it, and ends before the fade ends. *)
Definition insideFade (timelineRange fade : Range) : Prop :=
  getStart fade <= getStart timelineRange
  /\ getStart timelineRange - getStart fade <= Int.INT_MAX
  /\ getStart timelineRange < getEnd timelineRange
  /\ getEnd timelineRange < getEnd fade.

(** No fade-out is rendered on the block. *)
Definition noFadeOut (node : FadeInOutNode.t) (timelineRange : Range) : Prop :=
  intersects timelineRange (FadeInOutNode.fadeOutSampleRange node)
  && (0 <? getLength (FadeInOutNode.fadeOutSampleRange node)) = false.

(** A node that clears outside its fade-in over the samples [2, 6), and the
    context of the block of the samples [0, 4). *)
Definition clearingNode : FadeInOutNode.t :=
  FadeInOutNode.mk (OtherNode 0 defaultNodeProperties) (mkRange 2 6) (mkRange 0 0)
    FadeInOutNode.linear FadeInOutNode.linear true.

Definition clearingContext : ProcessContext :=
  mkContext (mkRange 0 4) (mkRange 0 4) (mkBuffers (silence 1 4) []).

(** One mono signal of six frames, cut into blocks in two ways. *)
Definition rampBlocksA : list AudioBlock :=
  [ [[1%Q]; [2%Q]; [3%Q]; [4%Q]]; [[5%Q]; [6%Q]] ].

Definition rampBlocksB : list AudioBlock :=
  [ [[1%Q]]; [[2%Q]; [3%Q]; [4%Q]]; [[5%Q]; [6%Q]] ].

(** No fade-in is rendered on the block. *)
Definition noFadeIn (node : FadeInOutNode.t) (timelineRange : Range) : Prop :=
  intersects timelineRange (FadeInOutNode.fadeInSampleRange node)
  && (0 <? getLength (FadeInOutNode.fadeInSampleRange node)) = false.

(** A node with a linear fade-out over the samples [0, 4800) and no fade-in. *)
Definition fadeOutNode : FadeInOutNode.t :=
  FadeInOutNode.mk (OtherNode 0 defaultNodeProperties) (mkRange 0 0) (mkRange 0 4800)
    FadeInOutNode.linear FadeInOutNode.linear false.

(** ** Vocabulary of the delay queue in [double] *)

(** The duration of the block of a call, as [process] computes it. *)
Definition blockTimeSeconds (rate : Double.t) (c : LatencyNodeMidi.Call) : Double.t :=
  Double.div (Double.ofInt (Int.wrap32 (getLength (LatencyNodeMidi.rangeOf c)))) rate.











(** ** Vocabulary of the audio sum in [float] *)

(** Every sample of the block is [0.0f]: a cleared destination. *)
Definition isCleared (b : SummingNodeAudio.AudioBlock) : Prop :=
  Forall (Forall (fun x => x = Float.zero)) b.


(** Three mono inputs of one frame: 2^24, 1 and -2^24, told apart by their
    addresses; any other node is silent. *)
Definition floatExampleAudio (n : Node) : SummingNodeAudio.AudioBlock :=
  match addressOf n with
  | 1%nat => [[Float.ofInt 16777216]]
  | 2%nat => [[Float.ofInt 1]]
  | 3%nat => [[Float.ofInt (-16777216)]]
  | _ => [[Float.zero]]
  end.

Definition floatExampleNode (a : nat) : Node := OtherNode a (mkProps true false 1 0 (Z.of_nat a)).

(** * Properties *)

(** ** Machine integers *)

Lemma wrap32_inRange : forall x, Int.inRange x -> Int.wrap32 x = x.
Proof.
  intros x [Hlo Hhi]. unfold Int.wrap32, Int.INT_MIN, Int.INT_MAX in *.
  rewrite Z.mod_small; lia.
Qed.

Lemma wrap64_inRange : forall x, Int.inRange64 x -> Int.wrap64 x = x.
Proof.
  intros x [Hlo Hhi]. unfold Int.wrap64.
  rewrite Z.mod_small; lia.
Qed.

Lemma wrap32_bounds : forall x, Int.inRange (Int.wrap32 x).
Proof.
  intro x. unfold Int.inRange, Int.wrap32, Int.INT_MIN, Int.INT_MAX.
  pose proof (Z.mod_pos_bound (x + 2147483648) 4294967296 eq_refl). lia.
Qed.

Lemma wrap64_bounds : forall x, Int.inRange64 (Int.wrap64 x).
Proof.
  intro x. unfold Int.inRange64, Int.wrap64.
  pose proof (Z.mod_pos_bound (x + 9223372036854775808) 18446744073709551616 eq_refl). lia.
Qed.

(** ** Node properties *)

Lemma summing_latency_fold : forall ps init,
  latencyNumSamples (fold_left mergeProps ps init)
  = fold_left Z.max (map latencyNumSamples ps) (latencyNumSamples init).
Proof.
  induction ps as [|p ps IH]; intro init; simpl; [reflexivity|].
  rewrite IH. reflexivity.
Qed.

Lemma fold_max_ge_init : forall l a, a <= fold_left Z.max l a.
Proof.
  induction l as [|x l IH]; intro a; simpl; [lia|].
  specialize (IH (Z.max a x)). lia.
Qed.

Lemma fold_max_ge_elem : forall l a x, In x l -> x <= fold_left Z.max l a.
Proof.
  induction l as [|y l IH]; intros a x Hin; simpl in *; [contradiction|].
  destruct Hin as [->|Hin].
  - pose proof (fold_max_ge_init l (Z.max a x)). lia.
  - apply IH; assumption.
Qed.

Lemma fold_max_attained : forall l a,
  fold_left Z.max l a = a \/ In (fold_left Z.max l a) l.
Proof.
  induction l as [|y l IH]; intro a; simpl; [left; reflexivity|].
  destruct (IH (Z.max a y)) as [H|H].
  - rewrite H. destruct (Z.max_spec a y) as [[_ ->]|[_ ->]]; auto.
  - right; right; exact H.
Qed.

(** The latency a SummingNode declares is an upper bound of its inputs'
    latencies, and is never negative. *)
Lemma summing_latency_upper : forall s n,
  In n (SummingNode.nodes s) ->
  latencyOf n <= latencyNumSamples (SummingNode.getNodeProperties s).
Proof.
  intros s n Hin. unfold SummingNode.getNodeProperties, summingNodeProperties.
  rewrite summing_latency_fold. apply fold_max_ge_elem.
  rewrite map_map. apply in_map_iff. exists n. split; [reflexivity|assumption].
Qed.

Lemma summing_latency_nonneg : forall s,
  0 <= latencyNumSamples (SummingNode.getNodeProperties s).
Proof.
  intro s. unfold SummingNode.getNodeProperties, summingNodeProperties.
  rewrite summing_latency_fold. apply (fold_max_ge_init _ 0).
Qed.

Lemma summing_latency_attained : forall s,
  latencyNumSamples (SummingNode.getNodeProperties s) = 0
  \/ exists n, In n (SummingNode.nodes s)
               /\ latencyOf n = latencyNumSamples (SummingNode.getNodeProperties s).
Proof.
  intro s. unfold SummingNode.getNodeProperties, summingNodeProperties.
  rewrite summing_latency_fold.
  destruct (fold_max_attained
              (map latencyNumSamples (map Graph.getNodeProperties (SummingNode.nodes s)))
              (latencyNumSamples summingInitialProps)) as [H|H].
  - left. exact H.
  - right. rewrite map_map in H. apply in_map_iff in H.
    destruct H as [n [Hn Hin]]. exists n. split; [assumption|].
    unfold latencyOf. rewrite Hn. rewrite map_map. reflexivity.
Qed.

(** ** SummingNode: the latency-alignment step *)

Lemma removeNull_app : forall (A : Type) (l1 l2 : list (option A)),
  SummingNode.removeNull (l1 ++ l2) = SummingNode.removeNull l1 ++ SummingNode.removeNull l2.
Proof.
  induction l1 as [|[x|] l1 IH]; intro l2; simpl; rewrite ?IH; reflexivity.
Qed.

Lemma removeNull_map_Some : forall (A : Type) (l : list A),
  SummingNode.removeNull (map Some l) = l.
Proof.
  induction l as [|x l IH]; simpl; [|rewrite IH]; reflexivity.
Qed.

Lemma wrapInputs_aligned : forall maxLatency todo st,
  0 <= maxLatency <= Int.INT_MAX ->
  Forall (fun n => 0 <= latencyOf n <= maxLatency) todo ->
  Forall (fun n => latencyOf n = maxLatency) (loopNodes st) ->
  let st' := SummingNode.wrapInputs maxLatency todo st in
  Forall (fun n => latencyOf n = maxLatency) (loopNodes st')
  /\ length (loopNodes st') = (length (loopNodes st) + length todo)%nat.
Proof.
  intros maxLatency todo. induction todo as [|node rest IH]; intros st HM Htodo Hst.
  - simpl. split; [assumption|lia].
  - inversion Htodo as [|? ? Hnode Hrest]; subst. cbn zeta.
    simpl SummingNode.wrapInputs.
    assert (Hw : Int.wrap32 (maxLatency - latencyOf node) = maxLatency - latencyOf node).
    { apply wrap32_inRange. unfold Int.inRange, Int.INT_MIN, Int.INT_MAX in *. lia. }
    fold (latencyOf node). rewrite Hw.
    destruct (Z.eqb_spec (maxLatency - latencyOf node) 0) as [Hz|Hz].
    + match goal with |- context [SummingNode.wrapInputs _ _ ?s] => set (st1 := s) end.
      assert (H1 : Forall (fun n => latencyOf n = maxLatency) (loopNodes st1)
                   /\ length (loopNodes st1) = S (length (loopNodes st))).
      { unfold loopNodes in *. subst st1. simpl.
        rewrite removeNull_app. simpl. rewrite <- app_assoc. simpl.
        split.
        - apply Forall_app in Hst. destruct Hst as [Ha Hb].
          apply Forall_app. split; [assumption|]. constructor; [lia|assumption].
        - rewrite !length_app. simpl. lia. }
      destruct H1 as [H1 H2].
      destruct (IH st1 HM Hrest H1) as [H3 H4]. split; [exact H3|]. simpl. lia.
    + destruct (SummingNode.getOwnedNode (SummingNode.owned st) (addressOf node))
        as [isOwned owned'] eqn:Hown.
      match goal with |- context [SummingNode.wrapInputs _ _ ?s] => set (st1 := s) end.
      assert (H1 : Forall (fun n => latencyOf n = maxLatency) (loopNodes st1)
                   /\ length (loopNodes st1) = S (length (loopNodes st))).
      { unfold loopNodes in *. subst st1. simpl.
        rewrite removeNull_app. simpl. rewrite app_nil_r.
        split.
        - apply Forall_app in Hst. destruct Hst as [Ha Hb].
          apply Forall_app. split; [assumption|].
          apply Forall_app. split; [assumption|]. constructor; [|constructor].
          unfold latencyOf. simpl. fold (latencyOf node).
          replace (latencyOf node + (maxLatency - latencyOf node)) with maxLatency by lia.
          apply wrap32_inRange. unfold Int.inRange, Int.INT_MIN, Int.INT_MAX in *. lia.
        - rewrite !length_app. simpl. lia. }
      destruct H1 as [H1 H2].
      destruct (IH st1 HM Hrest H1) as [H3 H4]. split; [exact H3|]. simpl. lia.
Qed.

Lemma createLatencyNodes_nodes : forall heapTop s info,
  SummingNode.nodes (SummingNode.createLatencyNodes heapTop s info)
  = loopNodes (SummingNode.wrapInputs
                 (latencyNumSamples (SummingNode.getNodeProperties s))
                 (SummingNode.nodes s)
                 (SummingNode.mkLoop (map Some (SummingNode.ownedNodes s)) [] [] heapTop)).
Proof.
  intros. unfold SummingNode.createLatencyNodes, loopNodes. simpl.
  rewrite removeNull_app, removeNull_map_Some. reflexivity.
Qed.

(** C1.  After [SummingNode::prepareToPlay], which runs [createLatencyNodes],
    the direct-input list has as many nodes as before, and every node in it
    reports (through [getNodeProperties]) a latency that is the maximum of the
    latencies the inputs reported before: no input reported more, and one of
    them reported exactly that.  Latencies are sample counts: the inputs'
    latencies are taken in [0, INT_MAX]. *)
Theorem prepareToPlay_aligns_input_latencies :
  forall (heapTop : nat) (s : SummingNode.t) (info : PlaybackInitialisationInfo),
    Forall (fun n => 0 <= latencyOf n <= Int.INT_MAX) (SummingNode.nodes s) ->
    let s' := SummingNode.prepareToPlay heapTop s info in
    length (SummingNode.getDirectInputNodes s')
    = length (SummingNode.getDirectInputNodes s)
    /\ forall n, In n (SummingNode.getDirectInputNodes s') ->
         (forall i, In i (SummingNode.getDirectInputNodes s) ->
                    latencyOf i <= latencyNumSamples (Graph.getNodeProperties n))
         /\ (exists i, In i (SummingNode.getDirectInputNodes s)
                       /\ latencyOf i = latencyNumSamples (Graph.getNodeProperties n)).
Proof.
  intros heapTop s info Hlat s'. subst s'.
  unfold SummingNode.prepareToPlay, SummingNode.getDirectInputNodes.
  rewrite createLatencyNodes_nodes.
  set (M := latencyNumSamples (SummingNode.getNodeProperties s)).
  assert (HM : 0 <= M <= Int.INT_MAX).
  { split; [apply summing_latency_nonneg|].
    destruct (summing_latency_attained s) as [H0|[n [Hin Hn]]].
    - unfold M. rewrite H0. unfold Int.INT_MAX. lia.
    - unfold M. rewrite <- Hn. rewrite Forall_forall in Hlat. apply Hlat; assumption. }
  assert (Htodo : Forall (fun n => 0 <= latencyOf n <= M) (SummingNode.nodes s)).
  { rewrite Forall_forall in *. intros n Hin. split; [apply Hlat; assumption|].
    apply summing_latency_upper; assumption. }
  destruct (wrapInputs_aligned M (SummingNode.nodes s)
              (SummingNode.mkLoop (map Some (SummingNode.ownedNodes s)) [] [] heapTop)
              HM Htodo) as [Hall Hlen].
  { unfold loopNodes. simpl. constructor. }
  split.
  - rewrite Hlen. unfold loopNodes. simpl. reflexivity.
  - intros n Hin. rewrite Forall_forall in Hall. specialize (Hall n Hin).
    unfold latencyOf in Hall at 1. rewrite Hall. split.
    + intros i Hi. apply summing_latency_upper; assumption.
    + destruct (summing_latency_attained s) as [H0|Hex]; [|exact Hex].
      destruct (SummingNode.nodes s) as [|i rest] eqn:Hnodes.
      * simpl in Hlen. unfold loopNodes in Hin. simpl in Hin. contradiction.
      * exists i. split; [left; reflexivity|].
        assert (Hi : 0 <= latencyOf i <= M).
        { rewrite Forall_forall in Htodo. apply Htodo. left; reflexivity. }
        fold M in H0. lia.
Qed.

Lemma prepareToPlay_aligns_input_latencies_witness :
  Forall (fun n => 0 <= latencyOf n <= Int.INT_MAX) (SummingNode.nodes alignmentExample)
  /\ map latencyOf (SummingNode.getDirectInputNodes alignmentExample) = [64; 0; 256]
  /\ map latencyOf
       (SummingNode.getDirectInputNodes
          (SummingNode.prepareToPlay 10 alignmentExample (mkInfo (44100 # 1) 512)))
     = [256; 256; 256]
  /\ length (SummingNode.getDirectInputNodes
               (SummingNode.prepareToPlay 10 alignmentExample (mkInfo (44100 # 1) 512)))
     = length (SummingNode.getDirectInputNodes alignmentExample).
Proof.
  assert (H : Forall (fun n => 0 <= latencyOf n <= Int.INT_MAX)
                (SummingNode.nodes alignmentExample)).
  { repeat constructor; vm_compute; discriminate. }
  split; [exact H|]. split; [vm_compute; reflexivity|].
  split; [vm_compute; reflexivity|].
  exact (proj1 (prepareToPlay_aligns_input_latencies
                  10 alignmentExample (mkInfo (44100 # 1) 512) H)).
Defined.

(** ** FadeInOutNode and SummingNode: node properties *)

(** C9.  [FadeInOutNode::getNodeProperties] returns the properties of the
    input node with [hasAudio], [hasMidi], [numberOfChannels] and
    [latencyNumSamples] unchanged and [nodeID] set to 0, whatever the input's
    [nodeID] is; the same holds of the node seen through the graph's
    [getNodeProperties]. *)
Theorem FadeInOutNode_getNodeProperties_frame :
  forall (node : FadeInOutNode.t) (addr : nat),
    let props := Graph.getNodeProperties (FadeInOutNode.input node) in
    FadeInOutNode.getNodeProperties node
    = mkProps (hasAudio props) (hasMidi props) (numberOfChannels props)
              (latencyNumSamples props) 0
    /\ Graph.getNodeProperties (FadeInOutNodeAt addr (FadeInOutNode.input node))
       = FadeInOutNode.getNodeProperties node
    /\ nodeID (FadeInOutNode.getNodeProperties node) = 0.
Proof.
  intros node addr props. subst props.
  unfold FadeInOutNode.getNodeProperties, fadeInOutNodeProperties. simpl.
  repeat split.
Qed.

(** C10.  A SummingNode made by any of the three constructors from empty
    input lists is ready to process, declares no audio, no MIDI and zero
    channels, and its [process] leaves the destination buffers as they are. *)
Theorem SummingNode_empty_inputs :
  forall (hasProcessed : Node -> bool)
         (getProcessedOutput : Node -> AudioAndMidiBuffer)
         (mergeFrom : MidiMessageArray -> MidiMessageArray -> MidiMessageArray)
         (pc : ProcessContext),
    Forall (fun s =>
              SummingNode.getDirectInputNodes s = []
              /\ SummingNode.isReadyToProcess hasProcessed s = true
              /\ hasAudio (SummingNode.getNodeProperties s) = false
              /\ hasMidi (SummingNode.getNodeProperties s) = false
              /\ numberOfChannels (SummingNode.getNodeProperties s) = 0
              /\ SummingNode.process getProcessedOutput mergeFrom s pc = buffers pc)
           [SummingNode.createOwning [];
            SummingNode.createReferencing [];
            SummingNode.createMixed [] []].
Proof.
  intros. repeat constructor.
Qed.

(** ** LatencyNode: the MIDI delay queue *)

Lemma nth_error_middle : forall (A : Type) (p : list A) (x : A) (s : list A),
  nth_error (p ++ x :: s) (length p) = Some x.
Proof.
  induction p as [|y p IH]; intros; simpl; auto.
Qed.

Lemma midiRemove_middle : forall p x s,
  midiRemove (length p) (p ++ x :: s) = p ++ s.
Proof.
  induction p as [|y p IH]; intros; simpl; [reflexivity|]. rewrite IH. reflexivity.
Qed.

(** The backward loop moves the due messages out, latest index first, and
    keeps the others in place. *)
Lemma readOutDelayed_partition : forall bt pre suf out,
  LatencyNode.readOutDelayed bt (length pre) (pre ++ suf) out
  = (filter (fun m => negb (isDue bt m)) pre ++ suf,
     out ++ rev (filter (isDue bt) pre)).
Proof.
  intros bt pre. induction pre as [|x p IH] using rev_ind; intros suf out.
  - simpl. rewrite app_nil_r. reflexivity.
  - rewrite length_app. simpl length. rewrite Nat.add_1_r.
    simpl LatencyNode.readOutDelayed. rewrite <- app_assoc. simpl app.
    rewrite nth_error_middle. rewrite !filter_app. simpl filter.
    unfold isDue in *.
    destruct (Qle_bool (getTimeStamp x) bt) eqn:Hx; simpl negb; cbv iota.
    + rewrite midiRemove_middle. rewrite IH. unfold midiAdd.
      rewrite app_nil_r. rewrite rev_app_distr. simpl.
      rewrite <- app_assoc. reflexivity.
    + rewrite IH. rewrite app_nil_r. rewrite <- app_assoc. reflexivity.
Qed.

Section MidiDelay.

Variable merge : MidiMessageArray -> MidiMessageArray -> Q -> MidiMessageArray.

Lemma process_midi : forall node io pc,
  let bt := (inject_Z (Int.wrap32 (getLength (streamSampleRange pc)))
             / LatencyNode.sampleRate node)%Q in
  let merged := merge (LatencyNode.midi node) (midi io) (LatencyNode.latencyTimeSeconds node) in
  LatencyNode.midi (fst (LatencyNode.process merge node io pc))
  = addToTimestamps (- bt)%Q (filter (fun m => negb (isDue bt m)) merged)
  /\ midi (snd (LatencyNode.process merge node io pc))
     = midi (buffers pc) ++ rev (filter (isDue bt) merged)
  /\ LatencyNode.sampleRate (fst (LatencyNode.process merge node io pc))
     = LatencyNode.sampleRate node
  /\ LatencyNode.latencyTimeSeconds (fst (LatencyNode.process merge node io pc))
     = LatencyNode.latencyTimeSeconds node.
Proof.
  intros node io pc bt merged. unfold LatencyNode.process.
  fold bt. fold merged.
  pose proof (readOutDelayed_partition bt merged [] (midi (buffers pc))) as H.
  rewrite !app_nil_r in H. rewrite H.
  destruct (0 <? AudioFifo.getNumChannels (LatencyNode.fifo node));
    [destruct (AudioFifo.readAdding _ _)|]; simpl; repeat split; reflexivity.
Qed.

(** C6.  Along every sequence of [process] calls, from any state of the node,
    the pending array that a call leaves behind (after its shift by the block
    duration) holds no negative time stamp. *)
Theorem pending_timestamps_never_negative :
  forall (node : LatencyNode.t) (calls : list Call),
    Forall (fun r => Forall (fun m => (0 <= getTimeStamp m)%Q) (LatencyNode.midi (fst r)))
           (LatencyNode.run merge node calls).
Proof.
  intros node calls. revert node.
  induction calls as [|[io pc] rest IH]; intro node; simpl; constructor.
  - destruct (process_midi node io pc) as [Hp _]. rewrite Hp.
    unfold addToTimestamps. apply Forall_forall. intros m Hin.
    apply in_map_iff in Hin. destruct Hin as [x [<- Hx]].
    apply filter_In in Hx. destruct Hx as [_ Hx].
    unfold isDue in Hx. apply negb_true_iff in Hx.
    assert (Hn : ~ (getTimeStamp x <= inject_Z (Int.wrap32 (getLength (streamSampleRange pc)))
                                      / LatencyNode.sampleRate node)%Q).
    { intro Hle. apply Qle_bool_iff in Hle. congruence. }
    simpl. lra.
  - apply IH.
Qed.

Hypothesis merge_spec : forall dst src delta,
  Permutation (merge dst src delta) (dst ++ addToTimestamps delta src).

Lemma in_merged : forall dst src delta x,
  In x (merge dst src delta)
  <-> In x dst \/ exists m, In m src /\ x = addToTimeStamp delta m.
Proof.
  intros dst src delta x. split.
  - intro H. apply (Permutation_in _ (merge_spec dst src delta)) in H.
    apply in_app_or in H. destruct H as [H|H]; [left; assumption|right].
    unfold addToTimestamps in H. apply in_map_iff in H.
    destruct H as [m [Hm Hin]]. exists m. split; [assumption|symmetry; assumption].
  - intro H. apply (Permutation_in _ (Permutation_sym (merge_spec dst src delta))).
    apply in_or_app. destruct H as [H|[m [Hin ->]]]; [left; assumption|right].
    unfold addToTimestamps. apply in_map. assumption.
Qed.

Lemma isDue_true : forall bt m, isDue bt m = true <-> (getTimeStamp m <= bt)%Q.
Proof. intros. unfold isDue. apply Qle_bool_iff. Qed.

Lemma isDue_false : forall bt m, isDue bt m = false <-> (bt < getTimeStamp m)%Q.
Proof.
  intros bt m. split; intro H.
  - apply Qnot_le_lt. intro Hle. apply isDue_true in Hle. congruence.
  - destruct (isDue bt m) eqn:Hd; [|reflexivity].
    apply isDue_true in Hd. lra.
Qed.

Variable rate : Q.
Variable delay : Q.

Lemma blockStart_nonneg : forall calls j,
  Forall (fun c => (0 <= blockTime rate c)%Q) calls -> (0 <= blockStart rate calls j)%Q.
Proof.
  induction calls as [|c rest IH]; intros j H; destruct j; simpl; try lra.
  inversion H; subst. specialize (IH j H3). lra.
Qed.

Lemma blockStart_step : forall calls j cj,
  nth_error calls j = Some cj ->
  (blockStart rate calls (S j) == blockStart rate calls j + blockTime rate cj)%Q.
Proof.
  induction calls as [|c rest IH]; intros j cj H; destruct j; simpl in *; try discriminate.
  - inversion H; subst. destruct rest; simpl; lra.
  - specialize (IH j cj H). simpl in IH. lra.
Qed.

Lemma blockStart_0 : forall calls, blockStart rate calls 0 = 0%Q.
Proof. destruct calls; reflexivity. Qed.

Ltac tnorm HS :=
  rewrite ?HS, ?blockStart_0 in *;
  cbn [getTimeStamp getMessage addToTimeStamp fst snd nth_error] in *.

Lemma run_midi_general : forall calls node,
  LatencyNode.sampleRate node = rate ->
  LatencyNode.latencyTimeSeconds node = delay ->
  Forall (fun c => (0 <= blockTime rate c)%Q) calls ->
  forall j r cj,
    nth_error (LatencyNode.run merge node calls) j = Some r ->
    nth_error calls j = Some cj ->
    exists emitted,
      midi (snd r) = midi (buffers (snd cj)) ++ emitted
      /\ (forall e, In e emitted ->
            exists k a, (k <= j)%nat
              /\ fedAt rate delay calls (LatencyNode.midi node) k a (getMessage e)
              /\ (getTimeStamp e == a - blockStart rate calls j)%Q
              /\ (a <= blockStart rate calls (S j))%Q
              /\ (k = j \/ (blockStart rate calls j < a)%Q))
      /\ (forall k a msg, (k <= j)%nat ->
            fedAt rate delay calls (LatencyNode.midi node) k a msg ->
            (a <= blockStart rate calls (S j))%Q ->
            (k = j \/ (blockStart rate calls j < a)%Q) ->
            exists e, In e emitted /\ getMessage e = msg
                      /\ (getTimeStamp e == a - blockStart rate calls j)%Q).
Proof.
  induction calls as [|[io pc] rest IH]; intros node Hrate Hdelay Hbt j r cj Hr Hc.
  - destruct j; discriminate.
  - pose proof (Forall_inv Hbt) as Hbt0. pose proof (Forall_inv_tail Hbt) as Hbtr.
    destruct (process_midi node io pc) as [Hpend [Hout [Hrate' Hdelay']]].
    rewrite Hrate in Hpend, Hout, Hrate'. rewrite Hdelay in Hpend, Hout, Hdelay'.
    change (inject_Z (Int.wrap32 (getLength (streamSampleRange pc))) / rate)%Q
      with (blockTime rate (io, pc)) in Hpend, Hout.
    assert (HS : forall i, blockStart rate ((io, pc) :: rest) (S i)
                           = (blockTime rate (io, pc) + blockStart rate rest i)%Q)
      by reflexivity.
    remember (blockTime rate (io, pc)) as bt eqn:Hbt_def.
    remember (merge (LatencyNode.midi node) (midi io) delay) as merged eqn:Hmerged.
    assert (Hinm : forall x, In x merged
              <-> In x (LatencyNode.midi node)
                  \/ exists m, In m (midi io) /\ x = addToTimeStamp delay m).
    { intro x. rewrite Hmerged. apply in_merged. }
    clear Hbt_def Hmerged.
    destruct j as [|j].
    + (* the block of the call itself *)
      cbn [LatencyNode.run nth_error] in Hr, Hc. inversion Hr; subst r. inversion Hc; subst cj. clear Hr Hc.
      exists (rev (filter (isDue bt) merged)). split; [exact Hout|]. split.
      * intros e He. apply in_rev in He. apply filter_In in He.
        destruct He as [Hin Hdue]. apply isDue_true in Hdue.
        apply Hinm in Hin. exists O, (getTimeStamp e). split; [lia|].
        split; [|split; [tnorm HS; lra|split; [tnorm HS; lra|left; reflexivity]]].
        destruct Hin as [Hin|[m [Hin ->]]].
        -- left. split; [reflexivity|]. exists e. repeat split; try assumption; try reflexivity; try lra.
        -- right. exists (io, pc), m. tnorm HS. repeat split; try assumption; try reflexivity; try lra.
      * intros k a msg Hk Hfed Ha _. assert (k = O) by lia. subst k.
        assert (Ha' : (a <= bt)%Q). { tnorm HS. lra. }
        destruct Hfed as [[_ [p [Hp [Hap ->]]]]|[ck [m [Hck [Hm [Ham ->]]]]]].
        -- exists p. split; [|split; [reflexivity|tnorm HS; lra]].
           apply -> in_rev. apply filter_In. split.
           ++ apply Hinm. left. assumption.
           ++ apply isDue_true. lra.
        -- tnorm HS. inversion Hck; subst ck. tnorm HS.
           exists (addToTimeStamp delay m).
           split; [|split; [reflexivity|tnorm HS; lra]].
           apply -> in_rev. apply filter_In. split.
           ++ apply Hinm. right. exists m. split; [assumption|reflexivity].
           ++ apply isDue_true. tnorm HS. lra.
    + (* a later block *)
      cbn [LatencyNode.run nth_error] in Hr, Hc.
      destruct (IH (fst (LatencyNode.process merge node io pc)) Hrate' Hdelay' Hbtr
                   j r cj Hr Hc) as [emitted [Hem [HA HB]]].
      exists emitted. split; [exact Hem|].
      pose proof (blockStart_nonneg rest j Hbtr) as Hnn.
      assert (Hkept : forall p1, In p1 (LatencyNode.midi (fst (LatencyNode.process merge node io pc)))
                <-> exists x, In x merged /\ (bt < getTimeStamp x)%Q
                              /\ p1 = addToTimeStamp (- bt)%Q x).
      { intro p1. rewrite Hpend. unfold addToTimestamps. rewrite in_map_iff. split.
        - intros [x [Hx Hin]]. apply filter_In in Hin. destruct Hin as [Hin Hd].
          apply negb_true_iff in Hd. apply isDue_false in Hd.
          exists x. repeat split; try assumption; try reflexivity; try lra.
          symmetry; assumption.
        - intros [x [Hin [Hd ->]]]. exists x. split; [reflexivity|].
          apply filter_In. split; [assumption|].
          apply negb_true_iff. apply isDue_false. assumption. }
      split.
      * intros e He. destruct (HA e He) as [k' [a' [Hk' [Hfed [Hts [Hle Hlow]]]]]].
        destruct Hfed as [[Hk0 [p1 [Hp1 [Hap Hmsg]]]]|[ck [m [Hck [Hm [Ham Hmsg]]]]]].
        -- apply Hkept in Hp1. destruct Hp1 as [x [Hx [Hd ->]]]. tnorm HS.
           apply Hinm in Hx.
           assert (Hlow' : (bt + blockStart rate rest j
                            < getTimeStamp x)%Q).
           { destruct Hlow as [Hlow|Hlow]; [subst k'; subst j; tnorm HS; lra|lra]. }
           exists O, (getTimeStamp x). split; [lia|].
           split; [|split; [tnorm HS; lra|split; [tnorm HS; lra|right; tnorm HS; lra]]].
           destruct Hx as [Hx|[m [Hm ->]]].
           ++ left. split; [reflexivity|]. exists x. repeat split; try assumption; try reflexivity; try lra.
           ++ right. exists (io, pc), m. tnorm HS. repeat split; try assumption; try reflexivity; try lra.
        -- exists (S k'), (a' + bt)%Q. split; [lia|].
           split; [|split; [tnorm HS; lra|split; [tnorm HS; lra|]]].
           ++ right. exists ck, m. tnorm HS. repeat split; try assumption; try reflexivity; try lra.
           ++ destruct Hlow as [->|Hlow]; [left; reflexivity|right; tnorm HS; lra].
      * intros k a msg Hk Hfed Ha Hlow.
        assert (Hfed' : exists k', (k' <= j)%nat
                  /\ fedAt rate delay rest (LatencyNode.midi (fst (LatencyNode.process merge node io pc)))
                           k' (a - bt)%Q msg
                  /\ (k' = j \/ (blockStart rate rest j < a - bt)%Q)).
        { destruct Hfed as [[-> [p [Hp [Hap Hmsg]]]]|[ck [m [Hck [Hm [Ham Hmsg]]]]]].
          - assert (Hlow' : (bt + blockStart rate rest j < a)%Q).
            { destruct Hlow as [Hlow|Hlow]; [discriminate|tnorm HS; lra]. }
            exists O. split; [lia|]. split; [|right; lra].
            left. split; [reflexivity|].
            exists (addToTimeStamp (- bt)%Q p). tnorm HS. repeat split; try assumption; try reflexivity; try lra.
            apply Hkept. exists p. repeat split; try assumption; try reflexivity; try lra.
            apply Hinm. left. assumption.
          - destruct k as [|k'].
            + tnorm HS. inversion Hck; subst ck. tnorm HS.
              assert (Hlow' : (bt + blockStart rate rest j < a)%Q).
              { destruct Hlow as [Hlow|Hlow]; [discriminate|lra]. }
              exists O. split; [lia|]. split; [|right; lra].
              left. split; [reflexivity|].
              exists (addToTimeStamp (- bt)%Q
                        (addToTimeStamp delay m)).
              tnorm HS. repeat split; try assumption; try reflexivity; try lra.
              apply Hkept. exists (addToTimeStamp delay m).
              repeat split; try assumption; try reflexivity; [|tnorm HS; lra].
              apply Hinm. right. exists m. split; [assumption|reflexivity].
            + tnorm HS. exists k'. split; [lia|]. split.
              * right. exists ck, m. repeat split; try assumption; try reflexivity; try lra.
              * destruct Hlow as [Hlow|Hlow]; [left; lia|right; lra]. }
        destruct Hfed' as [k' [Hk' [Hfed' Hlow']]].
        destruct (HB k' (a - bt)%Q msg Hk' Hfed') as [e [He [Hmsg Hts]]].
        -- tnorm HS. lra.
        -- exact Hlow'.
        -- exists e. repeat split; try assumption. tnorm HS. lra.
Qed.

End MidiDelay.

Lemma run_nth : forall merge calls node j cj,
  nth_error calls j = Some cj ->
  exists r, nth_error (LatencyNode.run merge node calls) j = Some r.
Proof.
  intros merge calls. induction calls as [|[io pc] rest IH]; intros node j cj H.
  - destruct j; discriminate.
  - destruct j as [|j]; simpl.
    + eexists; reflexivity.
    + simpl in H. eapply IH; eassumption.
Qed.

Lemma blockTime_nonneg : forall rate c,
  (0 < rate)%Q -> 0 <= numSamplesOf c -> (0 <= blockTime rate c)%Q.
Proof.
  intros rate c Hr Hn. unfold blockTime.
  apply Qle_shift_div_l; [assumption|].
  rewrite Qmult_0_l. change 0%Q with (inject_Z 0). rewrite <- Zle_Qle. assumption.
Qed.

Lemma prepareToPlay_midi_state : forall input N info,
  let node := LatencyNode.prepareToPlay (LatencyNode.create input N) info in
  LatencyNode.midi node = []
  /\ LatencyNode.sampleRate node = sampleRate info
  /\ LatencyNode.latencyTimeSeconds node = (inject_Z N / sampleRate info)%Q.
Proof. intros. repeat split. Qed.

(** Among the blocks from [k] on there is one whose span first reaches a time
    [a] that the run covers. *)
Lemma due_block_exists : forall rate calls k d a,
  (a <= blockStart rate calls (S (k + d)))%Q ->
  exists j, (k <= j <= k + d)%nat
            /\ (a <= blockStart rate calls (S j))%Q
            /\ (j = k \/ (blockStart rate calls j < a)%Q).
Proof.
  intros rate calls k d. induction d as [|d IH]; intros a Ha.
  - exists k. rewrite Nat.add_0_r in Ha. repeat split; auto; lia.
  - destruct (Qlt_le_dec (blockStart rate calls (S (k + d))) a) as [Hlt|Hle].
    + exists (S (k + d)). replace (k + S d)%nat with (S (k + d)) in Ha by lia.
      repeat split; auto; lia.
    + destruct (IH a Hle) as [j [Hj [H1 H2]]]. exists j. repeat split; auto; lia.
Qed.

(** The delay queue in exact arithmetic, the time stamps read as the
    numbers they stand for and no operation rounded.  A LatencyNode of [N]
    samples, prepared at a positive sample rate, is run over any sequence of
    blocks.  Write T(i) for the start of block [i] in seconds from the start
    of the run.  A message that is in the input of block [k] with a
    block-relative time stamp [t >= 0] is due at T(k) + t + N / sampleRate;
    it is put into the output MIDI buffer of the block [j >= k] whose span is
    the first to reach that time (the time is at most the end of block [j]
    and, unless [j = k], after the start of block [j]), with a block-relative
    time stamp that is that time minus T(j) and lies within the block.
    Conversely every message that a block puts out is a message of the input
    of that or of an earlier block, put out in the block and at the time so
    described.  What the queue does in [double] is
    [midi_event_emitted_after_rounded_latency] below. *)
Theorem midi_event_emitted_after_latency :
  forall (merge : MidiMessageArray -> MidiMessageArray -> Q -> MidiMessageArray)
         (input : Node) (N : Z) (info : PlaybackInitialisationInfo)
         (calls : list Call),
    (forall dst src delta,
        Permutation (merge dst src delta) (dst ++ addToTimestamps delta src)) ->
    0 <= N ->
    (0 < sampleRate info)%Q ->
    Forall (fun c => 0 <= numSamplesOf c) calls ->
    let node := LatencyNode.prepareToPlay (LatencyNode.create input N) info in
    let rate := sampleRate info in
    let delay := (inject_Z N / rate)%Q in
    forall j cj,
      nth_error calls j = Some cj ->
      exists r emitted,
        nth_error (LatencyNode.run merge node calls) j = Some r
        /\ midi (snd r) = midi (buffers (snd cj)) ++ emitted
        /\ (forall k ck m,
              (k <= j)%nat -> nth_error calls k = Some ck -> In m (midi (fst ck)) ->
              (0 <= getTimeStamp m)%Q ->
              (blockStart rate calls k + getTimeStamp m + delay
               <= blockStart rate calls (S j))%Q ->
              (k = j \/ (blockStart rate calls j
                         < blockStart rate calls k + getTimeStamp m + delay)%Q) ->
              exists e, In e emitted
                /\ getMessage e = getMessage m
                /\ (getTimeStamp e
                    == blockStart rate calls k + getTimeStamp m + delay
                       - blockStart rate calls j)%Q
                /\ (0 <= getTimeStamp e <= blockTime rate cj)%Q)
        /\ (forall e, In e emitted ->
              exists k ck m,
                (k <= j)%nat /\ nth_error calls k = Some ck /\ In m (midi (fst ck))
                /\ getMessage e = getMessage m
                /\ (getTimeStamp e
                    == blockStart rate calls k + getTimeStamp m + delay
                       - blockStart rate calls j)%Q
                /\ (blockStart rate calls k + getTimeStamp m + delay
                    <= blockStart rate calls (S j))%Q
                /\ (k = j \/ (blockStart rate calls j
                              < blockStart rate calls k + getTimeStamp m + delay)%Q)).
Proof.
  intros merge input N info calls Hmerge HN Hrate Hnum node rate delay j cj Hcj.
  destruct (run_nth merge calls node j cj Hcj) as [r Hr].
  assert (Hbt : Forall (fun c => (0 <= blockTime rate c)%Q) calls).
  { rewrite Forall_forall in *. intros c Hc. apply blockTime_nonneg; auto. }
  assert (Hdelay : (0 <= delay)%Q).
  { unfold delay. apply Qle_shift_div_l; [assumption|].
    rewrite Qmult_0_l. change 0%Q with (inject_Z 0). rewrite <- Zle_Qle. assumption. }
  destruct (prepareToPlay_midi_state input N info) as [Hp [Hsr Hlt]].
  fold node in Hp, Hsr, Hlt.
  destruct (run_midi_general merge Hmerge rate delay calls node Hsr Hlt Hbt j r cj Hr Hcj)
    as [emitted [Hout [HA HB]]].
  exists r, emitted. split; [exact Hr|]. split; [exact Hout|]. split.
  - intros k ck m Hk Hck Hm Ht Hle Hlow.
    destruct (HB k (blockStart rate calls k + getTimeStamp m + delay)%Q (getMessage m) Hk)
      as [e [He [Hmsg Hts]]]; auto.
    { right. exists ck, m. repeat split; auto. }
    exists e. split; [exact He|]. split; [exact Hmsg|]. split; [exact Hts|].
    pose proof (blockStart_step rate calls j cj Hcj) as Hstep.
    split.
    + destruct Hlow as [->|Hlow]; lra.
    + lra.
  - intros e He. destruct (HA e He) as [k [a [Hk [Hfed [Hts [Hle Hlow]]]]]].
    destruct Hfed as [[_ [p [Hin _]]]|[ck [m [Hck [Hm [Ha Hmsg]]]]]].
    + rewrite Hp in Hin. contradiction.
    + exists k, ck, m. repeat split; auto.
      * lra.
      * lra.
      * destruct Hlow as [->|Hlow]; [left; reflexivity|right; lra].
Qed.

Lemma midi_event_emitted_after_latency_witness :
  (forall dst src delta,
      Permutation (appendWithOffset dst src delta) (dst ++ addToTimestamps delta src))
  /\ 0 <= 5
  /\ (0 < sampleRate (mkInfo (48000 # 1) 4))%Q
  /\ Forall (fun c => 0 <= numSamplesOf c) midiExampleCalls
  /\ exists r emitted,
       nth_error (LatencyNode.run appendWithOffset
                    (LatencyNode.prepareToPlay
                       (LatencyNode.create (OtherNode 0 defaultNodeProperties) 5)
                       (mkInfo (48000 # 1) 4))
                    midiExampleCalls) 1 = Some r
       /\ midi (snd r) = [] ++ emitted.
Proof.
  assert (H1 : forall dst src delta,
             Permutation (appendWithOffset dst src delta) (dst ++ addToTimestamps delta src)).
  { intros. apply Permutation_refl. }
  assert (H2 : 0 <= 5) by lia.
  assert (H3 : (0 < sampleRate (mkInfo (48000 # 1) 4))%Q) by reflexivity.
  assert (H4 : Forall (fun c => 0 <= numSamplesOf c) midiExampleCalls).
  { repeat constructor; vm_compute; discriminate. }
  repeat (split; [assumption|]).
  destruct (midi_event_emitted_after_latency appendWithOffset
              (OtherNode 0 defaultNodeProperties) 5 (mkInfo (48000 # 1) 4)
              midiExampleCalls H1 H2 H3 H4 1%nat
              (mkBuffers [] [], mkContext (mkRange 4 6) (mkRange 4 6) (mkBuffers [] []))
              eq_refl)
    as [r [emitted [Hr [Hout _]]]].
  exists r, emitted. split; assumption.
Defined.

(** ** LatencyNode: the MIDI delay queue in [double] *)










Section MidiDelayDouble.

Variable merge : LatencyNodeMidi.MessageArray -> LatencyNodeMidi.MessageArray
                 -> Double.t -> LatencyNodeMidi.MessageArray.
Hypothesis merge_permutation : forall dst src delta,
  Permutation (merge dst src delta) (dst ++ LatencyNodeMidi.addToTimestamps delta src).


End MidiDelayDouble.






(** A delay of 4 samples at 48000 Hz over two blocks of 4 samples, in
    [double]: the message fed at 0 in the first block has the time stamp
    [4.0 / 48000.0], which is the duration of the block; the test [<=] lets
    it out in the first block, at the block's end. *)
Example midi_delay_to_the_end_of_the_block :
  map snd (LatencyNodeMidi.run LatencyNodeMidi.appendWithOffset
             (LatencyNodeMidi.prepareToPlay (LatencyNodeMidi.create 4) (Double.ofInt 48000))
             [ ([LatencyNodeMidi.mkMessage (S754_zero false) 60], mkRange 0 4, []);
               ([], mkRange 4 8, []) ])
  = [ [LatencyNodeMidi.mkMessage (Double.div (Double.ofInt 4) (Double.ofInt 48000)) 60];
      [] ].
Proof. vm_compute. reflexivity. Qed.

(** ** LatencyNode: the audio delay line *)

Lemma Qplus_0_l_eq : forall x : Q, (0 + x)%Q = x.
Proof.
  intros [n d]. unfold Qplus. simpl. rewrite Z.mul_1_r. reflexivity.
Qed.

Lemma addFrame_silent : forall fr, addFrame (silentFrame (length fr)) fr = fr.
Proof.
  induction fr as [|x fr IH]; simpl; [reflexivity|].
  rewrite Qplus_0_l_eq. unfold silentFrame in IH. rewrite IH. reflexivity.
Qed.

Lemma addBlock_silence : forall c b,
  hasWidth c b -> addBlock (silence c (length b)) b = b.
Proof.
  intros c b H. induction H as [|fr b Hfr Hb IH]; simpl; [reflexivity|].
  unfold silence in IH. rewrite IH. rewrite <- Hfr. rewrite addFrame_silent. reflexivity.
Qed.

Lemma hasWidth_app : forall c a b, hasWidth c a -> hasWidth c b -> hasWidth c (a ++ b).
Proof. intros. apply Forall_app. split; assumption. Qed.

Lemma hasWidth_firstn : forall c n b, hasWidth c b -> hasWidth c (firstn n b).
Proof.
  intros c n b H. unfold hasWidth in *.
  rewrite <- (firstn_skipn n b) in H. apply Forall_app in H. tauto.
Qed.

Lemma hasWidth_skipn : forall c n b, hasWidth c b -> hasWidth c (skipn n b).
Proof.
  intros c n b H. unfold hasWidth in *.
  rewrite <- (firstn_skipn n b) in H. apply Forall_app in H. tauto.
Qed.

Lemma hasWidth_silence : forall c n, hasWidth c (silence c n).
Proof.
  intros c n. apply Forall_forall. intros x Hx. apply repeat_spec in Hx. subst.
  apply repeat_length.
Qed.

Lemma length_silence : forall c n, @length (list Q) (silence c n) = n.
Proof. intros. apply repeat_length. Qed.

Lemma numSamplesOf_audioCall : forall c block,
  Z.of_nat (length block) <= Int.INT_MAX ->
  numSamplesOf (audioCall c block) = Z.of_nat (length block).
Proof.
  intros c block H. unfold numSamplesOf, audioCall, getLength, getNumSamples. simpl.
  rewrite Z.sub_0_r. rewrite wrap64_inRange.
  - apply wrap32_inRange. unfold Int.inRange, Int.INT_MIN, Int.INT_MAX in *. lia.
  - unfold Int.inRange64, Int.INT_MAX in *. lia.
Qed.

(** One call on a line that is ready: the block goes in behind the delayed
    frames and the oldest frames of the line, as many as the block has, come
    out. *)
Lemma process_audio_step : forall merge numCh N B delayed node block,
  0 < numCh ->
  lineReady numCh N B delayed node ->
  Z.of_nat (length block) <= B ->
  hasWidth (Z.to_nat numCh) block ->
  let r := LatencyNode.process merge node
             (fst (audioCall (Z.to_nat numCh) block))
             (snd (audioCall (Z.to_nat numCh) block)) in
  audio (snd r) = firstn (length block) (delayed ++ block)
  /\ lineReady numCh N B (skipn (length block) (delayed ++ block)) (fst r).
Proof.
  intros merge numCh N B delayed node block Hch [Hfifo [Hlen Hw]] Hb Hwb r.
  subst r. unfold LatencyNode.process. rewrite Hfifo.
  unfold AudioFifo.getNumChannels. simpl AudioFifo.numChannels.
  destruct (Z.ltb_spec 0 numCh) as [_|Hn]; [|lia].
  unfold AudioFifo.write, AudioFifo.getFreeSpace, AudioFifo.getNumReady, getNumSamples.
  simpl.
  destruct (Z.leb_spec (Z.of_nat (length block)) (N + B + 1 - Z.of_nat (length delayed) - 1))
    as [_|Hn]; [|lia].
  unfold AudioFifo.readAdding, AudioFifo.getNumReady, getNumSamples. simpl.
  rewrite !length_silence. rewrite length_app.
  destruct (Z.leb_spec (Z.of_nat (length block)) (Z.of_nat (length delayed + length block)))
    as [_|Hn]; [|lia].
  destruct (LatencyNode.readOutDelayed _ _ _ _) as [pending outMidi].
  simpl. split.
  - pose proof (addBlock_silence (Z.to_nat numCh) (firstn (length block) (delayed ++ block))) as Ha.
    rewrite length_firstn, length_app in Ha.
    replace (Nat.min (length block) (length delayed + length block)) with (length block) in Ha by lia.
    apply Ha. apply hasWidth_firstn. apply hasWidth_app; assumption.
  - unfold lineReady. simpl. split; [reflexivity|]. split.
    + rewrite length_skipn, length_app. lia.
    + apply hasWidth_skipn. apply hasWidth_app; assumption.
Qed.

Lemma firstn_split_app : forall (A : Type) (n m : nat) (l x : list A),
  (n <= length l)%nat ->
  firstn (n + m) (l ++ x) = firstn n l ++ firstn m (skipn n l ++ x).
Proof.
  intros A n m l x Hn.
  rewrite <- (firstn_skipn n l) at 1. rewrite <- app_assoc.
  assert (Hl : length (firstn n l) = n) by (rewrite length_firstn; lia).
  rewrite <- Hl at 1. rewrite firstn_app_2. reflexivity.
Qed.

(** The outputs of a run, joined, are the line's delayed frames followed by
    the input, cut to the length of the input. *)
Lemma audio_run_delays : forall merge numCh N B blocks delayed node,
  0 < numCh ->
  lineReady numCh N B delayed node ->
  Forall (fun b => Z.of_nat (length b) <= B /\ hasWidth (Z.to_nat numCh) b) blocks ->
  concat (audioOutputs merge node (Z.to_nat numCh) blocks)
  = firstn (length (concat blocks)) (delayed ++ concat blocks).
Proof.
  intros merge numCh N B blocks. induction blocks as [|b rest IH];
    intros delayed node Hch Hline Hblocks.
  - reflexivity.
  - inversion Hblocks as [|? ? [Hb Hw] Hrest]; subst.
    unfold audioOutputs. cbn [map LatencyNode.run concat].
    destruct (process_audio_step merge numCh N B delayed node b Hch Hline Hb Hw)
      as [Hout Hline'].
    cbv zeta in Hout, Hline'. cbn [fst snd map concat].
    change (audioCall (Z.to_nat numCh) b)
      with (fst (audioCall (Z.to_nat numCh) b), snd (audioCall (Z.to_nat numCh) b)).
    cbn [map LatencyNode.run concat fst snd].
    rewrite Hout.
    fold (audioOutputs merge
            (fst (LatencyNode.process merge node (fst (audioCall (Z.to_nat numCh) b))
                    (snd (audioCall (Z.to_nat numCh) b))))
            (Z.to_nat numCh) rest).
    rewrite (IH _ _ Hch Hline' Hrest).
    rewrite length_app. rewrite app_assoc.
    rewrite (firstn_split_app _ (length b) (length (concat rest)) (delayed ++ b) (concat rest)).
    + reflexivity.
    + rewrite length_app. lia.
Qed.

Lemma prepareToPlay_lineReady : forall input N info,
  0 <= N -> 0 <= blockSize info -> N + blockSize info + 1 <= Int.INT_MAX ->
  let numCh := numberOfChannels (Graph.getNodeProperties input) in
  lineReady numCh N (blockSize info) (silence (Z.to_nat numCh) (Z.to_nat N))
            (LatencyNode.prepareToPlay (LatencyNode.create input N) info).
Proof.
  intros input N info HN HB Hmax numCh.
  unfold lineReady, LatencyNode.prepareToPlay, LatencyNode.create. simpl.
  unfold LatencyNode.getNodeProperties, latencyNodeProperties. simpl.
  fold numCh.
  rewrite (wrap32_inRange (N + blockSize info))
    by (unfold Int.inRange, Int.INT_MIN, Int.INT_MAX in *; lia).
  rewrite (wrap32_inRange (N + blockSize info + 1))
    by (unfold Int.inRange, Int.INT_MIN, Int.INT_MAX in *; lia).
  unfold AudioFifo.writeSilence, AudioFifo.setSize, AudioFifo.write,
    AudioFifo.getFreeSpace, AudioFifo.getNumReady, getNumSamples. simpl.
  unfold silence. rewrite !repeat_length.
  destruct (Z.leb_spec (Z.of_nat (Z.to_nat N)) (N + blockSize info + 1 - 0 - 1)) as [_|Hn];
    [|lia].
  split; [reflexivity|]. split.
  - lia.
  - apply hasWidth_silence.
Qed.

(** A node without channels leaves the destination block of every call as it
    is. *)
Lemma audio_run_no_channels : forall merge c blocks node,
  AudioFifo.numChannels (LatencyNode.fifo node) <= 0 ->
  audioOutputs merge node c blocks = map (fun b => silence c (length b)) blocks.
Proof.
  intros merge c blocks. induction blocks as [|b rest IH]; intros node Hch.
  - reflexivity.
  - unfold audioOutputs in *. cbn [map LatencyNode.run].
    change (audioCall c b) with (fst (audioCall c b), snd (audioCall c b)).
    cbn [map LatencyNode.run fst snd].
    assert (Hstep : audio (snd (LatencyNode.process merge node (fst (audioCall c b))
                                   (snd (audioCall c b))))
                    = silence c (length b)
                    /\ LatencyNode.fifo (fst (LatencyNode.process merge node
                                                (fst (audioCall c b)) (snd (audioCall c b))))
                       = LatencyNode.fifo node).
    { unfold LatencyNode.process, AudioFifo.getNumChannels.
      destruct (Z.ltb_spec 0 (AudioFifo.numChannels (LatencyNode.fifo node))) as [Hn|_];
        [lia|].
      destruct (LatencyNode.readOutDelayed _ _ _ _). simpl. split; reflexivity. }
    destruct Hstep as [Hout Hfifo]. rewrite Hout. f_equal.
    apply IH. rewrite Hfifo. assumption.
Qed.

Lemma hasWidth_0_silence : forall b, hasWidth 0 b -> b = silence 0 (length b).
Proof.
  intros b H. induction H as [|fr b Hfr Hb IH]; [reflexivity|].
  simpl. unfold silence in *. simpl. rewrite <- IH.
  destruct fr; [reflexivity|discriminate].
Qed.

Lemma hasWidth_concat : forall c blocks,
  Forall (hasWidth c) blocks -> hasWidth c (concat blocks).
Proof.
  intros c blocks H. induction H as [|b rest Hb Hrest IH]; simpl.
  - constructor.
  - apply hasWidth_app; assumption.
Qed.

Lemma concat_silence : forall c (blocks : list AudioBlock),
  concat (map (fun b => silence c (length b)) blocks) = silence c (length (concat blocks)).
Proof.
  intros c blocks. induction blocks as [|b rest IH]; simpl; [reflexivity|].
  rewrite IH. rewrite length_app. unfold silence. rewrite repeat_app. reflexivity.
Qed.

Lemma silence_prefix : forall c k m,
  silence c m = firstn m (silence c k ++ silence c m).
Proof.
  intros c k m. unfold silence. rewrite <- repeat_app.
  replace (k + m)%nat with (m + k)%nat by lia.
  rewrite repeat_app. rewrite firstn_app, repeat_length, Nat.sub_diag.
  simpl. rewrite app_nil_r. rewrite firstn_all2; [reflexivity|].
  rewrite repeat_length. lia.
Qed.

Lemma prepareToPlay_numChannels : forall input N info,
  AudioFifo.numChannels
    (LatencyNode.fifo (LatencyNode.prepareToPlay (LatencyNode.create input N) info))
  = numberOfChannels (Graph.getNodeProperties input).
Proof.
  intros. unfold LatencyNode.prepareToPlay, AudioFifo.writeSilence, AudioFifo.write.
  simpl. destruct (_ <=? _); reflexivity.
Qed.

(** The delay line as a whole: a LatencyNode of [N] samples that was prepared
    for blocks of up to [blockSize] frames puts out, over the blocks of any
    signal, [N] frames of silence followed by the signal, cut to the length of
    the signal. *)
Lemma latency_audio_delay :
  forall merge (input : Node) (N : Z) (info : PlaybackInitialisationInfo)
         (blocks : list AudioBlock),
    let c := Z.to_nat (numberOfChannels (Graph.getNodeProperties input)) in
    0 <= N ->
    N + blockSize info + 1 <= Int.INT_MAX ->
    Forall (fun b => Z.of_nat (length b) <= blockSize info /\ hasWidth c b) blocks ->
    concat (audioOutputs merge (LatencyNode.prepareToPlay (LatencyNode.create input N) info)
              c blocks)
    = firstn (length (concat blocks)) (silence c (Z.to_nat N) ++ concat blocks).
Proof.
  intros merge input N info blocks c HN Hmax Hblocks.
  destruct blocks as [|b0 rest]; [reflexivity|].
  assert (HB : 0 <= blockSize info).
  { pose proof (Forall_inv Hblocks) as [Hb _]. lia. }
  set (numCh := numberOfChannels (Graph.getNodeProperties input)) in *.
  destruct (Z.ltb_spec 0 numCh) as [Hch|Hch].
  - apply (audio_run_delays merge numCh N (blockSize info)); [assumption| |assumption].
    apply prepareToPlay_lineReady; assumption.
  - assert (Hc : c = O) by (unfold c; lia).
    rewrite audio_run_no_channels by (rewrite prepareToPlay_numChannels; assumption).
    rewrite concat_silence. rewrite Hc in *.
    assert (Hw : hasWidth 0 (concat (b0 :: rest))).
    { apply hasWidth_concat. eapply Forall_impl; [|exact Hblocks]. simpl. tauto. }
    pose proof (hasWidth_0_silence _ Hw) as HX.
    remember (length (concat (b0 :: rest))) as m eqn:Hm. clear Hm.
    rewrite HX. apply silence_prefix.
Qed.

Lemma hasWidth_blocks : forall c (blocks : list AudioBlock),
  hasWidth c (concat blocks) -> Forall (hasWidth c) blocks.
Proof.
  intros c blocks H. induction blocks as [|b rest IH]; [constructor|].
  simpl in H. unfold hasWidth in H. apply Forall_app in H. destruct H as [Hb Hrest].
  constructor; [exact Hb|apply IH; exact Hrest].
Qed.

Lemma firstn_silence : forall c k n, (k <= n)%nat -> firstn k (silence c n) = silence c k.
Proof.
  intros c k n H. replace n with (k + (n - k))%nat by lia.
  unfold silence. rewrite repeat_app. rewrite firstn_app, repeat_length, Nat.sub_diag.
  simpl. rewrite app_nil_r. rewrite firstn_all2; [reflexivity|rewrite repeat_length; lia].
Qed.

(** C2.  A LatencyNode of [N >= 0] samples is prepared with a block size
    (with [N + blockSize + 1] an [int]) and run, block by block and into
    silent destination buffers, over an impulse: a signal of [p] silent frames,
    one frame [impulse], and [q] silent frames, cut into blocks of at most
    [blockSize] frames in any way.  The outputs of the blocks, joined, are the
    impulse moved back by exactly [N] frames: [N + p] silent frames, then the
    impulse, then silence, up to the length of the input. *)
Theorem latency_node_delays_impulse :
  forall (merge : MidiMessageArray -> MidiMessageArray -> Q -> MidiMessageArray)
         (input : Node) (N : Z) (info : PlaybackInitialisationInfo)
         (blocks : list AudioBlock) (p q : nat) (impulse : Frame),
    let c := Z.to_nat (numberOfChannels (Graph.getNodeProperties input)) in
    let output :=
      concat (audioOutputs merge
                (LatencyNode.prepareToPlay (LatencyNode.create input N) info) c blocks) in
    0 <= N ->
    N + blockSize info + 1 <= Int.INT_MAX ->
    length impulse = c ->
    Forall (fun b => Z.of_nat (length b) <= blockSize info) blocks ->
    concat blocks = silence c p ++ impulse :: silence c q ->
    output = firstn (p + 1 + q)
               (silence c (Z.to_nat N + p) ++ impulse :: silence c q)
    /\ ((Z.to_nat N <= q)%nat ->
        output = silence c (Z.to_nat N + p) ++ impulse :: silence c (q - Z.to_nat N)).
Proof.
  intros merge input N info blocks p q impulse c output HN Hmax Himp Hsize Hsignal.
  assert (Hw : hasWidth c (concat blocks)).
  { rewrite Hsignal. apply hasWidth_app; [apply hasWidth_silence|].
    constructor; [exact Himp|apply hasWidth_silence]. }
  assert (Hblocks : Forall (fun b => Z.of_nat (length b) <= blockSize info /\ hasWidth c b)
                      blocks).
  { apply hasWidth_blocks in Hw. rewrite Forall_forall in *. intros b Hb. split; auto. }
  assert (Hout : output = firstn (p + 1 + q)
                            (silence c (Z.to_nat N + p) ++ impulse :: silence c q)).
  { unfold output, c.
    rewrite (latency_audio_delay merge input N info blocks HN Hmax Hblocks).
    fold c. rewrite Hsignal.
    rewrite length_app. simpl length. rewrite !length_silence.
    replace (p + S q)%nat with (p + 1 + q)%nat by lia.
    rewrite app_assoc. unfold silence at 1 2. rewrite <- repeat_app. reflexivity. }
  split; [exact Hout|].
  intro Hq. rewrite Hout.
  replace (p + 1 + q)%nat
    with (length (silence c (Z.to_nat N + p) ++ [impulse]) + (q - Z.to_nat N))%nat
    by (rewrite length_app, length_silence; simpl; lia).
  change (impulse :: silence c q) with ([impulse] ++ silence c q).
  rewrite app_assoc. rewrite firstn_app_2. rewrite <- app_assoc.
  f_equal. simpl. f_equal. apply firstn_silence. lia.
Qed.

Lemma latency_node_delays_impulse_witness :
  0 <= 3
  /\ 3 + blockSize (mkInfo (48000 # 1) 4) + 1 <= Int.INT_MAX
  /\ length [1%Q] = Z.to_nat (numberOfChannels (Graph.getNodeProperties impulseInput))
  /\ Forall (fun b : AudioBlock => Z.of_nat (length b) <= blockSize (mkInfo (48000 # 1) 4))
            impulseBlocks
  /\ concat impulseBlocks = silence 1 1 ++ [1%Q] :: silence 1 6
  /\ concat (audioOutputs appendWithOffset
               (LatencyNode.prepareToPlay (LatencyNode.create impulseInput 3)
                  (mkInfo (48000 # 1) 4))
               1 impulseBlocks)
     = firstn (1 + 1 + 6) (silence 1 (Z.to_nat 3 + 1) ++ [1%Q] :: silence 1 6).
Proof.
  assert (H1 : 0 <= 3) by lia.
  assert (H2 : 3 + blockSize (mkInfo (48000 # 1) 4) + 1 <= Int.INT_MAX)
    by (vm_compute; discriminate).
  assert (H3 : length [1%Q]
               = Z.to_nat (numberOfChannels (Graph.getNodeProperties impulseInput)))
    by reflexivity.
  assert (H4 : Forall (fun b : AudioBlock =>
                         Z.of_nat (length b) <= blockSize (mkInfo (48000 # 1) 4))
                 impulseBlocks)
    by (repeat constructor; vm_compute; discriminate).
  assert (H5 : concat impulseBlocks = silence 1 1 ++ [1%Q] :: silence 1 6) by reflexivity.
  repeat (split; [assumption|]).
  exact (proj1 (latency_node_delays_impulse appendWithOffset impulseInput 3
                  (mkInfo (48000 # 1) 4) impulseBlocks 1 6 [1%Q] H1 H2 H3 H4 H5)).
Defined.

(** Block-size invariance of the delay line: two ways of cutting one signal
    into blocks of at most [blockSize] frames give the same output signal. *)
Lemma latency_node_chunking_invariant :
  forall merge (input : Node) (N : Z) (info : PlaybackInitialisationInfo)
         (blocks1 blocks2 : list AudioBlock),
    let c := Z.to_nat (numberOfChannels (Graph.getNodeProperties input)) in
    let node := LatencyNode.prepareToPlay (LatencyNode.create input N) info in
    0 <= N ->
    N + blockSize info + 1 <= Int.INT_MAX ->
    Forall (fun b => Z.of_nat (length b) <= blockSize info /\ hasWidth c b) blocks1 ->
    Forall (fun b => Z.of_nat (length b) <= blockSize info /\ hasWidth c b) blocks2 ->
    concat blocks1 = concat blocks2 ->
    concat (audioOutputs merge node c blocks1) = concat (audioOutputs merge node c blocks2).
Proof.
  intros merge input N info blocks1 blocks2 c node HN Hmax H1 H2 Heq.
  unfold node, c.
  rewrite (latency_audio_delay merge input N info blocks1 HN Hmax H1).
  rewrite (latency_audio_delay merge input N info blocks2 HN Hmax H2).
  rewrite Heq. reflexivity.
Qed.

(** ** FadeInOutNode *)

Lemma copyFrame_same_length : forall dest src,
  length dest = length src -> FadeInOutNode.copyFrame dest src = src.
Proof.
  induction dest as [|d dest IH]; intros [|s src] H; simpl in *; try discriminate.
  - reflexivity.
  - rewrite IH by lia. reflexivity.
Qed.

Lemma copyFrom_sameShape : forall dest src,
  sameShape dest src -> FadeInOutNode.copyFrom dest src = src.
Proof.
  intros dest src H. induction H as [|d s dest src Hds Hrest IH]; simpl.
  - reflexivity.
  - rewrite IH, copyFrame_same_length by assumption. reflexivity.
Qed.

(** Whatever the play head and the fades, [process] leaves the destination
    MIDI array as it found it. *)
Lemma FadeInOutNode_process_midi : forall curveGain node playHeadState sourceBuffers pc,
  midi (FadeInOutNode.process curveGain node playHeadState sourceBuffers pc)
  = midi (buffers pc).
Proof.
  intros. unfold FadeInOutNode.process.
  destruct (negb _); reflexivity.
Qed.

(** The audio half of the passthrough: with the play head stopped, or with a
    block that meets neither fade range, the destination audio is the input
    node's audio. *)
Lemma FadeInOutNode_passthrough_audio :
  forall curveGain node playHeadState sourceBuffers pc,
    sameShape (audio (buffers pc)) (audio sourceBuffers) ->
    FadeInOutNode.isPlaying playHeadState = false
    \/ (intersects (FadeInOutNode.fadeInSampleRange node)
          (FadeInOutNode.timelineRange1 playHeadState (referenceSampleRange pc)) = false
        /\ intersects (FadeInOutNode.fadeOutSampleRange node)
             (FadeInOutNode.timelineRange1 playHeadState (referenceSampleRange pc)) = false) ->
    audio (FadeInOutNode.process curveGain node playHeadState sourceBuffers pc)
    = audio sourceBuffers.
Proof.
  intros curveGain node ps src pc Hshape Hcase.
  unfold FadeInOutNode.process.
  assert (Hr : FadeInOutNode.renderingNeeded node ps
                 (FadeInOutNode.timelineRange1 ps (referenceSampleRange pc)) = false).
  { unfold FadeInOutNode.renderingNeeded.
    destruct Hcase as [Hstop|[Hin Hout]].
    - rewrite Hstop. reflexivity.
    - rewrite Hin, Hout. destruct (negb _); reflexivity. }
  rewrite Hr. simpl. apply copyFrom_sameShape. assumption.
Qed.

(** C7, at an input on which the code and the claim part.  The play head is
    stopped, the input node has put out one frame of audio and one MIDI
    message, the destination buffers are a silent frame and an empty MIDI
    array.  After [process] the destination audio is the input's audio, and
    the destination MIDI array is still empty: the input's message is not in
    it. *)
Theorem FadeInOutNode_passthrough_drops_midi :
  forall curveGain : FadeInOutNode.FadeType -> Q -> Q,
    let sourceBuffers := mkBuffers [[1 # 2]] [noteOn] in
    let pc := mkContext (mkRange 0 1) (mkRange 0 1) (mkBuffers [[0%Q]] []) in
    FadeInOutNode.process curveGain fadeNode stoppedPlayHead sourceBuffers pc
    = mkBuffers [[1 # 2]] []
    /\ midi (FadeInOutNode.process curveGain fadeNode stoppedPlayHead sourceBuffers pc)
       <> midi sourceBuffers.
Proof.
  intro curveGain. simpl. split; [reflexivity|discriminate].
Qed.

Lemma validRange_length : forall r,
  validRange r -> 0 < getLength r -> getLength r = getEnd r - getStart r.
Proof.
  intros r [[H1 H2] [[H3 H4] H5]]. unfold getLength, Int.wrap64. intro Hpos.
  revert Hpos. Z.div_mod_to_equations. lia.
Qed.

Lemma blockRange_length : forall r,
  blockRange r -> getLength r = getEnd r - getStart r.
Proof.
  intros r [[[H1 H2] [[H3 H4] H5]] [H6 H7]]. revert H6 H7.
  unfold getLength, Int.wrap64. Z.div_mod_to_equations. lia.
Qed.

Lemma ratio_inUnit : forall a b : Z,
  0 <= a <= b -> 0 < b -> inUnit (inject_Z a / inject_Z b).
Proof.
  intros a b [Ha Hab] Hb. unfold inUnit.
  assert (Hbq : (0 < inject_Z b)%Q).
  { change 0%Q with (inject_Z 0). rewrite <- Zlt_Qlt. assumption. }
  split.
  - apply Qle_shift_div_l; [assumption|]. rewrite Qmult_0_l.
    change 0%Q with (inject_Z 0). rewrite <- Zle_Qle. assumption.
  - apply Qle_shift_div_r; [assumption|]. rewrite Qmult_1_l.
    rewrite <- Zle_Qle. assumption.
Qed.

Lemma jmax0_inUnit : forall x, inUnit x -> inUnit (FadeInOutNode.jmax0 x).
Proof.
  intros x [H0 H1]. unfold FadeInOutNode.jmax0, inUnit.
  destruct (Qle_bool x 0); lra.
Qed.

Lemma jlimit01_inUnit : forall x, inUnit (FadeInOutNode.jlimit01 x).
Proof.
  intro x. unfold FadeInOutNode.jlimit01, inUnit.
  destruct (Qle_bool x 0) eqn:H0; [lra|].
  destruct (Qle_bool 1 x) eqn:H1; [lra|].
  assert (~ (x <= 0)%Q) by (intro H; apply Qle_bool_iff in H; congruence).
  assert (~ (1 <= x)%Q) by (intro H'; apply Qle_bool_iff in H'; congruence).
  lra.
Qed.

Lemma inUnit_0 : inUnit 0.
Proof. unfold inUnit. lra. Qed.

Lemma inUnit_1 : inUnit 1.
Proof. unfold inUnit. lra. Qed.

(** How far a block that meets a fade range has got into it: the numerators
    of the alphas, as the source computes them. *)
Lemma fade_progress : forall timelineRange fade,
  blockRange timelineRange -> validRange fade ->
  intersects timelineRange fade = true ->
  0 < getLength fade ->
  (Int.wrap32 (Int.wrap64 (getStart fade - getStart timelineRange)) <= 0 ->
   0 <= Int.wrap64 (getStart timelineRange - getStart fade) <= getLength fade)
  /\ (getEnd timelineRange < getEnd fade ->
      0 <= Int.wrap64 (getEnd timelineRange - getStart fade) <= getLength fade).
Proof.
  intros tl fade Htl Hfade Hint Hlen.
  assert (Hfb : getLength fade <= 9223372036854775807)
    by (apply (wrap64_bounds (getEnd fade - getStart fade))).
  rewrite (validRange_length fade Hfade Hlen) in *.
  pose proof (blockRange_length tl Htl) as Htlen.
  destruct Htl as [[[H1 H2] [[H3 H4] H5]] [H6 H7]].
  destruct Hfade as [[F1 F2] [[F3 F4] F5]].
  rewrite Htlen in H6, H7.
  unfold intersects in Hint. apply andb_true_iff in Hint. destruct Hint as [Hi1 Hi2].
  apply Z.ltb_lt in Hi1, Hi2.
  unfold Int.INT_MAX in *.
  split.
  - intro Hs.
    assert (Hd : getStart fade - getStart tl <= 0).
    { revert Hs. unfold Int.wrap32, Int.wrap64. Z.div_mod_to_equations. lia. }
    rewrite wrap64_inRange by (unfold Int.inRange64; lia). lia.
  - intro He. rewrite wrap64_inRange by (unfold Int.inRange64; lia). lia.
Qed.

(** C8.  For the timeline range of a block and a non-empty fade range that
    the block meets, the alphas that the fade-in branch computes and hands to
    [applyCrossfadeSection] lie in [0, 1]; so do the alphas that the fade-out
    branch computes, and the values [jlimit (0, 1, 1 - alpha)] that it hands
    over.  The block may reach over either end of the fade range, or both, or
    none. *)
Theorem fade_alphas_in_unit_interval :
  forall (timelineRange fade : Range) (numSamples : Z),
    blockRange timelineRange ->
    validRange fade ->
    intersects timelineRange fade = true ->
    0 < getLength fade ->
    let fadeIn := FadeInOutNode.fadeInSection timelineRange fade in
    let fadeOut := FadeInOutNode.fadeOutSection numSamples timelineRange fade in
    inUnit (FadeInOutNode.alpha1 fadeIn)
    /\ inUnit (FadeInOutNode.alpha2 fadeIn)
    /\ inUnit (FadeInOutNode.alpha1 fadeOut)
    /\ inUnit (FadeInOutNode.alpha2 fadeOut)
    /\ inUnit (FadeInOutNode.jlimit01 (1 - FadeInOutNode.alpha1 fadeOut))
    /\ inUnit (FadeInOutNode.jlimit01 (1 - FadeInOutNode.alpha2 fadeOut)).
Proof.
  intros tl fade numSamples Htl Hfade Hint Hlen fadeIn fadeOut.
  destruct (fade_progress tl fade Htl Hfade Hint Hlen) as [Hstart Hend].
  subst fadeIn fadeOut. unfold FadeInOutNode.fadeInSection, FadeInOutNode.fadeOutSection.
  refine (conj _ (conj _ (conj _ (conj _ (conj _ _)))));
    try apply jlimit01_inUnit.
  - destruct (Z.ltb_spec 0 (Int.wrap32 (Int.wrap64 (getStart fade - getStart tl)))) as [Hs|Hs];
      destruct (getEnd fade <=? getEnd tl); simpl.
    + apply inUnit_0.
    + apply inUnit_0.
    + apply ratio_inUnit; auto.
    + apply ratio_inUnit; auto.
  - destruct (0 <? Int.wrap32 (Int.wrap64 (getStart fade - getStart tl)));
      destruct (Z.leb_spec (getEnd fade) (getEnd tl)) as [He|He]; simpl.
    + apply inUnit_1.
    + apply jmax0_inUnit. apply ratio_inUnit; auto.
    + apply inUnit_1.
    + apply jmax0_inUnit. apply ratio_inUnit; auto.
  - destruct (Z.leb_spec (Int.wrap32 (Int.wrap64 (getStart fade - getStart tl))) 0) as [Hs|Hs];
      destruct (getEnd fade <=? getEnd tl); simpl.
    + apply ratio_inUnit; auto.
    + apply ratio_inUnit; auto.
    + apply inUnit_0.
    + apply inUnit_0.
  - destruct (Int.wrap32 (Int.wrap64 (getStart fade - getStart tl)) <=? 0);
      destruct (Z.leb_spec (getEnd fade) (getEnd tl)) as [He|He]; simpl.
    + apply inUnit_1.
    + apply ratio_inUnit; auto.
    + apply inUnit_1.
    + apply ratio_inUnit; auto.
Qed.

Lemma fade_alphas_in_unit_interval_witness :
  blockRange (mkRange 4608 5120)
  /\ validRange (mkRange 0 4800)
  /\ intersects (mkRange 4608 5120) (mkRange 0 4800) = true
  /\ 0 < getLength (mkRange 0 4800)
  /\ inUnit (FadeInOutNode.alpha1
               (FadeInOutNode.fadeInSection (mkRange 4608 5120) (mkRange 0 4800)))
  /\ inUnit (FadeInOutNode.alpha2
               (FadeInOutNode.fadeInSection (mkRange 4608 5120) (mkRange 0 4800))).
Proof.
  assert (H1 : blockRange (mkRange 4608 5120)).
  { unfold blockRange, validRange, Int.inRange64, Int.INT_MAX. vm_compute.
    repeat split; discriminate. }
  assert (H2 : validRange (mkRange 0 4800)).
  { unfold validRange, Int.inRange64. vm_compute. repeat split; discriminate. }
  assert (H3 : intersects (mkRange 4608 5120) (mkRange 0 4800) = true) by reflexivity.
  assert (H4 : 0 < getLength (mkRange 0 4800)) by reflexivity.
  repeat (split; [assumption|]).
  pose proof (fade_alphas_in_unit_interval (mkRange 4608 5120) (mkRange 0 4800) 512
                H1 H2 H3 H4) as H.
  cbv zeta in H. split; [exact (proj1 H)|exact (proj1 (proj2 H))].
Defined.

Lemma nth_error_mapFrom : forall f b k i,
  nth_error (FadeInOutNode.mapFrom k f b) i
  = option_map (f (k + Z.of_nat i)) (nth_error b i).
Proof.
  intros f b. induction b as [|fr rest IH]; intros k i.
  - destruct i; reflexivity.
  - destruct i as [|i]; simpl.
    + rewrite Z.add_0_r. reflexivity.
    + rewrite IH. f_equal. f_equal. lia.
Qed.

Lemma length_mapFrom : forall f b k, length (FadeInOutNode.mapFrom k f b) = length b.
Proof.
  intros f b. induction b as [|fr rest IH]; intro k; simpl; [|rewrite IH]; reflexivity.
Qed.

Lemma empty_range_length : forall e, getLength (mkRange e e) = 0.
Proof. intro e. unfold getLength. simpl. rewrite Z.sub_diag. reflexivity. Qed.

(** C4.  In the scenario, with the play head playing: on block 0, the 512
    frames at the timeline samples 0 to 511, [process] scales frame [i] of the
    input by [i / 4800], from 0 / 4800 for the first frame to 511 / 4800 for
    the last; on a block whose timeline range starts at sample 4800 or later
    it leaves the audio of the input as it is. *)
Theorem fade_in_scenario_48000 :
  forall (curveGain : FadeInOutNode.FadeType -> Q -> Q)
         (input : Node) (emptyAt : Z) (fadeOutType : FadeInOutNode.FadeType)
         (clearExtraSamples : bool)
         (playHeadState : FadeInOutNode.PlayHeadState)
         (sourceBuffers : AudioAndMidiBuffer) (pc : ProcessContext),
    let node := fadeInScenario input emptyAt fadeOutType clearExtraSamples in
    let timelineRange := FadeInOutNode.timelineRange1 playHeadState (referenceSampleRange pc) in
    let output := audio (FadeInOutNode.process curveGain node playHeadState sourceBuffers pc) in
    FadeInOutNode.isPlaying playHeadState = true ->
    sameShape (audio (buffers pc)) (audio sourceBuffers) ->
    (timelineRange = mkRange 0 512 ->
     length (audio sourceBuffers) = 512%nat ->
     length output = 512%nat
     /\ forall (i : nat) (fr : Frame),
          nth_error (audio sourceBuffers) i = Some fr ->
          exists gain : Q,
            (gain == Z.of_nat i # 4800)%Q
            /\ nth_error output i = Some (FadeInOutNode.scaleFrame gain fr))
    /\ (4800 <= getStart timelineRange -> output = audio sourceBuffers).
Proof.
  intros curveGain input emptyAt fadeOutType clearExtraSamples ps src pc
         node tl output Hplay Hshape.
  subst output. unfold FadeInOutNode.process. fold tl.
  rewrite (copyFrom_sameShape _ _ Hshape).
  unfold FadeInOutNode.renderingNeeded. rewrite Hplay. cbn [negb].
  cbn [node fadeInScenario FadeInOutNode.fadeInSampleRange FadeInOutNode.fadeOutSampleRange].
  rewrite empty_range_length. change (0 <? 0) with false. rewrite andb_false_r.
  split.
  - intros Htl Hlen. rewrite Htl.
    change (intersects (mkRange 0 4800) (mkRange 0 512)) with true.
    cbn [orb negb].
    change (intersects (mkRange 0 512) (mkRange 0 4800)) with true.
    change (0 <? getLength (mkRange 0 4800)) with true. cbn [andb].
    unfold FadeInOutNode.applyFadeIn.
    change (FadeInOutNode.fadeInSection (mkRange 0 512)
              (FadeInOutNode.fadeInSampleRange node))
      with (FadeInOutNode.mkSection 0 512 (0 / 4800) (FadeInOutNode.jmax0 (512 / 4800))).
    cbn [FadeInOutNode.startSamp FadeInOutNode.endSamp FadeInOutNode.alpha1
         FadeInOutNode.alpha2 andb].
    change (0 <? 0) with false. change (0 <? 512) with true. cbn [andb].
    cbn [audio node fadeInScenario FadeInOutNode.fadeInType].
    unfold FadeInOutNode.applyCrossfadeSection. split.
    + rewrite length_mapFrom. assumption.
    + intros i fr Hi. rewrite nth_error_mapFrom, Hi. cbn [option_map].
      assert (Hlt : (i < 512)%nat).
      { rewrite <- Hlen. apply nth_error_Some. congruence. }
      destruct (Z.leb_spec 0 (0 + Z.of_nat i)) as [_|Hn]; [|lia].
      destruct (Z.ltb_spec (0 + Z.of_nat i) (0 + (512 - 0))) as [_|Hn]; [|lia].
      cbn [andb FadeInOutNode.alphaToGain]. eexists. split; [|reflexivity].
      rewrite Z.add_0_l, Z.sub_0_r.
      change (FadeInOutNode.jmax0 (512 / 4800)) with (512 / 4800)%Q.
      rewrite (Qmake_Qdiv (Z.of_nat i) 4800).
      change (inject_Z (512 - 0)) with 512%Q.
      change (inject_Z (Z.pos 4800)) with 4800%Q.
      field.
  - intro Hstart.
    assert (Hin : intersects tl (mkRange 0 4800) = false).
    { unfold intersects. simpl. destruct (Z.ltb_spec (getStart tl) 4800); [lia|].
      apply andb_false_r. }
    rewrite Hin. cbn [andb].
    destruct (negb _); reflexivity.
Qed.

Lemma sameShape_silence : forall c n (fr : Frame),
  length fr = c -> sameShape (silence c n) (repeat fr n).
Proof.
  intros c n fr H. induction n as [|n IH]; simpl; constructor.
  - unfold silentFrame. rewrite repeat_length. symmetry. assumption.
  - exact IH.
Qed.

Lemma fade_in_scenario_48000_witness :
  FadeInOutNode.isPlaying scenarioPlayHead = true
  /\ sameShape (audio (buffers (scenarioContext 0))) (audio scenarioSource)
  /\ length (audio (FadeInOutNode.process (fun _ a => a)
                      (fadeInScenario (OtherNode 0 defaultNodeProperties) 0
                         FadeInOutNode.linear false)
                      scenarioPlayHead scenarioSource (scenarioContext 0))) = 512%nat
  /\ audio (FadeInOutNode.process (fun _ a => a)
              (fadeInScenario (OtherNode 0 defaultNodeProperties) 0
                 FadeInOutNode.linear false)
              scenarioPlayHead scenarioSource (scenarioContext 4800))
     = audio scenarioSource.
Proof.
  assert (H1 : FadeInOutNode.isPlaying scenarioPlayHead = true) by reflexivity.
  assert (H2 : forall start,
             sameShape (audio (buffers (scenarioContext start))) (audio scenarioSource)).
  { intro start. apply (sameShape_silence 1 512 [1%Q]). reflexivity. }
  split; [exact H1|]. split; [exact (H2 0)|]. split.
  - exact (proj1 (proj1 (fade_in_scenario_48000 (fun _ a => a)
                           (OtherNode 0 defaultNodeProperties) 0 FadeInOutNode.linear false
                           scenarioPlayHead scenarioSource (scenarioContext 0) H1 (H2 0))
                          eq_refl eq_refl)).
  - apply (proj2 (fade_in_scenario_48000 (fun _ a => a)
                    (OtherNode 0 defaultNodeProperties) 0 FadeInOutNode.linear false
                    scenarioPlayHead scenarioSource (scenarioContext 4800) H1 (H2 4800))).
    vm_compute. discriminate.
Defined.

(** ** Block-size invariance *)

(** C3, at an input on which the code and the claim part.  A linear fade-in
    over the timeline samples [0, 4) is played over eight frames of value 1
    that start at sample 0.  Given as one block of eight frames, the output is
    the ramp 0, 1/4, 1/2, 3/4 and then 1.  Given as two blocks of four frames,
    the output is 1 throughout: on a block that ends where the fade ends,
    [endSamp] is 0 and no fade is applied.  Given as blocks of two and six
    frames, the ramp is stretched over the first six frames. *)
Theorem fade_in_output_depends_on_blocks :
  let node := fadeNode in
  let run blocks :=
    map (map Qred)
        (concat (FadeInOutNode.runBlocks (fun _ a => a) node true 0 blocks)) in
  concat [unitSignal 8] = concat [unitSignal 4; unitSignal 4]
  /\ concat [unitSignal 8] = concat [unitSignal 2; unitSignal 6]
  /\ run [unitSignal 8]
     = [[0%Q]; [1 # 4]; [1 # 2]; [3 # 4]; [1%Q]; [1%Q]; [1%Q]; [1%Q]]
  /\ run [unitSignal 4; unitSignal 4]
     = [[1%Q]; [1%Q]; [1%Q]; [1%Q]; [1%Q]; [1%Q]; [1%Q]; [1%Q]]
  /\ run [unitSignal 2; unitSignal 6]
     = [[0%Q]; [1 # 4]; [1 # 2]; [5 # 8]; [3 # 4]; [7 # 8]; [1%Q]; [1%Q]].
Proof.
  repeat split; vm_compute; reflexivity.
Qed.

(** ** Worked examples *)

(** The alignment step on two owned inputs of latency 0 and 256 and a
    referenced input of latency 64: the input at 256 stays, the two others are
    wrapped in LatencyNodes allocated at 10 and 11, which go to the end of the
    list; the LatencyNode over the owned input owns it. *)
Example createLatencyNodes_example :
  SummingNode.prepareToPlay 10 alignmentExample (mkInfo (44100 # 1) 512)
  = SummingNode.mk
      [2%nat; 10%nat; 11%nat]
      [OtherNode 2 (mkProps true true 1 256 2);
       LatencyNodeAt 10 false (OtherNode 3 (mkProps false true 0 64 3)) 192;
       LatencyNodeAt 11 true (OtherNode 1 (mkProps true false 2 0 1)) 256].
Proof. reflexivity. Qed.

(** A delay of 5 samples at 48000 Hz over blocks of 4, 2 and 3 samples, in
    exact arithmetic: the messages fed in block 0 at 0 and at 1/48000 come
    out in block 1, at 1/48000 and at 2/48000, the latter being the duration
    of block 1.  In [double] the second message misses the test by one unit
    in the last place and comes out in block 2
    ([midi_event_leaves_a_block_late]). *)
Example midi_delay_example :
  map (fun r => map (fun m => (Qred (getTimeStamp m), getMessage m)) (midi (snd r)))
      (LatencyNode.run appendWithOffset
         (LatencyNode.prepareToPlay
            (LatencyNode.create (OtherNode 0 defaultNodeProperties) 5)
            (mkInfo (48000 # 1) 4))
         midiExampleCalls)
  = [[]; [(1 # 24000, 64%nat); (1 # 48000, 60%nat)]; []].
Proof. vm_compute. reflexivity. Qed.

(** A delay of 3 samples over blocks of 4, 3 and 1 frames: the impulse at
    frame 1 comes out at frame 4. *)
Example audio_delay_example :
  concat (audioOutputs appendWithOffset
            (LatencyNode.prepareToPlay (LatencyNode.create impulseInput 3)
               (mkInfo (48000 # 1) 4))
            1 impulseBlocks)
  = [[0%Q]; [0%Q]; [0%Q]; [0%Q]; [1%Q]; [0%Q]; [0%Q]; [0%Q]].
Proof. vm_compute. reflexivity. Qed.

(** The fade-in over [0, 4800) on the block of the timeline samples
    [4608, 5120), which reaches over the end of the fade: the fade ends 192
    frames into the block, and the section handed to [applyCrossfadeSection]
    runs from alpha 24/25 to alpha 1 over [0, 320).  On one block [0, 5120) the
    section runs from alpha 0 to alpha 1 over [0, 320). *)
Example fade_in_section_over_fade_end :
  let s := FadeInOutNode.fadeInSection (mkRange 4608 5120) (mkRange 0 4800) in
  let w := FadeInOutNode.fadeInSection (mkRange 0 5120) (mkRange 0 4800) in
  getEnd (mkRange 0 4800) - getStart (mkRange 4608 5120) = 192
  /\ (FadeInOutNode.startSamp s, FadeInOutNode.endSamp s) = (0, 320)
  /\ (Qred (FadeInOutNode.alpha1 s), Qred (FadeInOutNode.alpha2 s)) = (24 # 25, 1%Q)
  /\ (FadeInOutNode.startSamp w, FadeInOutNode.endSamp w) = (0, 320)
  /\ (Qred (FadeInOutNode.alpha1 w), Qred (FadeInOutNode.alpha2 w)) = (0%Q, 1%Q).
Proof. vm_compute. repeat split. Qed.

(** * Further properties of the three nodes *)

(** ** SummingNode: the declared properties *)

Lemma fold_right_max_init : forall l a x,
  fold_right Z.max (Z.max a x) l = Z.max x (fold_right Z.max a l).
Proof.
  induction l as [|y l IH]; intros a x; simpl; [lia|]. rewrite IH. lia.
Qed.

Lemma mergeProps_fold : forall ps init,
  fold_left mergeProps ps init
  = mkProps (hasAudio init || existsb hasAudio ps)
            (hasMidi init || existsb hasMidi ps)
            (fold_right Z.max (numberOfChannels init) (map numberOfChannels ps))
            (fold_right Z.max (latencyNumSamples init) (map latencyNumSamples ps))
            (nodeID init).
Proof.
  induction ps as [|p ps IH]; intro init; simpl.
  - rewrite !orb_false_r. destruct init; reflexivity.
  - rewrite IH. unfold mergeProps. simpl. rewrite !fold_right_max_init.
    rewrite !orb_assoc. reflexivity.
Qed.

Lemma summingNodeProperties_eq : forall ps,
  summingNodeProperties ps
  = mkProps (existsb hasAudio ps) (existsb hasMidi ps)
            (maxOrZero (map numberOfChannels ps))
            (maxOrZero (map latencyNumSamples ps)) 0.
Proof.
  intro ps. unfold summingNodeProperties. rewrite mergeProps_fold. reflexivity.
Qed.

Lemma maxOrZero_ge : forall l x, In x l -> x <= maxOrZero l.
Proof.
  unfold maxOrZero.
  induction l as [|y l IH]; intros x H; simpl in *; [contradiction|].
  destruct H as [->|H]; [lia|]. specialize (IH x H). lia.
Qed.

Lemma maxOrZero_nonneg : forall l, 0 <= maxOrZero l.
Proof. unfold maxOrZero. induction l as [|y l IH]; simpl; lia. Qed.

Lemma maxOrZero_attained : forall l, maxOrZero l = 0 \/ In (maxOrZero l) l.
Proof.
  unfold maxOrZero.
  induction l as [|y l IH]; simpl; [left; reflexivity|].
  destruct (Z.max_spec y (fold_right Z.max 0 l)) as [[_ ->]|[_ ->]].
  - destruct IH as [IH|IH]; [left; assumption|right; right; assumption].
  - right; left; reflexivity.
Qed.

(** X1.  What a SummingNode declares: audio when one of its inputs does, MIDI
    when one of its inputs does, and for the channel count and the latency
    the largest value among the inputs, counted from 0: never negative, at
    least every input's value, and either 0 or the value of one input. *)
Theorem SummingNode_declares_or_and_max :
  forall s : SummingNode.t,
    let props := SummingNode.getNodeProperties s in
    let inputs := map Graph.getNodeProperties (SummingNode.nodes s) in
    (hasAudio props = true <-> exists p, In p inputs /\ hasAudio p = true)
    /\ (hasMidi props = true <-> exists p, In p inputs /\ hasMidi p = true)
    /\ 0 <= numberOfChannels props
    /\ (forall p, In p inputs -> numberOfChannels p <= numberOfChannels props)
    /\ (numberOfChannels props = 0
        \/ exists p, In p inputs /\ numberOfChannels p = numberOfChannels props)
    /\ 0 <= latencyNumSamples props
    /\ (forall p, In p inputs -> latencyNumSamples p <= latencyNumSamples props)
    /\ (latencyNumSamples props = 0
        \/ exists p, In p inputs /\ latencyNumSamples p = latencyNumSamples props).
Proof.
  intros s props inputs. subst props. unfold SummingNode.getNodeProperties.
  fold inputs. rewrite summingNodeProperties_eq. simpl.
  split; [apply existsb_exists|]. split; [apply existsb_exists|].
  split; [apply maxOrZero_nonneg|].
  split; [intros p Hp; apply maxOrZero_ge; apply in_map; assumption|].
  split.
  { destruct (maxOrZero_attained (map numberOfChannels inputs)) as [H|H]; [left; assumption|].
    right. apply in_map_iff in H. destruct H as [p [H1 H2]]. exists p. auto. }
  split; [apply maxOrZero_nonneg|].
  split; [intros p Hp; apply maxOrZero_ge; apply in_map; assumption|].
  destruct (maxOrZero_attained (map latencyNumSamples inputs)) as [H|H]; [left; assumption|].
  right. apply in_map_iff in H. destruct H as [p [H1 H2]]. exists p. auto.
Qed.

Lemma existsb_Permutation : forall (A : Type) (f : A -> bool) (l l' : list A),
  Permutation l l' -> existsb f l = existsb f l'.
Proof.
  intros A f l l' H. induction H; simpl.
  - reflexivity.
  - rewrite IHPermutation. reflexivity.
  - destruct (f x), (f y); reflexivity.
  - congruence.
Qed.

Lemma maxOrZero_Permutation : forall l l',
  Permutation l l' -> maxOrZero l = maxOrZero l'.
Proof.
  intros l l' H. unfold maxOrZero. induction H; simpl.
  - reflexivity.
  - rewrite IHPermutation. reflexivity.
  - lia.
  - congruence.
Qed.

Lemma summingNodeProperties_Permutation : forall ps ps',
  Permutation ps ps' -> summingNodeProperties ps = summingNodeProperties ps'.
Proof.
  intros ps ps' H. rewrite !summingNodeProperties_eq.
  rewrite (existsb_Permutation _ hasAudio _ _ H).
  rewrite (existsb_Permutation _ hasMidi _ _ H).
  rewrite (maxOrZero_Permutation _ _ (Permutation_map numberOfChannels H)).
  rewrite (maxOrZero_Permutation _ _ (Permutation_map latencyNumSamples H)).
  reflexivity.
Qed.

(** X2.  The properties a SummingNode declares do not depend on the order of
    its inputs, nor on which of them it owns. *)
Theorem SummingNode_properties_order_independent :
  forall s s' : SummingNode.t,
    Permutation (SummingNode.nodes s) (SummingNode.nodes s') ->
    SummingNode.getNodeProperties s = SummingNode.getNodeProperties s'.
Proof.
  intros s s' H. unfold SummingNode.getNodeProperties.
  apply summingNodeProperties_Permutation. apply Permutation_map. assumption.
Qed.

Lemma SummingNode_properties_order_independent_witness :
  Permutation
    (SummingNode.nodes (SummingNode.createMixed
                          [OtherNode 1 (mkProps true false 2 0 1)]
                          [OtherNode 3 (mkProps false true 0 64 3)]))
    (SummingNode.nodes (SummingNode.createReferencing
                          [OtherNode 1 (mkProps true false 2 0 1);
                           OtherNode 3 (mkProps false true 0 64 3)]))
  /\ SummingNode.getNodeProperties
       (SummingNode.createMixed
          [OtherNode 1 (mkProps true false 2 0 1)]
          [OtherNode 3 (mkProps false true 0 64 3)])
     = SummingNode.getNodeProperties
         (SummingNode.createReferencing
            [OtherNode 1 (mkProps true false 2 0 1);
             OtherNode 3 (mkProps false true 0 64 3)]).
Proof.
  assert (H : Permutation
    (SummingNode.nodes (SummingNode.createMixed
                          [OtherNode 1 (mkProps true false 2 0 1)]
                          [OtherNode 3 (mkProps false true 0 64 3)]))
    (SummingNode.nodes (SummingNode.createReferencing
                          [OtherNode 1 (mkProps true false 2 0 1);
                           OtherNode 3 (mkProps false true 0 64 3)]))).
  { simpl. apply perm_swap. }
  split; [exact H|].
  exact (SummingNode_properties_order_independent _ _ H).
Defined.

(** X3.  [isReadyToProcess] of a SummingNode answers true exactly when every
    direct input has processed. *)
Theorem SummingNode_ready_iff_all_inputs_processed :
  forall (hasProcessed : Node -> bool) (s : SummingNode.t),
    SummingNode.isReadyToProcess hasProcessed s = true
    <-> forall n, In n (SummingNode.getDirectInputNodes s) -> hasProcessed n = true.
Proof.
  intros hp s. unfold SummingNode.isReadyToProcess, SummingNode.getDirectInputNodes.
  induction (SummingNode.nodes s) as [|n rest IH]; simpl.
  - split; [intros _ n []|reflexivity].
  - destruct (hp n) eqn:Hn; simpl.
    + rewrite IH. split.
      * intros H m [<-|Hm]; auto.
      * intros H m Hm. apply H. right. assumption.
    + split; [discriminate|]. intro H. specialize (H n (or_introl eq_refl)). congruence.
Qed.

(** ** SummingNode: what the latency-alignment step does to the lists *)

Lemma wrapInputs_shape : forall M todo st,
  exists wrapped,
    SummingNode.visited (SummingNode.wrapInputs M todo st)
    = SummingNode.visited st
      ++ map (fun n => if needsLatency M n then None else Some n) todo
    /\ SummingNode.ownedNodesToAdd (SummingNode.wrapInputs M todo st)
       = SummingNode.ownedNodesToAdd st ++ wrapped
    /\ Forall2 (wraps (fun n => Int.wrap32 (M - latencyOf n)))
               (filter (needsLatency M) todo) wrapped
    /\ map addressOf wrapped = seq (SummingNode.nextAddress st) (length wrapped).
Proof.
  intros M todo. induction todo as [|node rest IH]; intro st.
  - exists []. simpl. rewrite !app_nil_r. repeat split. constructor.
  - cbn [SummingNode.wrapInputs filter map].
    change (needsLatency M node) with (negb (Int.wrap32 (M - latencyOf node) =? 0)).
    fold (latencyOf node).
    destruct (Int.wrap32 (M - latencyOf node) =? 0) eqn:Hz; cbn [negb].
    + destruct (IH (SummingNode.mkLoop (SummingNode.owned st)
                      (SummingNode.visited st ++ [Some node])
                      (SummingNode.ownedNodesToAdd st) (SummingNode.nextAddress st)))
        as [wrapped [Hv [Ha [Hw Hs]]]].
      exists wrapped. simpl in *. rewrite Hv, Ha. rewrite <- app_assoc.
      repeat split; assumption.
    + destruct (SummingNode.getOwnedNode (SummingNode.owned st) (addressOf node))
        as [isOwned owned'].
      destruct (IH (SummingNode.mkLoop owned' (SummingNode.visited st ++ [None])
                      (SummingNode.ownedNodesToAdd st
                       ++ [LatencyNodeAt (SummingNode.nextAddress st) isOwned node
                             (Int.wrap32 (M - latencyOf node))])
                      (S (SummingNode.nextAddress st))))
        as [wrapped [Hv [Ha [Hw Hs]]]].
      exists (LatencyNodeAt (SummingNode.nextAddress st) isOwned node
                (Int.wrap32 (M - latencyOf node)) :: wrapped).
      simpl in *. rewrite Hv, Ha. rewrite <- !app_assoc. simpl.
      repeat split.
      * constructor; [|assumption]. exists isOwned. reflexivity.
      * f_equal. assumption.
Qed.

Lemma removeNull_keep_slots : forall (keep : Node -> bool) (l : list Node),
  SummingNode.removeNull (map (fun n => if keep n then None else Some n) l)
  = filter (fun n => negb (keep n)) l.
Proof.
  intros keep l. induction l as [|n l IH]; simpl; [reflexivity|].
  destruct (keep n); simpl; rewrite IH; reflexivity.
Qed.

Lemma createLatencyNodes_shape : forall heapTop s info,
  exists wrapped,
    SummingNode.nodes (SummingNode.createLatencyNodes heapTop s info)
    = filter (fun n => negb (needsLatency
                               (latencyNumSamples (SummingNode.getNodeProperties s)) n))
             (SummingNode.nodes s) ++ wrapped
    /\ Forall2 (wraps (fun n => Int.wrap32
                                  (latencyNumSamples (SummingNode.getNodeProperties s)
                                   - latencyOf n)))
               (filter (needsLatency (latencyNumSamples (SummingNode.getNodeProperties s)))
                       (SummingNode.nodes s)) wrapped
    /\ map addressOf wrapped = seq heapTop (length wrapped).
Proof.
  intros heapTop s info.
  rewrite createLatencyNodes_nodes.
  destruct (wrapInputs_shape (latencyNumSamples (SummingNode.getNodeProperties s))
              (SummingNode.nodes s)
              (SummingNode.mkLoop (map Some (SummingNode.ownedNodes s)) [] [] heapTop))
    as [wrapped [Hv [Ha [Hw Hs]]]].
  exists wrapped. unfold loopNodes. rewrite Hv, Ha. simpl.
  rewrite removeNull_keep_slots. repeat split; assumption.
Qed.

(** X4.  The alignment step of [prepareToPlay], for any SummingNode.  With M
    the latency the node declares before the step: the inputs for which no
    latency is to add stay at the head of the list, in their order; each of
    the others is replaced by one LatencyNode over it that adds
    [M - its latency] (as an [int]), and these new nodes follow at the end of
    the list, in the order of the inputs they wrap, at the consecutive
    addresses from [heapTop]. *)
Theorem createLatencyNodes_keeps_or_wraps_each_input :
  forall (heapTop : nat) (s : SummingNode.t) (info : PlaybackInitialisationInfo),
    let M := latencyNumSamples (SummingNode.getNodeProperties s) in
    exists wrapped,
      SummingNode.getDirectInputNodes (SummingNode.prepareToPlay heapTop s info)
      = filter (fun n => negb (needsLatency M n)) (SummingNode.nodes s) ++ wrapped
      /\ Forall2 (wraps (fun n => Int.wrap32 (M - latencyOf n)))
                 (filter (needsLatency M) (SummingNode.nodes s)) wrapped
      /\ map addressOf wrapped = seq heapTop (length wrapped).
Proof.
  intros heapTop s info M. exact (createLatencyNodes_shape heapTop s info).
Qed.

Lemma filter_partition_Permutation : forall (A : Type) (f : A -> bool) (l : list A),
  Permutation (filter (fun x => negb (f x)) l ++ filter f l) l.
Proof.
  intros A f l. induction l as [|x l IH]; simpl; [constructor|].
  destruct (f x); simpl.
  - apply Permutation_sym. apply Permutation_cons_app. apply Permutation_sym. exact IH.
  - constructor. exact IH.
Qed.

Lemma needsLatency_false_latency : forall M n,
  0 <= latencyOf n <= M -> M <= Int.INT_MAX ->
  needsLatency M n = false -> latencyOf n = M.
Proof.
  intros M n Hn HM H. unfold needsLatency in H. apply negb_false_iff in H.
  apply Z.eqb_eq in H.
  rewrite wrap32_inRange in H
    by (unfold Int.inRange, Int.INT_MIN, Int.INT_MAX in *; lia).
  lia.
Qed.

(** After the step every node of the list has the properties of the input it
    is or wraps, with the latency M. *)
Lemma aligned_properties : forall heapTop s info,
  Forall (fun n => 0 <= latencyOf n <= Int.INT_MAX) (SummingNode.nodes s) ->
  let M := latencyNumSamples (SummingNode.getNodeProperties s) in
  map Graph.getNodeProperties
      (SummingNode.nodes (SummingNode.prepareToPlay heapTop s info))
  = map (fun n => withLatency M (Graph.getNodeProperties n))
        (filter (fun n => negb (needsLatency M n)) (SummingNode.nodes s)
         ++ filter (needsLatency M) (SummingNode.nodes s)).
Proof.
  intros heapTop s info Hlat M.
  destruct (createLatencyNodes_shape heapTop s info) as [wrapped [Hn [Hw _]]].
  fold M in Hn, Hw. unfold SummingNode.prepareToPlay. rewrite Hn. rewrite !map_app. f_equal.
  - apply map_ext_in. intros n Hin. apply filter_In in Hin. destruct Hin as [Hin Hk].
    apply negb_true_iff in Hk.
    assert (HnM : latencyOf n = M).
    { apply needsLatency_false_latency; [| |assumption].
      - rewrite Forall_forall in Hlat. split; [apply Hlat; assumption|].
        apply summing_latency_upper; assumption.
      - destruct (summing_latency_attained s) as [H0|[m [Hm Hm']]].
        + unfold M. rewrite H0. unfold Int.INT_MAX. lia.
        + unfold M. rewrite <- Hm'. rewrite Forall_forall in Hlat. apply Hlat; assumption. }
    unfold withLatency. rewrite <- HnM. unfold latencyOf.
    destruct (Graph.getNodeProperties n); reflexivity.
  - assert (Hsub : Forall (fun n => 0 <= latencyOf n <= M /\ M <= Int.INT_MAX)
                     (filter (needsLatency M) (SummingNode.nodes s))).
    { apply Forall_forall. intros n Hin. apply filter_In in Hin. destruct Hin as [Hin _].
      rewrite Forall_forall in Hlat. split; [split; [apply Hlat; assumption|]|].
      - apply summing_latency_upper; assumption.
      - destruct (summing_latency_attained s) as [H0|[m [Hm Hm']]].
        + unfold M. rewrite H0. unfold Int.INT_MAX. lia.
        + unfold M. rewrite <- Hm'. apply Hlat; assumption. }
    clear Hn. induction Hw as [|n w rest wrapped' [owns Hw0] Hrest IH]; [reflexivity|].
    inversion Hsub as [|? ? [Hn HM] Hsub']; subst. simpl. f_equal; [|apply IH; assumption].
    rewrite Hw0. simpl. unfold latencyNodeProperties, withLatency. f_equal.
    fold (latencyOf n).
    rewrite (wrap32_inRange (M - latencyOf n))
      by (unfold Int.inRange, Int.INT_MIN, Int.INT_MAX in *; lia).
    replace (latencyOf n + (M - latencyOf n)) with M by lia.
    apply wrap32_inRange. unfold Int.inRange, Int.INT_MIN, Int.INT_MAX in *.
    pose proof (summing_latency_nonneg s). fold M in H. lia.
Qed.

Lemma existsb_map : forall (A B : Type) (g : B -> bool) (f : A -> B) (l : list A),
  existsb g (map f l) = existsb (fun x => g (f x)) l.
Proof.
  intros A B g f l. induction l as [|x l IH]; simpl; [|rewrite IH]; reflexivity.
Qed.

Lemma maxOrZero_constant : forall (A : Type) (l : list A) (M : Z),
  0 <= M -> l <> [] -> maxOrZero (map (fun _ => M) l) = M.
Proof.
  intros A l M HM Hl. unfold maxOrZero. induction l as [|x l IH]; [congruence|].
  simpl. destruct l as [|y l]; simpl in *; [lia|].
  rewrite IH by discriminate. lia.
Qed.

Lemma summing_properties_withLatency : forall (l : list Node),
  let M := latencyNumSamples (summingNodeProperties (map Graph.getNodeProperties l)) in
  summingNodeProperties (map (fun n => withLatency M (Graph.getNodeProperties n)) l)
  = summingNodeProperties (map Graph.getNodeProperties l).
Proof.
  intros l M.
  assert (HM : M = maxOrZero (map latencyNumSamples (map Graph.getNodeProperties l))).
  { unfold M. rewrite summingNodeProperties_eq. reflexivity. }
  rewrite !summingNodeProperties_eq. f_equal.
  - rewrite !existsb_map. reflexivity.
  - rewrite !existsb_map. reflexivity.
  - rewrite !map_map. reflexivity.
  - rewrite <- HM. rewrite map_map. simpl.
    destruct l as [|n l]; [exact HM|].
    apply maxOrZero_constant; [|discriminate].
    rewrite HM. apply maxOrZero_nonneg.
Qed.

Lemma createLatencyNodes_keeps_properties : forall heapTop s info,
  Forall (fun n => 0 <= latencyOf n <= Int.INT_MAX) (SummingNode.nodes s) ->
  SummingNode.getNodeProperties (SummingNode.prepareToPlay heapTop s info)
  = SummingNode.getNodeProperties s.
Proof.
  intros heapTop s info Hlat. unfold SummingNode.getNodeProperties at 1.
  rewrite (aligned_properties heapTop s info Hlat).
  rewrite (summingNodeProperties_Permutation _ _
             (Permutation_map _ (filter_partition_Permutation _ _ (SummingNode.nodes s)))).
  apply summing_properties_withLatency.
Qed.

(** X5.  The alignment step leaves what the SummingNode itself declares
    unchanged: [getNodeProperties] gives the same record after
    [prepareToPlay] as before it (input latencies in 0 .. INT_MAX). *)
Theorem prepareToPlay_keeps_declared_properties :
  forall (heapTop : nat) (s : SummingNode.t) (info : PlaybackInitialisationInfo),
    Forall (fun n => 0 <= latencyOf n <= Int.INT_MAX) (SummingNode.nodes s) ->
    SummingNode.getNodeProperties (SummingNode.prepareToPlay heapTop s info)
    = SummingNode.getNodeProperties s.
Proof.
  intros heapTop s info Hlat. apply createLatencyNodes_keeps_properties. assumption.
Qed.

Lemma prepareToPlay_keeps_declared_properties_witness :
  Forall (fun n => 0 <= latencyOf n <= Int.INT_MAX) (SummingNode.nodes alignmentExample)
  /\ SummingNode.getNodeProperties
       (SummingNode.prepareToPlay 10 alignmentExample (mkInfo (44100 # 1) 512))
     = SummingNode.getNodeProperties alignmentExample.
Proof.
  assert (H : Forall (fun n => 0 <= latencyOf n <= Int.INT_MAX)
                (SummingNode.nodes alignmentExample)).
  { repeat constructor; vm_compute; discriminate. }
  split; [exact H|].
  exact (prepareToPlay_keeps_declared_properties 10 alignmentExample
           (mkInfo (44100 # 1) 512) H).
Defined.

Lemma wrapInputs_nothing_to_add : forall M todo st,
  Forall (fun n => needsLatency M n = false) todo ->
  SummingNode.wrapInputs M todo st
  = SummingNode.mkLoop (SummingNode.owned st)
      (SummingNode.visited st ++ map Some todo)
      (SummingNode.ownedNodesToAdd st) (SummingNode.nextAddress st).
Proof.
  intros M todo. induction todo as [|n rest IH]; intros st H.
  - simpl. rewrite app_nil_r. destruct st; reflexivity.
  - inversion H as [|? ? Hn Hrest]; subst.
    unfold needsLatency in Hn. apply negb_false_iff in Hn.
    cbn [SummingNode.wrapInputs]. fold (latencyOf n). rewrite Hn.
    rewrite (IH _ Hrest). simpl. rewrite <- app_assoc. reflexivity.
Qed.

(** X6.  The alignment step is idempotent: run once more (with any next
    address) on a SummingNode that it has aligned, it changes neither the
    input list nor the list of owned nodes (input latencies in 0 .. INT_MAX). *)
Theorem prepareToPlay_twice_changes_nothing :
  forall (heapTop heapTop' : nat) (s : SummingNode.t)
         (info info' : PlaybackInitialisationInfo),
    Forall (fun n => 0 <= latencyOf n <= Int.INT_MAX) (SummingNode.nodes s) ->
    SummingNode.prepareToPlay heapTop'
      (SummingNode.prepareToPlay heapTop s info) info'
    = SummingNode.prepareToPlay heapTop s info.
Proof.
  intros heapTop heapTop' s info info' Hlat.
  pose proof (aligned_properties heapTop s info Hlat) as Hp. cbv zeta in Hp.
  pose proof (createLatencyNodes_keeps_properties heapTop s info Hlat) as Hprops0.
  remember (SummingNode.prepareToPlay heapTop s info) as s' eqn:Hs'. clear Hs'.
  assert (Hprops : SummingNode.getNodeProperties s' = SummingNode.getNodeProperties s)
    by exact Hprops0.
  set (M := latencyNumSamples (SummingNode.getNodeProperties s)).
  assert (Hall : Forall (fun n => needsLatency M n = false) (SummingNode.nodes s')).
  { apply Forall_forall. intros n Hin.
    assert (Hn : latencyOf n = M).
    { fold M in Hp.
      apply (in_map Graph.getNodeProperties) in Hin. rewrite Hp in Hin.
      apply in_map_iff in Hin. destruct Hin as [m [Hm _]].
      unfold latencyOf. rewrite <- Hm. reflexivity. }
    unfold needsLatency. rewrite Hn, Z.sub_diag. reflexivity. }
  unfold SummingNode.prepareToPlay at 1. unfold SummingNode.createLatencyNodes.
  rewrite Hprops. fold M. rewrite (wrapInputs_nothing_to_add M _ _ Hall). simpl.
  rewrite !app_nil_r. rewrite !removeNull_map_Some. destruct s'; reflexivity.
Qed.

Lemma prepareToPlay_twice_changes_nothing_witness :
  Forall (fun n => 0 <= latencyOf n <= Int.INT_MAX) (SummingNode.nodes alignmentExample)
  /\ SummingNode.prepareToPlay 20
       (SummingNode.prepareToPlay 10 alignmentExample (mkInfo (44100 # 1) 512))
       (mkInfo (48000 # 1) 64)
     = SummingNode.prepareToPlay 10 alignmentExample (mkInfo (44100 # 1) 512).
Proof.
  assert (H : Forall (fun n => 0 <= latencyOf n <= Int.INT_MAX)
                (SummingNode.nodes alignmentExample)).
  { repeat constructor; vm_compute; discriminate. }
  split; [exact H|].
  exact (prepareToPlay_twice_changes_nothing 10 20 alignmentExample
           (mkInfo (44100 # 1) 512) (mkInfo (48000 # 1) 64) H).
Defined.

(** ** SummingNode: ownership through the alignment step *)

Lemma option_eq_dec_nat : forall x y : option nat, {x = y} + {x <> y}.
Proof. decide equality. apply Nat.eq_dec. Defined.

Lemma getOwnedNode_first_owner : forall pre a post,
  ~ In (Some a) pre ->
  SummingNode.getOwnedNode (pre ++ Some a :: post) a = (true, pre ++ None :: post).
Proof.
  induction pre as [|o pre IH]; intros a post Hnot; simpl.
  - rewrite Nat.eqb_refl. reflexivity.
  - assert (Hpre : ~ In (Some a) pre) by (intro H; apply Hnot; right; assumption).
    destruct o as [b|].
    + destruct (Nat.eqb_spec b a) as [->|Hne].
      * exfalso. apply Hnot. left. reflexivity.
      * rewrite (IH a post Hpre). reflexivity.
    + rewrite (IH a post Hpre). reflexivity.
Qed.

Lemma getOwnedNode_not_owner : forall owned a,
  ~ In (Some a) owned -> SummingNode.getOwnedNode owned a = (false, owned).
Proof.
  induction owned as [|o owned IH]; intros a Hnot; simpl; [reflexivity|].
  assert (Hrest : ~ In (Some a) owned) by (intro H; apply Hnot; right; assumption).
  rewrite (IH a Hrest).
  destruct o as [b|]; [|reflexivity].
  destruct (Nat.eqb_spec b a) as [->|Hne]; [|reflexivity].
  exfalso. apply Hnot. left. reflexivity.
Qed.

(** X7.  The lambda [getOwnedNode] of the alignment step.  When no slot of
    [ownedNodes] holds the address looked for, it answers that there is no
    owner and leaves the vector as it is.  Otherwise it is the first slot
    with that address, and only that one, that gives the node up and is left
    null; later slots with the address keep it.  The vector never changes
    its length. *)
Theorem getOwnedNode_takes_first_owner :
  forall (owned : list (option nat)) (nodeToFind : nat),
    length (snd (SummingNode.getOwnedNode owned nodeToFind)) = length owned
    /\ (~ In (Some nodeToFind) owned ->
        SummingNode.getOwnedNode owned nodeToFind = (false, owned))
    /\ (In (Some nodeToFind) owned ->
        exists pre post,
          owned = pre ++ Some nodeToFind :: post
          /\ ~ In (Some nodeToFind) pre
          /\ SummingNode.getOwnedNode owned nodeToFind = (true, pre ++ None :: post)).
Proof.
  intros owned a.
  assert (Hdec : In (Some a) owned ->
                 exists pre post, owned = pre ++ Some a :: post /\ ~ In (Some a) pre).
  { induction owned as [|o owned IH]; intro Hin; [contradiction|].
    destruct (option_eq_dec_nat o (Some a)) as [->|Hne].
    - exists [], owned. split; [reflexivity|intros []].
    - destruct Hin as [Heq|Hin]; [contradiction|].
      destruct (IH Hin) as [pre [post [-> Hpre]]].
      exists (o :: pre), post. split; [reflexivity|].
      intros [H|H]; [contradiction|apply Hpre; assumption]. }
  assert (Hin_dec : In (Some a) owned \/ ~ In (Some a) owned).
  { destruct (in_dec option_eq_dec_nat (Some a) owned); [left|right]; assumption. }
  split; [|split].
  - destruct Hin_dec as [Hin|Hnot].
    + destruct (Hdec Hin) as [pre [post [-> Hpre]]].
      rewrite getOwnedNode_first_owner by assumption. simpl.
      rewrite !length_app. reflexivity.
    + rewrite getOwnedNode_not_owner by assumption. reflexivity.
  - apply getOwnedNode_not_owner.
  - intro Hin. destruct (Hdec Hin) as [pre [post [-> Hpre]]].
    exists pre, post. split; [reflexivity|]. split; [assumption|].
    apply getOwnedNode_first_owner. assumption.
Qed.

Lemma removeNull_option_map : forall (A B : Type) (f : A -> B) (l : list (option A)),
  SummingNode.removeNull (map (option_map f) l) = map f (SummingNode.removeNull l).
Proof.
  intros A B f l. induction l as [|[x|] l IH]; simpl; rewrite ?IH; reflexivity.
Qed.

(** The loop of the step on a SummingNode that owns all its inputs, each at
    an address of its own: the slots of [ownedNodes] stay those of the input
    list, address for node and null for null, and every new LatencyNode owns
    its input. *)
Lemma wrapInputs_owning : forall M todo done st,
  NoDup (map addressOf (done ++ todo)) ->
  map (option_map addressOf) (SummingNode.visited st)
  = map (fun n => if needsLatency M n then None else Some (addressOf n)) done ->
  SummingNode.owned st
  = map (option_map addressOf) (SummingNode.visited st)
    ++ map (fun n => Some (addressOf n)) todo ->
  Forall (fun w => ownsItsInput w = true) (SummingNode.ownedNodesToAdd st) ->
  SummingNode.owned (SummingNode.wrapInputs M todo st)
  = map (option_map addressOf) (SummingNode.visited (SummingNode.wrapInputs M todo st))
  /\ Forall (fun w => ownsItsInput w = true)
            (SummingNode.ownedNodesToAdd (SummingNode.wrapInputs M todo st)).
Proof.
  intros M todo. induction todo as [|node rest IH]; intros done st Hnd Hvis Hown Hadd.
  - simpl in *. rewrite app_nil_r in Hown. split; assumption.
  - cbn [SummingNode.wrapInputs]. fold (latencyOf node).
    assert (Hnd' : NoDup (map addressOf ((done ++ [node]) ++ rest)))
      by (rewrite <- app_assoc; exact Hnd).
    destruct (Int.wrap32 (M - latencyOf node) =? 0) eqn:Hz.
    + apply (IH (done ++ [node])); simpl; try assumption.
      * rewrite !map_app, Hvis. simpl. unfold needsLatency. rewrite Hz. reflexivity.
      * rewrite Hown. rewrite map_app. simpl. rewrite <- app_assoc. reflexivity.
    + assert (Hfresh : ~ In (Some (addressOf node))
                           (map (option_map addressOf) (SummingNode.visited st))).
      { rewrite Hvis. intro Hin. apply in_map_iff in Hin. destruct Hin as [v [Hv Hvin]].
        destruct (needsLatency M v); [discriminate|]. inversion Hv as [Heq].
        rewrite map_app in Hnd. simpl in Hnd. apply NoDup_remove_2 in Hnd.
        apply Hnd. apply in_or_app. left. rewrite <- Heq. apply in_map. assumption. }
      rewrite Hown. simpl map.
      rewrite (getOwnedNode_first_owner _ _ _ Hfresh).
      apply (IH (done ++ [node])); simpl; try assumption.
      * rewrite !map_app, Hvis. simpl. unfold needsLatency. rewrite Hz. reflexivity.
      * rewrite map_app. simpl. rewrite <- app_assoc. reflexivity.
      * apply Forall_app. split; [assumption|]. constructor; [reflexivity|constructor].
Qed.

Lemma NoDup_map_filter : forall (A B : Type) (f : A -> B) (p : A -> bool) (l : list A),
  NoDup (map f l) -> NoDup (map f (filter p l)).
Proof.
  intros A B f p l. induction l as [|x l IH]; intro H; simpl; [constructor|].
  inversion H as [|? ? Hx Hl]; subst.
  destruct (p x); simpl; [|apply IH; assumption].
  constructor; [|apply IH; assumption].
  intro Hin. apply Hx. apply in_map_iff in Hin. destruct Hin as [y [Hy Hyin]].
  apply filter_In in Hyin. rewrite <- Hy. apply in_map. tauto.
Qed.

(** X8.  A SummingNode that owns all its inputs, each at an address of its
    own, owns after the alignment step exactly the nodes of its input list:
    [ownedNodes] holds their addresses, in the order of the list.  Each
    LatencyNode it has put in owns the input it wraps (so that ownership went
    from the SummingNode to the LatencyNode, and the LatencyNode to the
    SummingNode).  When the old addresses all lie below [heapTop], no address
    is owned twice. *)
Theorem createLatencyNodes_owning_inputs :
  forall (heapTop : nat) (inputs : list Node) (info : PlaybackInitialisationInfo),
    NoDup (map addressOf inputs) ->
    let s' := SummingNode.prepareToPlay heapTop (SummingNode.createOwning inputs) info in
    SummingNode.ownedNodes s' = map addressOf (SummingNode.nodes s')
    /\ (forall w, In w (SummingNode.nodes s') -> ~ In w inputs -> ownsItsInput w = true)
    /\ (Forall (fun n => (addressOf n < heapTop)%nat) inputs ->
        NoDup (SummingNode.ownedNodes s')).
Proof.
  intros heapTop inputs info Hnd s'.
  set (M := latencyNumSamples (SummingNode.getNodeProperties (SummingNode.createOwning inputs))).
  set (st0 := SummingNode.mkLoop (map Some (map addressOf inputs)) [] [] heapTop).
  destruct (wrapInputs_owning M inputs [] st0 Hnd eq_refl
              (map_map addressOf Some inputs) (Forall_nil _)) as [Hown Hadd].
  destruct (wrapInputs_shape M inputs st0) as [wrapped [Hv [Ha [Hw Hs]]]].
  simpl in Hv, Ha, Hs.
  assert (Hnodes : SummingNode.nodes s'
                   = filter (fun n => negb (needsLatency M n)) inputs ++ wrapped).
  { subst s'. unfold SummingNode.prepareToPlay. rewrite createLatencyNodes_nodes.
    change (loopNodes (SummingNode.wrapInputs M inputs st0)
            = filter (fun n => negb (needsLatency M n)) inputs ++ wrapped).
    unfold loopNodes. rewrite Hv, Ha.
    rewrite removeNull_keep_slots. reflexivity. }
  assert (Howned : SummingNode.ownedNodes s' = map addressOf (SummingNode.nodes s')).
  { rewrite Hnodes. subst s'.
    change (SummingNode.removeNull
              (SummingNode.owned (SummingNode.wrapInputs M inputs st0)
               ++ map (fun n => Some (addressOf n))
                      (SummingNode.ownedNodesToAdd (SummingNode.wrapInputs M inputs st0)))
            = map addressOf (filter (fun n => negb (needsLatency M n)) inputs ++ wrapped)).
    rewrite Hown, Hv, Ha.
    rewrite removeNull_app, removeNull_option_map, removeNull_keep_slots.
    rewrite <- (map_map addressOf Some wrapped). rewrite removeNull_map_Some.
    rewrite map_app. reflexivity. }
  split; [exact Howned|]. split.
  - intros w Hin Hnew. rewrite Hnodes in Hin. apply in_app_or in Hin.
    destruct Hin as [Hin|Hin].
    + apply filter_In in Hin. tauto.
    + rewrite Ha in Hadd. rewrite Forall_forall in Hadd. apply Hadd. assumption.
  - intro Hbelow. rewrite Howned, Hnodes, map_app, Hs.
    apply NoDup_app.
    + apply NoDup_map_filter. assumption.
    + apply seq_NoDup.
    + intros a Ha1 Ha2. apply in_seq in Ha2.
      apply in_map_iff in Ha1. destruct Ha1 as [n [Hn Hnin]].
      apply filter_In in Hnin. rewrite Forall_forall in Hbelow.
      specialize (Hbelow n (proj1 Hnin)). lia.
Qed.

Lemma createLatencyNodes_owning_inputs_witness :
  NoDup (map addressOf owningExample)
  /\ SummingNode.ownedNodes
       (SummingNode.prepareToPlay 10 (SummingNode.createOwning owningExample)
          (mkInfo (44100 # 1) 512))
     = map addressOf
         (SummingNode.nodes
            (SummingNode.prepareToPlay 10 (SummingNode.createOwning owningExample)
               (mkInfo (44100 # 1) 512)))
  /\ SummingNode.ownedNodes
       (SummingNode.prepareToPlay 10 (SummingNode.createOwning owningExample)
          (mkInfo (44100 # 1) 512))
     = [2%nat; 10%nat].
Proof.
  assert (H : NoDup (map addressOf owningExample)).
  { simpl. constructor; [simpl; intros [H|[]]; discriminate|].
    constructor; [intros []|constructor]. }
  split; [exact H|]. split; [|reflexivity].
  exact (proj1 (createLatencyNodes_owning_inputs 10 owningExample
                  (mkInfo (44100 # 1) 512) H)).
Defined.

Lemma wrapInputs_referencing : forall M todo st,
  SummingNode.owned st = [] ->
  Forall (fun w => ownsItsInput w = false) (SummingNode.ownedNodesToAdd st) ->
  SummingNode.owned (SummingNode.wrapInputs M todo st) = []
  /\ Forall (fun w => ownsItsInput w = false)
            (SummingNode.ownedNodesToAdd (SummingNode.wrapInputs M todo st)).
Proof.
  intros M todo. induction todo as [|node rest IH]; intros st Hown Hadd.
  - simpl. split; assumption.
  - cbn [SummingNode.wrapInputs].
    destruct (Int.wrap32 _ =? 0).
    + apply IH; assumption.
    + rewrite Hown. simpl. apply IH; simpl; [reflexivity|].
      apply Forall_app. split; [assumption|]. constructor; [reflexivity|constructor].
Qed.

(** X9.  A SummingNode that only references its inputs owns, after the
    alignment step, the LatencyNodes that the step has put in and nothing
    else: [ownedNodes] holds the consecutive addresses from [heapTop], one
    for each input that needed latency, and none of the new LatencyNodes owns
    the input it wraps. *)
Theorem createLatencyNodes_referenced_inputs :
  forall (heapTop : nat) (inputs : list Node) (info : PlaybackInitialisationInfo),
    let s := SummingNode.createReferencing inputs in
    let M := latencyNumSamples (SummingNode.getNodeProperties s) in
    let s' := SummingNode.prepareToPlay heapTop s info in
    SummingNode.ownedNodes s'
    = seq heapTop (length (filter (needsLatency M) inputs))
    /\ exists wrapped,
         SummingNode.nodes s' = filter (fun n => negb (needsLatency M n)) inputs ++ wrapped
         /\ SummingNode.ownedNodes s' = map addressOf wrapped
         /\ Forall (fun w => ownsItsInput w = false) wrapped.
Proof.
  intros heapTop inputs info s M s'.
  set (st0 := SummingNode.mkLoop [] [] [] heapTop).
  destruct (wrapInputs_referencing M inputs st0 eq_refl (Forall_nil _)) as [Hown Hadd].
  destruct (wrapInputs_shape M inputs st0) as [wrapped [Hv [Ha [Hw Hs]]]].
  simpl in Hv, Ha, Hs. rewrite Ha in Hadd.
  assert (Howned : SummingNode.ownedNodes s' = map addressOf wrapped).
  { subst s'.
    change (SummingNode.removeNull
              (SummingNode.owned (SummingNode.wrapInputs M inputs st0)
               ++ map (fun n => Some (addressOf n))
                      (SummingNode.ownedNodesToAdd (SummingNode.wrapInputs M inputs st0)))
            = map addressOf wrapped).
    rewrite Hown, Ha. simpl.
    rewrite <- (map_map addressOf Some wrapped). apply removeNull_map_Some. }
  split.
  - rewrite Howned, Hs. f_equal. symmetry. eapply Forall2_length. exact Hw.
  - exists wrapped. split; [|split; assumption].
    subst s'. unfold SummingNode.prepareToPlay. rewrite createLatencyNodes_nodes.
    change (loopNodes (SummingNode.wrapInputs M inputs st0)
            = filter (fun n => negb (needsLatency M n)) inputs ++ wrapped).
    unfold loopNodes. rewrite Hv, Ha. rewrite removeNull_keep_slots. reflexivity.
Qed.

(** ** SummingNode: process *)

Lemma addBlock_nil_r : forall d, addBlock d [] = d.
Proof. destruct d; reflexivity. Qed.

Lemma addFrame_nil_r : forall d, addFrame d [] = d.
Proof. destruct d; reflexivity. Qed.

Lemma process_fold : forall gpo mergeFrom numChannels nodes buf,
  audio (fold_left (SummingNode.addInput gpo mergeFrom numChannels) nodes buf)
  = fold_left addBlock (map (channelsAdded gpo numChannels) nodes) (audio buf)
  /\ midi (fold_left (SummingNode.addInput gpo mergeFrom numChannels) nodes buf)
     = fold_left mergeFrom (map (fun n => midi (gpo n)) nodes) (midi buf).
Proof.
  intros gpo mergeFrom numChannels nodes.
  induction nodes as [|n rest IH]; intro buf; simpl; [split; reflexivity|].
  destruct (IH (SummingNode.addInput gpo mergeFrom numChannels buf n)) as [Ha Hm].
  rewrite Ha, Hm. unfold SummingNode.addInput, channelsAdded,
    SummingNode.addSubsetChannels. simpl.
  destruct (0 <? Nat.min _ _)%nat; [split; reflexivity|].
  rewrite addBlock_nil_r. split; reflexivity.
Qed.

Lemma frameEq_refl : forall f : Frame, Forall2 Qeq f f.
Proof. induction f; constructor; [reflexivity|assumption]. Qed.

Lemma frameEq_trans : forall f g h : Frame,
  Forall2 Qeq f g -> Forall2 Qeq g h -> Forall2 Qeq f h.
Proof.
  intros f g h H. revert h. induction H; intros h H'; inversion H'; subst; constructor.
  - etransitivity; eassumption.
  - apply IHForall2. assumption.
Qed.

Lemma blockEq_refl : forall b, blockEq b b.
Proof. induction b; constructor; [apply frameEq_refl|assumption]. Qed.

Lemma blockEq_trans : forall a b c, blockEq a b -> blockEq b c -> blockEq a c.
Proof.
  intros a b c H. revert c. induction H; intros c H'; inversion H'; subst; constructor.
  - eapply frameEq_trans; eassumption.
  - apply IHForall2. assumption.
Qed.

Lemma fold_merge_Permutation : forall (mergeFrom : MidiMessageArray -> MidiMessageArray -> MidiMessageArray),
  (forall dst src, Permutation (mergeFrom dst src) (dst ++ src)) ->
  forall l d, Permutation (fold_left mergeFrom l d) (d ++ concat l).
Proof.
  intros mergeFrom Hm l. induction l as [|x l IH]; intro d; simpl.
  - rewrite app_nil_r. apply Permutation_refl.
  - eapply Permutation_trans; [apply IH|].
    rewrite app_assoc. apply Permutation_app_tail. apply Hm.
Qed.

(** X10.  [SummingNode::process] loses and invents no MIDI message: when
    [mergeFrom] gives a permutation of the two arrays it is given, the
    destination array after the call is a permutation of what it held before
    together with the MIDI output of every input. *)
Theorem SummingNode_process_keeps_every_midi_message :
  forall (getProcessedOutput : Node -> AudioAndMidiBuffer)
         (mergeFrom : MidiMessageArray -> MidiMessageArray -> MidiMessageArray)
         (s : SummingNode.t) (pc : ProcessContext),
    (forall dst src, Permutation (mergeFrom dst src) (dst ++ src)) ->
    Permutation
      (midi (SummingNode.process getProcessedOutput mergeFrom s pc))
      (midi (buffers pc)
       ++ concat (map (fun n => midi (getProcessedOutput n)) (SummingNode.nodes s))).
Proof.
  intros gpo mergeFrom s pc Hm. unfold SummingNode.process.
  rewrite (proj2 (process_fold gpo mergeFrom _ _ _)).
  apply fold_merge_Permutation. assumption.
Qed.

Lemma SummingNode_process_keeps_every_midi_message_witness :
  (forall dst src, Permutation (mergeAppend dst src) (dst ++ src))
  /\ Permutation
       (midi (SummingNode.process summingExampleOutput mergeAppend summingExample
                summingExampleContext))
       ([] ++ [mkMidiMessage 0 1; mkMidiMessage 0 2]).
Proof.
  assert (H : forall dst src, Permutation (mergeAppend dst src) (dst ++ src))
    by (intros; apply Permutation_refl).
  split; [exact H|].
  exact (SummingNode_process_keeps_every_midi_message summingExampleOutput mergeAppend
           summingExample summingExampleContext H).
Defined.

Lemma addBlock_empty_frames : forall d b, hasWidth 0 b -> addBlock d b = d.
Proof.
  intros d b H. revert d. induction H as [|fr b Hfr Hb IH]; intro d.
  - apply addBlock_nil_r.
  - destruct d as [|x d]; simpl; [reflexivity|]. rewrite IH.
    destruct fr; [|discriminate]. rewrite addFrame_nil_r. reflexivity.
Qed.

Lemma firstn_width : forall c b, hasWidth c b -> map (firstn c) b = b.
Proof.
  intros c b H. induction H as [|fr b Hfr Hb IH]; simpl; [reflexivity|].
  rewrite IH. rewrite <- Hfr. rewrite firstn_all. reflexivity.
Qed.

(** Into a destination of the shape of [b], an input whose output is [b] adds
    the whole of [b]. *)
Lemma channelsAdded_whole : forall gpo c b node d,
  hasWidth c b -> audio (gpo node) = b ->
  addBlock d (channelsAdded gpo (getNumChannels (silence c (length b))) node)
  = addBlock d b.
Proof.
  intros gpo c b node d Hw Hb. unfold channelsAdded. rewrite Hb.
  destruct b as [|fr rest]; [reflexivity|].
  assert (Hnc : getNumChannels (silence c (length (fr :: rest))) = c)
    by (simpl; unfold silentFrame; apply repeat_length).
  assert (Hnb : getNumChannels (fr :: rest) = c)
    by (simpl; inversion Hw; assumption).
  rewrite Hnc, Hnb, Nat.min_id.
  destruct c as [|c].
  - change (0 <? 0)%nat with false. cbv iota.
    rewrite addBlock_nil_r. symmetry. apply addBlock_empty_frames. assumption.
  - change (0 <? S c)%nat with true. cbv iota.
    rewrite firstn_width by assumption. reflexivity.
Qed.

Lemma addFrame_scaled : forall (k : Q) (fr d : Frame),
  Forall2 Qeq d (map (Qmult k) fr) ->
  Forall2 Qeq (addFrame d fr) (map (Qmult (k + 1)) fr).
Proof.
  intros k fr. induction fr as [|x fr IH]; intros d H; inversion H; subst; simpl.
  - constructor.
  - constructor; [|apply IH; assumption].
    match goal with Hx : (_ == k * x)%Q |- _ => rewrite Hx end. ring.
Qed.

Lemma addBlock_scaled : forall (k : Q) (b d : AudioBlock),
  blockEq d (scaleBlock k b) -> blockEq (addBlock d b) (scaleBlock (k + 1) b).
Proof.
  intros k b. induction b as [|fr b IH]; intros d H; inversion H; subst; simpl.
  - constructor.
  - constructor; [apply addFrame_scaled; assumption|apply IH; assumption].
Qed.

Lemma scaleBlock_proper : forall k k' b, (k == k')%Q -> blockEq (scaleBlock k b) (scaleBlock k' b).
Proof.
  intros k k' b Hk. induction b as [|fr b IH]; simpl; constructor; [|assumption].
  induction fr as [|x fr IHf]; simpl; constructor; [rewrite Hk; reflexivity|assumption].
Qed.

Lemma silence_scaled : forall c b, hasWidth c b -> blockEq (silence c (length b)) (scaleBlock 0 b).
Proof.
  intros c b H. induction H as [|fr b Hfr Hb IH]; simpl; constructor; [|exact IH].
  rewrite <- Hfr. clear. induction fr as [|x fr IHf]; simpl; constructor; [ring|exact IHf].
Qed.

Lemma fold_same_block : forall (b : AudioBlock) (n : nat) (k : Q) (d : AudioBlock),
  blockEq d (scaleBlock k b) ->
  blockEq (fold_left addBlock (repeat b n) d) (scaleBlock (k + inject_Z (Z.of_nat n)) b).
Proof.
  intros b n. induction n as [|n IH]; intros k d H.
  - simpl. eapply blockEq_trans; [exact H|]. apply scaleBlock_proper. simpl. ring.
  - simpl repeat. simpl fold_left.
    eapply blockEq_trans; [apply (IH (k + 1)%Q); apply addBlock_scaled; assumption|].
    apply scaleBlock_proper. rewrite Nat2Z.inj_succ. unfold Z.succ.
    rewrite inject_Z_plus. simpl. ring.
Qed.

(** X12.  Summation identity.  When every input of a SummingNode has put out
    the same block [b] and the destination is silent and of the shape of
    [b], [process] leaves [k] times [b] in the destination, [k] being the
    number of inputs: each sample is the input's sample times [k], as a
    number. *)
Theorem SummingNode_process_sums_equal_inputs :
  forall (getProcessedOutput : Node -> AudioAndMidiBuffer)
         (mergeFrom : MidiMessageArray -> MidiMessageArray -> MidiMessageArray)
         (s : SummingNode.t) (pc : ProcessContext) (c : nat) (b : AudioBlock),
    hasWidth c b ->
    (forall n, In n (SummingNode.nodes s) -> audio (getProcessedOutput n) = b) ->
    audio (buffers pc) = silence c (length b) ->
    blockEq (audio (SummingNode.process getProcessedOutput mergeFrom s pc))
            (scaleBlock (inject_Z (Z.of_nat (length (SummingNode.nodes s)))) b).
Proof.
  intros gpo mergeFrom s pc c b Hw Hall Hdest. unfold SummingNode.process.
  rewrite (proj1 (process_fold gpo mergeFrom _ _ _)). rewrite Hdest.
  assert (Hfold : forall nodes d,
             (forall n, In n nodes -> audio (gpo n) = b) ->
             fold_left addBlock
               (map (channelsAdded gpo (getNumChannels (silence c (length b)))) nodes) d
             = fold_left addBlock (repeat b (length nodes)) d).
  { induction nodes as [|n rest IH]; intros d Hn; simpl; [reflexivity|].
    rewrite (channelsAdded_whole gpo c b n d Hw (Hn n (or_introl eq_refl))).
    apply IH. intros m Hm. apply Hn. right. assumption. }
  rewrite (Hfold _ _ Hall).
  eapply blockEq_trans; [apply (fold_same_block b _ 0); apply silence_scaled; assumption|].
  apply scaleBlock_proper. ring.
Qed.

Lemma SummingNode_process_sums_equal_inputs_witness :
  hasWidth 2 [[1 # 4; 1 # 2]; [3 # 4; 1%Q]]
  /\ (forall n, In n (SummingNode.nodes summingExample) ->
                audio (sameOutput n) = [[1 # 4; 1 # 2]; [3 # 4; 1%Q]])
  /\ blockEq (audio (SummingNode.process sameOutput mergeAppend summingExample
                       (mkContext (mkRange 0 2) (mkRange 0 2)
                                  (mkBuffers (silence 2 2) []))))
             (scaleBlock (inject_Z (Z.of_nat 2)) [[1 # 4; 1 # 2]; [3 # 4; 1%Q]]).
Proof.
  assert (H1 : hasWidth 2 [[1 # 4; 1 # 2]; [3 # 4; 1%Q]]) by (repeat constructor).
  assert (H2 : forall n, In n (SummingNode.nodes summingExample) ->
                         audio (sameOutput n) = [[1 # 4; 1 # 2]; [3 # 4; 1%Q]])
    by (intros; reflexivity).
  split; [exact H1|]. split; [exact H2|].
  exact (SummingNode_process_sums_equal_inputs sameOutput mergeAppend summingExample
           (mkContext (mkRange 0 2) (mkRange 0 2) (mkBuffers (silence 2 2) []))
           2 [[1 # 4; 1 # 2]; [3 # 4; 1%Q]] H1 H2 eq_refl).
Defined.

(** ** SummingNode: the audio sum in [float] *)



Lemma addFrameF_nil_r : forall d, SummingNodeAudio.addFrame d [] = d.
Proof. destruct d; reflexivity. Qed.







(** X24.  With three inputs the audio sum in [float] depends on the order
    of the inputs: 2^24, 1 and -2^24 summed into a cleared destination in
    this order leave 0 (2^24 + 1 rounds to 2^24), and summed in the order
    2^24, -2^24, 1 leave 1. *)
Theorem SummingNode_process_three_inputs_order_dependent :
  Permutation [floatExampleNode 1; floatExampleNode 2; floatExampleNode 3]
              [floatExampleNode 1; floatExampleNode 3; floatExampleNode 2]
  /\ isCleared [[Float.zero]]
  /\ SummingNodeAudio.process floatExampleAudio
       (SummingNode.createReferencing
          [floatExampleNode 1; floatExampleNode 2; floatExampleNode 3]) [[Float.zero]]
     = [[Float.ofInt 0]]
  /\ SummingNodeAudio.process floatExampleAudio
       (SummingNode.createReferencing
          [floatExampleNode 1; floatExampleNode 3; floatExampleNode 2]) [[Float.zero]]
     = [[Float.ofInt 1]]
  /\ Float.ofInt 0 <> Float.ofInt 1.
Proof.
  split; [apply perm_skip, perm_swap|].
  split; [repeat constructor|].
  split; [vm_compute; reflexivity|].
  split; [vm_compute; reflexivity|].
  vm_compute. discriminate.
Qed.

(** ** LatencyNode: the pending queue and the FIFO *)

(** X13.  The backward loop of [LatencyNode::process], which removes from
    the array while it walks it, does what a partition does: started at the
    end of the pending array, it leaves the messages that are not due, in
    their order, and appends the due ones to the output, the one at the
    highest index first. *)
Theorem readOutDelayed_partitions_the_queue :
  forall (blockTimeSeconds : Q) (pending out : MidiMessageArray),
    LatencyNode.readOutDelayed blockTimeSeconds (length pending) pending out
    = (filter (fun m => negb (Qle_bool (getTimeStamp m) blockTimeSeconds)) pending,
       out ++ rev (filter (fun m => Qle_bool (getTimeStamp m) blockTimeSeconds) pending)).
Proof.
  intros bt pending out.
  pose proof (readOutDelayed_partition bt pending [] out) as H.
  rewrite !app_nil_r in H. exact H.
Qed.

Lemma map_getMessage_shift : forall delta l,
  map getMessage (addToTimestamps delta l) = map getMessage l.
Proof.
  intros delta l. unfold addToTimestamps. rewrite map_map. reflexivity.
Qed.

(** X14.  A [process] call of a LatencyNode loses and invents no MIDI
    message: when [mergeFromWithOffset] gives a permutation of the pending
    messages and the offset new ones, the messages the call appends to the
    destination together with those it leaves pending are, by their payload,
    a permutation of those that were pending together with those of the
    input. *)
Theorem LatencyNode_process_keeps_every_midi_message :
  forall (merge : MidiMessageArray -> MidiMessageArray -> Q -> MidiMessageArray)
         (node : LatencyNode.t) (inputOutput : AudioAndMidiBuffer) (pc : ProcessContext),
    (forall dst src delta,
        Permutation (merge dst src delta) (dst ++ addToTimestamps delta src)) ->
    exists emitted,
      midi (snd (LatencyNode.process merge node inputOutput pc))
      = midi (buffers pc) ++ emitted
      /\ Permutation
           (map getMessage
              (emitted ++ LatencyNode.midi (fst (LatencyNode.process merge node inputOutput pc))))
           (map getMessage (LatencyNode.midi node ++ midi inputOutput)).
Proof.
  intros merge node io pc Hm.
  destruct (process_midi merge node io pc) as [Hp [Ho _]]. cbv zeta in Hp, Ho.
  eexists. split; [exact Ho|]. rewrite Hp.
  rewrite !map_app, map_getMessage_shift, <- !map_app.
  apply Permutation_trans
    with (map getMessage (merge (LatencyNode.midi node) (midi io)
                            (LatencyNode.latencyTimeSeconds node))).
  - apply Permutation_map.
    eapply Permutation_trans.
    + apply Permutation_app_tail. apply Permutation_sym. apply Permutation_rev.
    + eapply Permutation_trans; [apply Permutation_app_comm|].
      apply filter_partition_Permutation.
  - eapply Permutation_trans; [apply Permutation_map; apply Hm|].
    rewrite !map_app, map_getMessage_shift. apply Permutation_refl.
Qed.

Lemma LatencyNode_process_keeps_every_midi_message_witness :
  (forall dst src delta,
      Permutation (appendWithOffset dst src delta) (dst ++ addToTimestamps delta src))
  /\ exists emitted,
       midi (snd (LatencyNode.process appendWithOffset keepExampleNode
                    (mkBuffers [] [mkMidiMessage 0 60; mkMidiMessage (1 # 48000) 64])
                    (mkContext (mkRange 0 4) (mkRange 0 4) (mkBuffers [] []))))
       = [] ++ emitted.
Proof.
  assert (H : forall dst src delta,
             Permutation (appendWithOffset dst src delta) (dst ++ addToTimestamps delta src))
    by (intros; apply Permutation_refl).
  split; [exact H|].
  destruct (LatencyNode_process_keeps_every_midi_message appendWithOffset keepExampleNode
              (mkBuffers [] [mkMidiMessage 0 60; mkMidiMessage (1 # 48000) 64])
              (mkContext (mkRange 0 4) (mkRange 0 4) (mkBuffers [] [])) H)
    as [emitted [He _]].
  exists emitted. exact He.
Defined.

Lemma process_fifoLevel : forall merge N B node io pc,
  fifoLevel N B (LatencyNode.fifo node) ->
  length (audio io) = length (audio (buffers pc)) ->
  Z.of_nat (length (audio io)) <= B ->
  fifoLevel N B (LatencyNode.fifo (fst (LatencyNode.process merge node io pc))).
Proof.
  intros merge N B node io pc [Hr Hf] Hlen HB.
  unfold LatencyNode.process.
  destruct (LatencyNode.readOutDelayed _ _ _ _) as [pending outMidi].
  destruct (0 <? AudioFifo.getNumChannels (LatencyNode.fifo node)).
  - unfold AudioFifo.write, getNumSamples. rewrite Hf.
    destruct (Z.leb_spec (Z.of_nat (length (audio io))) B) as [_|Hn]; [|lia].
    unfold AudioFifo.readAdding, AudioFifo.getNumReady, getNumSamples in *.
    unfold AudioFifo.getFreeSpace, AudioFifo.getNumReady in Hf.
    cbn [AudioFifo.ready AudioFifo.size AudioFifo.numChannels]. rewrite length_app.
    destruct (Z.leb_spec (Z.of_nat (length (audio (buffers pc))))
                (Z.of_nat (length (AudioFifo.ready (LatencyNode.fifo node))
                           + length (audio io)))) as [_|Hn]; [|lia].
    cbn [fst LatencyNode.fifo]. unfold fifoLevel, AudioFifo.getNumReady,
      AudioFifo.getFreeSpace, AudioFifo.getNumReady.
    cbn [AudioFifo.ready AudioFifo.size]. rewrite length_skipn, length_app. lia.
  - cbn [fst LatencyNode.fifo]. split; assumption.
Qed.

Lemma prepareToPlay_fifoLevel : forall input N info,
  0 <= N -> 0 <= blockSize info -> N + blockSize info + 1 <= Int.INT_MAX ->
  fifoLevel N (blockSize info)
    (LatencyNode.fifo (LatencyNode.prepareToPlay (LatencyNode.create input N) info)).
Proof.
  intros input N info HN HB Hmax.
  destruct (prepareToPlay_lineReady input N info HN HB Hmax) as [Hf [Hl _]].
  rewrite Hf. unfold fifoLevel, AudioFifo.getFreeSpace, AudioFifo.getNumReady.
  cbn [AudioFifo.ready AudioFifo.size]. lia.
Qed.

Lemma run_fifoLevel : forall merge N B calls node,
  fifoLevel N B (LatencyNode.fifo node) ->
  Forall (fun c : Call => length (audio (fst c)) = length (audio (buffers (snd c)))
                          /\ Z.of_nat (length (audio (fst c))) <= B) calls ->
  Forall (fun r => fifoLevel N B (LatencyNode.fifo (fst r)))
         (LatencyNode.run merge node calls).
Proof.
  intros merge N B calls. induction calls as [|[io pc] rest IH]; intros node Hn Hc.
  - constructor.
  - inversion Hc as [|? ? [H1 H2] Hrest]; subst. simpl in H1, H2.
    simpl. pose proof (process_fifoLevel merge N B node io pc Hn H1 H2) as Hstep.
    constructor; [exact Hstep|]. apply IH; assumption.
Qed.

(** X15.  The assertions of LatencyNode on its FIFO hold.  After
    [prepareToPlay] (with [N >= 0], a block size that is not negative, and
    [N + blockSize + 1] an [int]) exactly [N] frames are ready.  Along any
    sequence of calls in which the input and the destination block have the
    same number of frames, at most [blockSize], every block written fits,
    every read finds enough frames, and after each call [N] frames are ready
    again and there is room for [blockSize] more. *)
Theorem LatencyNode_fifo_level_is_kept :
  forall (merge : MidiMessageArray -> MidiMessageArray -> Q -> MidiMessageArray)
         (input : Node) (N : Z) (info : PlaybackInitialisationInfo) (calls : list Call),
    0 <= N ->
    0 <= blockSize info ->
    N + blockSize info + 1 <= Int.INT_MAX ->
    Forall (fun c : Call => length (audio (fst c)) = length (audio (buffers (snd c)))
                            /\ Z.of_nat (length (audio (fst c))) <= blockSize info) calls ->
    let node := LatencyNode.prepareToPlay (LatencyNode.create input N) info in
    AudioFifo.getNumReady (LatencyNode.fifo node) = N
    /\ Forall (fun r => AudioFifo.getNumReady (LatencyNode.fifo (fst r)) = N
                        /\ AudioFifo.getFreeSpace (LatencyNode.fifo (fst r)) = blockSize info)
              (LatencyNode.run merge node calls).
Proof.
  intros merge input N info calls HN HB Hmax Hcalls node.
  pose proof (prepareToPlay_fifoLevel input N info HN HB Hmax) as Hprep.
  split; [exact (proj1 Hprep)|].
  exact (run_fifoLevel merge N (blockSize info) calls node Hprep Hcalls).
Qed.

Lemma LatencyNode_fifo_level_is_kept_witness :
  0 <= 3
  /\ 0 <= blockSize (mkInfo (48000 # 1) 4)
  /\ 3 + blockSize (mkInfo (48000 # 1) 4) + 1 <= Int.INT_MAX
  /\ Forall (fun c : Call => length (audio (fst c)) = length (audio (buffers (snd c)))
                             /\ Z.of_nat (length (audio (fst c)))
                                <= blockSize (mkInfo (48000 # 1) 4))
            (map (audioCall 1) impulseBlocks)
  /\ AudioFifo.getNumReady
       (LatencyNode.fifo (LatencyNode.prepareToPlay (LatencyNode.create impulseInput 3)
                            (mkInfo (48000 # 1) 4))) = 3.
Proof.
  assert (H1 : 0 <= 3) by lia.
  assert (H2 : 0 <= blockSize (mkInfo (48000 # 1) 4)) by (simpl; lia).
  assert (H3 : 3 + blockSize (mkInfo (48000 # 1) 4) + 1 <= Int.INT_MAX)
    by (vm_compute; discriminate).
  assert (H4 : Forall (fun c : Call =>
                         length (audio (fst c)) = length (audio (buffers (snd c)))
                         /\ Z.of_nat (length (audio (fst c)))
                            <= blockSize (mkInfo (48000 # 1) 4))
                 (map (audioCall 1) impulseBlocks)).
  { repeat constructor; vm_compute; discriminate. }
  repeat (split; [assumption|]).
  exact (proj1 (LatencyNode_fifo_level_is_kept appendWithOffset impulseInput 3
                  (mkInfo (48000 # 1) 4) (map (audioCall 1) impulseBlocks) H1 H2 H3 H4)).
Defined.

Lemma audio_run_no_delay : forall merge numCh B blocks node,
  0 < numCh ->
  lineReady numCh 0 B [] node ->
  Forall (fun b => Z.of_nat (length b) <= B /\ hasWidth (Z.to_nat numCh) b) blocks ->
  audioOutputs merge node (Z.to_nat numCh) blocks = blocks.
Proof.
  intros merge numCh B blocks. induction blocks as [|b rest IH]; intros node Hch Hline Hb.
  - reflexivity.
  - inversion Hb as [|? ? [Hlen Hw] Hrest]; subst.
    destruct (process_audio_step merge numCh 0 B [] node b Hch Hline Hlen Hw)
      as [Hout Hline'].
    cbv zeta in Hout, Hline'. simpl app in Hout, Hline'.
    rewrite firstn_all in Hout. rewrite skipn_all in Hline'.
    unfold audioOutputs. cbn [map].
    change (audioCall (Z.to_nat numCh) b)
      with (fst (audioCall (Z.to_nat numCh) b), snd (audioCall (Z.to_nat numCh) b)).
    cbn [map LatencyNode.run fst snd]. rewrite Hout. f_equal.
    apply (IH _ Hch Hline' Hrest).
Qed.

(** X16.  A LatencyNode of no samples is transparent for audio block by
    block: prepared with a block size, and run into silent destination
    buffers over blocks of at most that size, it puts out each block as it
    got it. *)
Theorem LatencyNode_of_zero_samples_passes_audio :
  forall (merge : MidiMessageArray -> MidiMessageArray -> Q -> MidiMessageArray)
         (input : Node) (info : PlaybackInitialisationInfo) (blocks : list AudioBlock),
    let c := Z.to_nat (numberOfChannels (Graph.getNodeProperties input)) in
    0 <= blockSize info ->
    blockSize info + 1 <= Int.INT_MAX ->
    Forall (fun b => Z.of_nat (length b) <= blockSize info /\ hasWidth c b) blocks ->
    audioOutputs merge (LatencyNode.prepareToPlay (LatencyNode.create input 0) info) c blocks
    = blocks.
Proof.
  intros merge input info blocks c HB Hmax Hblocks.
  set (numCh := numberOfChannels (Graph.getNodeProperties input)) in *.
  destruct (Z.ltb_spec 0 numCh) as [Hch|Hch].
  - apply (audio_run_no_delay merge numCh (blockSize info)); [assumption| |assumption].
    apply (prepareToPlay_lineReady input 0 info); lia.
  - assert (Hc : c = O) by (unfold c; lia).
    rewrite audio_run_no_channels by (rewrite prepareToPlay_numChannels; assumption).
    rewrite Hc in *. clear - Hblocks.
    induction Hblocks as [|b rest [_ Hw] Hrest IH]; simpl; [reflexivity|].
    rewrite IH. rewrite <- (hasWidth_0_silence b Hw). reflexivity.
Qed.

Lemma LatencyNode_of_zero_samples_passes_audio_witness :
  0 <= blockSize (mkInfo (48000 # 1) 4)
  /\ blockSize (mkInfo (48000 # 1) 4) + 1 <= Int.INT_MAX
  /\ Forall (fun b : AudioBlock =>
               Z.of_nat (length b) <= blockSize (mkInfo (48000 # 1) 4)
               /\ hasWidth (Z.to_nat (numberOfChannels (Graph.getNodeProperties impulseInput))) b)
            impulseBlocks
  /\ audioOutputs appendWithOffset
       (LatencyNode.prepareToPlay (LatencyNode.create impulseInput 0) (mkInfo (48000 # 1) 4))
       (Z.to_nat (numberOfChannels (Graph.getNodeProperties impulseInput))) impulseBlocks
     = impulseBlocks.
Proof.
  assert (H1 : 0 <= blockSize (mkInfo (48000 # 1) 4)) by (simpl; lia).
  assert (H2 : blockSize (mkInfo (48000 # 1) 4) + 1 <= Int.INT_MAX)
    by (vm_compute; discriminate).
  assert (H3 : Forall (fun b : AudioBlock =>
               Z.of_nat (length b) <= blockSize (mkInfo (48000 # 1) 4)
               /\ hasWidth (Z.to_nat (numberOfChannels (Graph.getNodeProperties impulseInput))) b)
            impulseBlocks).
  { repeat constructor; vm_compute; discriminate. }
  repeat (split; [assumption|]).
  exact (LatencyNode_of_zero_samples_passes_audio appendWithOffset impulseInput
           (mkInfo (48000 # 1) 4) impulseBlocks H1 H2 H3).
Defined.

(** ** FadeInOutNode: shape, section bounds, gains inside the fade *)

Lemma map_length_copyFrom : forall dest src,
  map (@length Q) (FadeInOutNode.copyFrom dest src) = map (@length Q) dest.
Proof.
  induction dest as [|d dest IH]; intros [|s src]; simpl; try reflexivity.
  rewrite IH. f_equal. clear. revert s.
  induction d as [|x d IHd]; intros [|y s]; simpl; try reflexivity.
  rewrite IHd. reflexivity.
Qed.

Lemma map_length_mapFrom : forall f b k,
  (forall i fr, length (f i fr) = length fr) ->
  map (@length Q) (FadeInOutNode.mapFrom k f b) = map (@length Q) b.
Proof.
  intros f b k Hf. revert k. induction b as [|fr b IH]; intro k; simpl; [reflexivity|].
  rewrite IH, Hf. reflexivity.
Qed.

Lemma map_length_clearSubBlock : forall b start len,
  map (@length Q) (FadeInOutNode.clearSubBlock b start len) = map (@length Q) b.
Proof.
  intros. unfold FadeInOutNode.clearSubBlock. apply map_length_mapFrom.
  intros i fr. destruct (_ && _); [|reflexivity].
  unfold silentFrame. apply repeat_length.
Qed.

Lemma map_length_applyCrossfadeSection : forall curveGain b start len type a1 a2,
  map (@length Q) (FadeInOutNode.applyCrossfadeSection curveGain b start len type a1 a2)
  = map (@length Q) b.
Proof.
  intros. unfold FadeInOutNode.applyCrossfadeSection. apply map_length_mapFrom.
  intros i fr. destruct (_ && _); [|reflexivity].
  unfold FadeInOutNode.scaleFrame. apply length_map.
Qed.

(** X17.  [FadeInOutNode::process] never changes the shape of the
    destination audio: whatever the input, the play head, the fade ranges and
    the curves, the destination has after the call the frames it had, each
    with the channels it had. *)
Theorem FadeInOutNode_process_keeps_shape :
  forall (curveGain : FadeInOutNode.FadeType -> Q -> Q) (node : FadeInOutNode.t)
         (playHeadState : FadeInOutNode.PlayHeadState)
         (sourceBuffers : AudioAndMidiBuffer) (pc : ProcessContext),
    map (@length Q)
        (audio (FadeInOutNode.process curveGain node playHeadState sourceBuffers pc))
    = map (@length Q) (audio (buffers pc)).
Proof.
  intros curveGain node ps src pc. unfold FadeInOutNode.process.
  destruct (negb _); simpl; [apply map_length_copyFrom|].
  unfold FadeInOutNode.applyFadeOut, FadeInOutNode.applyFadeIn.
  repeat match goal with
         | |- context [if ?c then _ else _] => destruct c
         end;
    rewrite ?map_length_applyCrossfadeSection, ?map_length_clearSubBlock,
            ?map_length_applyCrossfadeSection, ?map_length_clearSubBlock;
    apply map_length_copyFrom.
Qed.

(** X18.  The section that a fade branch hands to [applyCrossfadeSection]
    lies within the block.  For the timeline range of a block and a valid,
    non-empty fade range that the block meets, the start of which is within
    an [int] of the start of the block: [startSamp] and [endSamp] are not negative and
    at most the number of samples of the block, in the fade-in branch and in
    the fade-out branch. *)
Theorem fade_section_within_block :
  forall (timelineRange fade : Range),
    blockRange timelineRange ->
    validRange fade ->
    intersects timelineRange fade = true ->
    0 < getLength fade ->
    Int.inRange (getStart fade - getStart timelineRange) ->
    let numSamples := getLength timelineRange in
    let fadeIn := FadeInOutNode.fadeInSection timelineRange fade in
    let fadeOut := FadeInOutNode.fadeOutSection numSamples timelineRange fade in
    0 <= FadeInOutNode.startSamp fadeIn <= numSamples
    /\ 0 <= FadeInOutNode.endSamp fadeIn <= numSamples
    /\ 0 <= FadeInOutNode.startSamp fadeOut <= numSamples
    /\ 0 <= FadeInOutNode.endSamp fadeOut <= numSamples.
Proof.
  intros tl fade Htl Hfade Hint Hlen Hd numSamples fadeIn fadeOut.
  assert (Hfb : getLength fade <= 9223372036854775807)
    by (apply (wrap64_bounds (getEnd fade - getStart fade))).
  pose proof (validRange_length fade Hfade Hlen) as Hflen.
  pose proof (blockRange_length tl Htl) as Htlen.
  destruct Htl as [[[H1 H2] [[H3 H4] H5]] [H6 H7]].
  destruct Hfade as [[F1 F2] [[F3 F4] F5]].
  unfold intersects in Hint. apply andb_true_iff in Hint. destruct Hint as [Hi1 Hi2].
  apply Z.ltb_lt in Hi1, Hi2.
  unfold Int.inRange, Int.INT_MIN, Int.INT_MAX in *.
  assert (Hstart : Int.wrap32 (Int.wrap64 (getStart fade - getStart tl))
                   = getStart fade - getStart tl).
  { rewrite wrap64_inRange by (unfold Int.inRange64; lia).
    apply wrap32_inRange. unfold Int.inRange, Int.INT_MIN, Int.INT_MAX. lia. }
  assert (Hend : getEnd fade <= getEnd tl ->
                 Int.wrap32 (Int.wrap64 (getEnd tl - getEnd fade)) = getEnd tl - getEnd fade).
  { intro He. rewrite wrap64_inRange by (unfold Int.inRange64; lia).
    apply wrap32_inRange. unfold Int.inRange, Int.INT_MIN, Int.INT_MAX. lia. }
  assert (Hn : Int.wrap32 (getLength tl) = getLength tl).
  { apply wrap32_inRange. unfold Int.inRange, Int.INT_MIN, Int.INT_MAX. lia. }
  subst fadeIn fadeOut numSamples.
  unfold FadeInOutNode.fadeInSection, FadeInOutNode.fadeOutSection.
  rewrite Hstart, Hn.
  destruct (Z.ltb_spec 0 (getStart fade - getStart tl));
    destruct (Z.leb_spec (getStart fade - getStart tl) 0);
    destruct (Z.leb_spec (getEnd fade) (getEnd tl)) as [He|He];
    try rewrite (Hend He);
    cbn [FadeInOutNode.startSamp FadeInOutNode.endSamp]; lia.
Qed.

Lemma fade_section_within_block_witness :
  blockRange (mkRange 4608 5120)
  /\ validRange (mkRange 0 4800)
  /\ intersects (mkRange 4608 5120) (mkRange 0 4800) = true
  /\ 0 < getLength (mkRange 0 4800)
  /\ Int.inRange (getStart (mkRange 0 4800) - getStart (mkRange 4608 5120))
  /\ 0 <= FadeInOutNode.endSamp
            (FadeInOutNode.fadeInSection (mkRange 4608 5120) (mkRange 0 4800))
     <= getLength (mkRange 4608 5120).
Proof.
  assert (H1 : blockRange (mkRange 4608 5120)).
  { unfold blockRange, validRange, Int.inRange64, Int.INT_MAX. vm_compute.
    repeat split; discriminate. }
  assert (H2 : validRange (mkRange 0 4800)).
  { unfold validRange, Int.inRange64. vm_compute. repeat split; discriminate. }
  assert (H3 : intersects (mkRange 4608 5120) (mkRange 0 4800) = true) by reflexivity.
  assert (H4 : 0 < getLength (mkRange 0 4800)) by reflexivity.
  assert (H5 : Int.inRange (getStart (mkRange 0 4800) - getStart (mkRange 4608 5120))).
  { unfold Int.inRange. vm_compute. split; discriminate. }
  repeat (split; [assumption|]).
  exact (proj1 (proj2 (fade_section_within_block (mkRange 4608 5120) (mkRange 0 4800)
                         H1 H2 H3 H4 H5))).
Defined.

Lemma inside_fade_section : forall tl fade,
  blockRange tl -> validRange fade -> 0 < getLength fade -> insideFade tl fade ->
  FadeInOutNode.fadeInSection tl fade
  = FadeInOutNode.mkSection 0 (getEnd tl - getStart tl)
      (inject_Z (getStart tl - getStart fade) / inject_Z (getEnd fade - getStart fade))
      (FadeInOutNode.jmax0
         (inject_Z (getEnd tl - getStart fade) / inject_Z (getEnd fade - getStart fade)))
  /\ intersects tl fade = true
  /\ intersects fade tl = true.
Proof.
  intros tl fade Htl Hfade Hlen [I1 [I2 [I3 I4]]].
  assert (Hfb : getLength fade <= 9223372036854775807)
    by (apply (wrap64_bounds (getEnd fade - getStart fade))).
  pose proof (validRange_length fade Hfade Hlen) as Hflen.
  pose proof (blockRange_length tl Htl) as Htlen.
  destruct Htl as [[[H1 H2] [[H3 H4] H5]] [H6 H7]].
  destruct Hfade as [[F1 F2] [[F3 F4] F5]].
  unfold Int.INT_MAX in *.
  unfold FadeInOutNode.fadeInSection. rewrite Hflen, Htlen.
  rewrite (wrap64_inRange (getStart fade - getStart tl)) by (unfold Int.inRange64; lia).
  rewrite (wrap32_inRange (getStart fade - getStart tl))
    by (unfold Int.inRange, Int.INT_MIN, Int.INT_MAX; lia).
  rewrite (wrap64_inRange (getStart tl - getStart fade)) by (unfold Int.inRange64; lia).
  rewrite (wrap64_inRange (getEnd tl - getStart fade)) by (unfold Int.inRange64; lia).
  rewrite (wrap32_inRange (getEnd tl - getStart tl))
    by (unfold Int.inRange, Int.INT_MIN, Int.INT_MAX; lia).
  destruct (Z.ltb_spec 0 (getStart fade - getStart tl)); [lia|].
  destruct (Z.leb_spec (getEnd fade) (getEnd tl)); [lia|].
  split; [reflexivity|]. unfold intersects.
  split; apply andb_true_iff; split; apply Z.ltb_lt; lia.
Qed.

(** X19.  Inside a linear fade-in the gain is the progress through the fade.
    With the play head playing, on a block that lies inside the fade-in range
    and on which no fade-out is rendered, [process] scales frame [i] of the
    input by [(blockStart + i - fadeStart) / fadeLength]. *)
Theorem fade_in_gain_inside_the_fade :
  forall (curveGain : FadeInOutNode.FadeType -> Q -> Q) (node : FadeInOutNode.t)
         (playHeadState : FadeInOutNode.PlayHeadState)
         (sourceBuffers : AudioAndMidiBuffer) (pc : ProcessContext),
    let timelineRange := FadeInOutNode.timelineRange1 playHeadState (referenceSampleRange pc) in
    let fade := FadeInOutNode.fadeInSampleRange node in
    FadeInOutNode.isPlaying playHeadState = true ->
    FadeInOutNode.fadeInType node = FadeInOutNode.linear ->
    blockRange timelineRange ->
    validRange fade ->
    0 < getLength fade ->
    insideFade timelineRange fade ->
    noFadeOut node timelineRange ->
    sameShape (audio (buffers pc)) (audio sourceBuffers) ->
    Z.of_nat (length (audio sourceBuffers)) = getLength timelineRange ->
    forall (i : nat) (fr : Frame),
      nth_error (audio sourceBuffers) i = Some fr ->
      exists gain : Q,
        (gain == inject_Z (getStart timelineRange + Z.of_nat i - getStart fade)
                 / inject_Z (getEnd fade - getStart fade))%Q
        /\ nth_error
             (audio (FadeInOutNode.process curveGain node playHeadState sourceBuffers pc)) i
           = Some (FadeInOutNode.scaleFrame gain fr).
Proof.
  intros curveGain node ps src pc tl fade Hplay Hlin Htl Hfade Hlen Hin Hnofo Hshape Hn i fr Hi.
  destruct (inside_fade_section tl fade Htl Hfade Hlen Hin) as [Hsec [Hx1 Hx2]].
  pose proof (blockRange_length tl Htl) as Htlen.
  destruct Hin as [I1 [I2 [I3 I4]]].
  assert (Hlt : (i < length (audio src))%nat) by (apply nth_error_Some; congruence).
  unfold FadeInOutNode.process. fold tl.
  rewrite (copyFrom_sameShape _ _ Hshape).
  unfold FadeInOutNode.renderingNeeded. rewrite Hplay. fold fade. rewrite Hx2.
  cbn [negb orb]. rewrite Hx1.
  destruct (Z.ltb_spec 0 (getLength fade)) as [_|Hc]; [|lia]. cbn [andb].
  unfold noFadeOut in Hnofo. rewrite Hnofo.
  cbn [audio]. unfold FadeInOutNode.applyFadeIn. fold fade. rewrite Hsec.
  cbn [FadeInOutNode.startSamp FadeInOutNode.endSamp FadeInOutNode.alpha1 FadeInOutNode.alpha2].
  change (0 <? 0) with false. cbn [andb].
  destruct (Z.ltb_spec 0 (getEnd tl - getStart tl)) as [_|Hc]; [|lia].
  rewrite Hlin. unfold FadeInOutNode.applyCrossfadeSection.
  rewrite nth_error_mapFrom, Hi. cbn [option_map].
  destruct (Z.leb_spec 0 (0 + Z.of_nat i)) as [_|Hc]; [|lia].
  destruct (Z.ltb_spec (0 + Z.of_nat i) (0 + (getEnd tl - getStart tl - 0))) as [_|Hc]; [|lia].
  cbn [andb FadeInOutNode.alphaToGain]. eexists. split; [|reflexivity].
  assert (HL : 0 < getEnd fade - getStart fade).
  { rewrite <- (validRange_length fade Hfade Hlen). assumption. }
  assert (Hj : FadeInOutNode.jmax0 (inject_Z (getEnd tl - getStart fade)
                                    / inject_Z (getEnd fade - getStart fade))
               = (inject_Z (getEnd tl - getStart fade)
                  / inject_Z (getEnd fade - getStart fade))%Q).
  { unfold FadeInOutNode.jmax0.
    destruct (Qle_bool _ 0) eqn:Hq; [|reflexivity].
    apply Qle_bool_iff in Hq. exfalso.
    assert (Hpos : (0 < inject_Z (getEnd tl - getStart fade)
                        / inject_Z (getEnd fade - getStart fade))%Q).
    { apply Qlt_shift_div_l.
      - change 0%Q with (inject_Z 0). rewrite <- Zlt_Qlt. assumption.
      - rewrite Qmult_0_l. change 0%Q with (inject_Z 0). rewrite <- Zlt_Qlt. lia. }
    lra. }
  rewrite Hj.
  replace (0 + Z.of_nat i - 0) with (Z.of_nat i) by lia.
  replace (getEnd tl - getStart tl - 0) with (getEnd tl - getStart tl) by lia.
  replace (getEnd tl - getStart fade)
    with ((getStart tl - getStart fade) + (getEnd tl - getStart tl)) by lia.
  replace (getStart tl + Z.of_nat i - getStart fade)
    with ((getStart tl - getStart fade) + Z.of_nat i) by lia.
  rewrite !inject_Z_plus.
  assert (HLq : ~ (inject_Z (getEnd fade - getStart fade) == 0)%Q).
  { assert (Hp : (0 < inject_Z (getEnd fade - getStart fade))%Q)
      by (change 0%Q with (inject_Z 0); rewrite <- Zlt_Qlt; lia).
    intro H. rewrite H in Hp. apply (Qlt_irrefl 0). exact Hp. }
  assert (Hnq : ~ (inject_Z (getEnd tl - getStart tl) == 0)%Q).
  { assert (Hp : (0 < inject_Z (getEnd tl - getStart tl))%Q)
      by (change 0%Q with (inject_Z 0); rewrite <- Zlt_Qlt; lia).
    intro H. rewrite H in Hp. apply (Qlt_irrefl 0). exact Hp. }
  field. split; assumption.
Qed.

Lemma fade_in_gain_inside_the_fade_witness :
  FadeInOutNode.isPlaying scenarioPlayHead = true
  /\ FadeInOutNode.fadeInType
       (fadeInScenario (OtherNode 0 defaultNodeProperties) 0 FadeInOutNode.linear false)
     = FadeInOutNode.linear
  /\ blockRange (mkRange 512 1024)
  /\ validRange (mkRange 0 4800)
  /\ 0 < getLength (mkRange 0 4800)
  /\ insideFade (mkRange 512 1024) (mkRange 0 4800)
  /\ noFadeOut (fadeInScenario (OtherNode 0 defaultNodeProperties) 0 FadeInOutNode.linear false)
               (mkRange 512 1024)
  /\ sameShape (audio (buffers (scenarioContext 512))) (audio scenarioSource)
  /\ Z.of_nat (length (audio scenarioSource)) = getLength (mkRange 512 1024)
  /\ exists gain : Q,
       (gain == inject_Z (512 + Z.of_nat 3 - 0) / inject_Z (4800 - 0))%Q
       /\ nth_error
            (audio (FadeInOutNode.process (fun _ a => a)
                      (fadeInScenario (OtherNode 0 defaultNodeProperties) 0
                         FadeInOutNode.linear false)
                      scenarioPlayHead scenarioSource (scenarioContext 512))) 3
          = Some (FadeInOutNode.scaleFrame gain [1%Q]).
Proof.
  assert (H1 : FadeInOutNode.isPlaying scenarioPlayHead = true) by reflexivity.
  assert (H2 : FadeInOutNode.fadeInType
                 (fadeInScenario (OtherNode 0 defaultNodeProperties) 0
                    FadeInOutNode.linear false)
               = FadeInOutNode.linear) by reflexivity.
  assert (H3 : blockRange (mkRange 512 1024)).
  { unfold blockRange, validRange, Int.inRange64, Int.INT_MAX. vm_compute.
    repeat split; discriminate. }
  assert (H4 : validRange (mkRange 0 4800)).
  { unfold validRange, Int.inRange64. vm_compute. repeat split; discriminate. }
  assert (H5 : 0 < getLength (mkRange 0 4800)) by reflexivity.
  assert (H6 : insideFade (mkRange 512 1024) (mkRange 0 4800)).
  { unfold insideFade, Int.INT_MAX. vm_compute. repeat split; discriminate. }
  assert (H7 : noFadeOut (fadeInScenario (OtherNode 0 defaultNodeProperties) 0
                            FadeInOutNode.linear false) (mkRange 512 1024))
    by reflexivity.
  assert (H8 : sameShape (audio (buffers (scenarioContext 512))) (audio scenarioSource))
    by (apply (sameShape_silence 1 512 [1%Q]); reflexivity).
  assert (H9 : Z.of_nat (length (audio scenarioSource)) = getLength (mkRange 512 1024))
    by reflexivity.
  repeat (split; [assumption|]).
  exact (fade_in_gain_inside_the_fade (fun _ a => a)
           (fadeInScenario (OtherNode 0 defaultNodeProperties) 0 FadeInOutNode.linear false)
           scenarioPlayHead scenarioSource (scenarioContext 512)
           H1 H2 H3 H4 H5 H6 H7 H8 H9 3%nat [1%Q] eq_refl).
Defined.

Lemma nth_error_clearSubBlock : forall b start len i fr,
  nth_error b i = Some fr ->
  nth_error (FadeInOutNode.clearSubBlock b start len) i
  = Some (if (start <=? Z.of_nat i) && (Z.of_nat i <? start + len)
          then silentFrame (length fr) else fr).
Proof.
  intros b start len i fr H. unfold FadeInOutNode.clearSubBlock.
  rewrite nth_error_mapFrom, H. simpl. reflexivity.
Qed.

Lemma nth_error_applyCrossfadeSection_before :
  forall curveGain b start len type a1 a2 i,
    Z.of_nat i < start ->
    nth_error (FadeInOutNode.applyCrossfadeSection curveGain b start len type a1 a2) i
    = nth_error b i.
Proof.
  intros curveGain b start len type a1 a2 i Hi.
  unfold FadeInOutNode.applyCrossfadeSection. rewrite nth_error_mapFrom.
  destruct (nth_error b i); [|reflexivity]. simpl.
  destruct (Z.leb_spec start (Z.of_nat i)) as [Hc|_]; [lia|]. reflexivity.
Qed.

(** X20.  Ahead of a fade-in.  With the play head playing, on a block in
    which the fade-in starts (after the first frame of the block) and on
    which no fade-out is rendered, the frames ahead of the start of the fade
    are cleared to silence when [clearExtraSamples] is set, and are the
    input's frames when it is not. *)
Theorem fade_in_clears_or_keeps_frames_ahead :
  forall (curveGain : FadeInOutNode.FadeType -> Q -> Q) (node : FadeInOutNode.t)
         (playHeadState : FadeInOutNode.PlayHeadState)
         (sourceBuffers : AudioAndMidiBuffer) (pc : ProcessContext),
    let timelineRange := FadeInOutNode.timelineRange1 playHeadState (referenceSampleRange pc) in
    let fade := FadeInOutNode.fadeInSampleRange node in
    FadeInOutNode.isPlaying playHeadState = true ->
    blockRange timelineRange ->
    validRange fade ->
    0 < getLength fade ->
    getStart timelineRange < getStart fade < getEnd timelineRange ->
    noFadeOut node timelineRange ->
    sameShape (audio (buffers pc)) (audio sourceBuffers) ->
    forall (i : nat) (fr : Frame),
      nth_error (audio sourceBuffers) i = Some fr ->
      Z.of_nat i < getStart fade - getStart timelineRange ->
      nth_error
        (audio (FadeInOutNode.process curveGain node playHeadState sourceBuffers pc)) i
      = Some (if FadeInOutNode.clearExtraSamples node
              then silentFrame (length fr) else fr).
Proof.
  intros curveGain node ps src pc tl fade Hplay Htl Hfade Hlen Hpos Hnofo Hshape i fr Hi Hahead.
  assert (Hfb : getLength fade <= 9223372036854775807)
    by (apply (wrap64_bounds (getEnd fade - getStart fade))).
  pose proof (validRange_length fade Hfade Hlen) as Hflen.
  pose proof (blockRange_length tl Htl) as Htlen.
  destruct Htl as [[[H1 H2] [[H3 H4] H5]] [H6 H7]].
  destruct Hfade as [[F1 F2] [[F3 F4] F5]].
  unfold Int.INT_MAX in *.
  assert (Hs : FadeInOutNode.startSamp (FadeInOutNode.fadeInSection tl fade)
               = getStart fade - getStart tl).
  { unfold FadeInOutNode.fadeInSection.
    rewrite (wrap64_inRange (getStart fade - getStart tl)) by (unfold Int.inRange64; lia).
    rewrite (wrap32_inRange (getStart fade - getStart tl))
      by (unfold Int.inRange, Int.INT_MIN, Int.INT_MAX; lia).
    destruct (Z.ltb_spec 0 (getStart fade - getStart tl)); [|lia].
    destruct (getEnd fade <=? getEnd tl); reflexivity. }
  assert (Hx1 : intersects tl fade = true).
  { unfold intersects. apply andb_true_iff. split; apply Z.ltb_lt; lia. }
  assert (Hx2 : intersects fade tl = true).
  { unfold intersects. apply andb_true_iff. split; apply Z.ltb_lt; lia. }
  unfold FadeInOutNode.process. fold tl.
  rewrite (copyFrom_sameShape _ _ Hshape).
  unfold FadeInOutNode.renderingNeeded. rewrite Hplay. fold fade. rewrite Hx2.
  cbn [negb orb]. rewrite Hx1.
  destruct (Z.ltb_spec 0 (getLength fade)) as [_|Hc]; [|lia]. cbn [andb].
  unfold noFadeOut in Hnofo. rewrite Hnofo.
  cbn [audio]. unfold FadeInOutNode.applyFadeIn. fold fade. rewrite Hs.
  destruct (Z.ltb_spec 0 (getStart fade - getStart tl)) as [_|Hc]; [|lia]. cbn [andb].
  assert (Hclear : nth_error
                     (if FadeInOutNode.clearExtraSamples node
                      then FadeInOutNode.clearSubBlock (audio src) 0
                             (getStart fade - getStart tl)
                      else audio src) i
                   = Some (if FadeInOutNode.clearExtraSamples node
                           then silentFrame (length fr) else fr)).
  { destruct (FadeInOutNode.clearExtraSamples node); [|exact Hi].
    rewrite (nth_error_clearSubBlock _ _ _ _ _ Hi).
    destruct (Z.leb_spec 0 (Z.of_nat i)) as [_|Hc]; [|lia].
    destruct (Z.ltb_spec (Z.of_nat i) (0 + (getStart fade - getStart tl))) as [_|Hc]; [|lia].
    reflexivity. }
  destruct (getStart fade - getStart tl
            <? FadeInOutNode.endSamp (FadeInOutNode.fadeInSection tl fade)).
  - rewrite nth_error_applyCrossfadeSection_before by assumption. exact Hclear.
  - exact Hclear.
Qed.

Lemma fade_in_clears_or_keeps_frames_ahead_witness :
  FadeInOutNode.isPlaying scenarioPlayHead = true
  /\ blockRange (mkRange 0 4)
  /\ validRange (mkRange 2 6)
  /\ 0 < getLength (mkRange 2 6)
  /\ getStart (mkRange 0 4) < getStart (mkRange 2 6) < getEnd (mkRange 0 4)
  /\ noFadeOut clearingNode (mkRange 0 4)
  /\ sameShape (audio (buffers clearingContext)) (unitSignal 4)
  /\ nth_error
       (audio (FadeInOutNode.process (fun _ a => a) clearingNode scenarioPlayHead
                 (mkBuffers (unitSignal 4) []) clearingContext)) 1
     = Some [0%Q].
Proof.
  assert (H1 : FadeInOutNode.isPlaying scenarioPlayHead = true) by reflexivity.
  assert (H2 : blockRange (mkRange 0 4)).
  { unfold blockRange, validRange, Int.inRange64, Int.INT_MAX. vm_compute.
    repeat split; discriminate. }
  assert (H3 : validRange (mkRange 2 6)).
  { unfold validRange, Int.inRange64. vm_compute. repeat split; discriminate. }
  assert (H4 : 0 < getLength (mkRange 2 6)) by reflexivity.
  assert (H5 : getStart (mkRange 0 4) < getStart (mkRange 2 6) < getEnd (mkRange 0 4))
    by (simpl; lia).
  assert (H6 : noFadeOut clearingNode (mkRange 0 4)) by reflexivity.
  assert (H7 : sameShape (audio (buffers clearingContext)) (unitSignal 4))
    by (apply (sameShape_silence 1 4 [1%Q]); reflexivity).
  repeat (split; [assumption|]).
  exact (fade_in_clears_or_keeps_frames_ahead (fun _ a => a) clearingNode scenarioPlayHead
           (mkBuffers (unitSignal 4) []) clearingContext
           H1 H2 H3 H4 H5 H6 H7 1%nat [1%Q] eq_refl eq_refl).
Defined.

(** ** LatencyNode: whole signals *)

(** X21.  The delay line on any signal.  A LatencyNode of [N >= 0] samples,
    prepared with a block size (with [N + blockSize + 1] an [int]) and run
    into silent destination buffers over any signal cut into blocks of at
    most [blockSize] frames, puts out [N] frames of silence and then the
    signal, up to the length of the signal: frame [i] of the output is frame
    [i - N] of the input. *)
Theorem LatencyNode_delays_any_signal :
  forall (merge : MidiMessageArray -> MidiMessageArray -> Q -> MidiMessageArray)
         (input : Node) (N : Z) (info : PlaybackInitialisationInfo)
         (blocks : list AudioBlock),
    let c := Z.to_nat (numberOfChannels (Graph.getNodeProperties input)) in
    0 <= N ->
    N + blockSize info + 1 <= Int.INT_MAX ->
    Forall (fun b => Z.of_nat (length b) <= blockSize info /\ hasWidth c b) blocks ->
    concat (audioOutputs merge (LatencyNode.prepareToPlay (LatencyNode.create input N) info)
              c blocks)
    = firstn (length (concat blocks)) (silence c (Z.to_nat N) ++ concat blocks).
Proof.
  intros merge input N info blocks c HN Hmax Hblocks.
  exact (latency_audio_delay merge input N info blocks HN Hmax Hblocks).
Qed.

Lemma LatencyNode_delays_any_signal_witness :
  0 <= 2
  /\ 2 + blockSize (mkInfo (48000 # 1) 4) + 1 <= Int.INT_MAX
  /\ Forall (fun b : AudioBlock =>
               Z.of_nat (length b) <= blockSize (mkInfo (48000 # 1) 4)
               /\ hasWidth (Z.to_nat (numberOfChannels (Graph.getNodeProperties impulseInput))) b)
            rampBlocksA
  /\ concat (audioOutputs appendWithOffset
               (LatencyNode.prepareToPlay (LatencyNode.create impulseInput 2)
                  (mkInfo (48000 # 1) 4))
               (Z.to_nat (numberOfChannels (Graph.getNodeProperties impulseInput)))
               rampBlocksA)
     = [[0%Q]; [0%Q]; [1%Q]; [2%Q]; [3%Q]; [4%Q]].
Proof.
  assert (H1 : 0 <= 2) by lia.
  assert (H2 : 2 + blockSize (mkInfo (48000 # 1) 4) + 1 <= Int.INT_MAX)
    by (vm_compute; discriminate).
  assert (H3 : Forall (fun b : AudioBlock =>
               Z.of_nat (length b) <= blockSize (mkInfo (48000 # 1) 4)
               /\ hasWidth (Z.to_nat (numberOfChannels (Graph.getNodeProperties impulseInput))) b)
            rampBlocksA).
  { repeat constructor; vm_compute; discriminate. }
  repeat (split; [assumption|]).
  exact (LatencyNode_delays_any_signal appendWithOffset impulseInput 2
           (mkInfo (48000 # 1) 4) rampBlocksA H1 H2 H3).
Defined.

(** X22.  Block-size invariance of the LatencyNode.  Two ways of cutting one
    signal into blocks of at most the prepared block size give, joined, the
    same output signal. *)
Theorem LatencyNode_output_independent_of_blocks :
  forall (merge : MidiMessageArray -> MidiMessageArray -> Q -> MidiMessageArray)
         (input : Node) (N : Z) (info : PlaybackInitialisationInfo)
         (blocks1 blocks2 : list AudioBlock),
    let c := Z.to_nat (numberOfChannels (Graph.getNodeProperties input)) in
    let node := LatencyNode.prepareToPlay (LatencyNode.create input N) info in
    0 <= N ->
    N + blockSize info + 1 <= Int.INT_MAX ->
    Forall (fun b => Z.of_nat (length b) <= blockSize info /\ hasWidth c b) blocks1 ->
    Forall (fun b => Z.of_nat (length b) <= blockSize info /\ hasWidth c b) blocks2 ->
    concat blocks1 = concat blocks2 ->
    concat (audioOutputs merge node c blocks1) = concat (audioOutputs merge node c blocks2).
Proof.
  intros merge input N info blocks1 blocks2 c node HN Hmax H1 H2 Heq.
  exact (latency_node_chunking_invariant merge input N info blocks1 blocks2 HN Hmax H1 H2 Heq).
Qed.

Lemma LatencyNode_output_independent_of_blocks_witness :
  0 <= 2
  /\ 2 + blockSize (mkInfo (48000 # 1) 4) + 1 <= Int.INT_MAX
  /\ Forall (fun b : AudioBlock =>
               Z.of_nat (length b) <= blockSize (mkInfo (48000 # 1) 4)
               /\ hasWidth (Z.to_nat (numberOfChannels (Graph.getNodeProperties impulseInput))) b)
            rampBlocksA
  /\ Forall (fun b : AudioBlock =>
               Z.of_nat (length b) <= blockSize (mkInfo (48000 # 1) 4)
               /\ hasWidth (Z.to_nat (numberOfChannels (Graph.getNodeProperties impulseInput))) b)
            rampBlocksB
  /\ concat rampBlocksA = concat rampBlocksB
  /\ concat (audioOutputs appendWithOffset
               (LatencyNode.prepareToPlay (LatencyNode.create impulseInput 2)
                  (mkInfo (48000 # 1) 4))
               (Z.to_nat (numberOfChannels (Graph.getNodeProperties impulseInput)))
               rampBlocksA)
     = concat (audioOutputs appendWithOffset
                 (LatencyNode.prepareToPlay (LatencyNode.create impulseInput 2)
                    (mkInfo (48000 # 1) 4))
                 (Z.to_nat (numberOfChannels (Graph.getNodeProperties impulseInput)))
                 rampBlocksB).
Proof.
  assert (H1 : 0 <= 2) by lia.
  assert (H2 : 2 + blockSize (mkInfo (48000 # 1) 4) + 1 <= Int.INT_MAX)
    by (vm_compute; discriminate).
  assert (H3 : Forall (fun b : AudioBlock =>
               Z.of_nat (length b) <= blockSize (mkInfo (48000 # 1) 4)
               /\ hasWidth (Z.to_nat (numberOfChannels (Graph.getNodeProperties impulseInput))) b)
            rampBlocksA).
  { repeat constructor; vm_compute; discriminate. }
  assert (H4 : Forall (fun b : AudioBlock =>
               Z.of_nat (length b) <= blockSize (mkInfo (48000 # 1) 4)
               /\ hasWidth (Z.to_nat (numberOfChannels (Graph.getNodeProperties impulseInput))) b)
            rampBlocksB).
  { repeat constructor; vm_compute; discriminate. }
  assert (H5 : concat rampBlocksA = concat rampBlocksB) by reflexivity.
  repeat (split; [assumption|]).
  exact (LatencyNode_output_independent_of_blocks appendWithOffset impulseInput 2
           (mkInfo (48000 # 1) 4) rampBlocksA rampBlocksB H1 H2 H3 H4 H5).
Defined.

(** ** FadeInOutNode: inside a fade-out *)

Lemma jlimit01_of_unit : forall x, inUnit x -> (FadeInOutNode.jlimit01 x == x)%Q.
Proof.
  intros x [H0 H1]. unfold FadeInOutNode.jlimit01.
  destruct (Qle_bool x 0) eqn:Hx.
  - apply Qle_bool_iff in Hx. lra.
  - destruct (Qle_bool 1 x) eqn:Hy; [|reflexivity].
    apply Qle_bool_iff in Hy. lra.
Qed.

Lemma inside_fade_out_section : forall n tl fade,
  blockRange tl -> validRange fade -> 0 < getLength fade -> insideFade tl fade ->
  FadeInOutNode.fadeOutSection n tl fade
  = FadeInOutNode.mkSection 0 n
      (inject_Z (getStart tl - getStart fade) / inject_Z (getEnd fade - getStart fade))
      (inject_Z (getEnd tl - getStart fade) / inject_Z (getEnd fade - getStart fade))
  /\ intersects tl fade = true
  /\ intersects fade tl = true.
Proof.
  intros n tl fade Htl Hfade Hlen [I1 [I2 [I3 I4]]].
  assert (Hfb : getLength fade <= 9223372036854775807)
    by (apply (wrap64_bounds (getEnd fade - getStart fade))).
  pose proof (validRange_length fade Hfade Hlen) as Hflen.
  pose proof (blockRange_length tl Htl) as Htlen.
  destruct Htl as [[[H1 H2] [[H3 H4] H5]] [H6 H7]].
  destruct Hfade as [[F1 F2] [[F3 F4] F5]].
  unfold Int.INT_MAX in *.
  unfold FadeInOutNode.fadeOutSection. rewrite Hflen.
  rewrite (wrap64_inRange (getStart fade - getStart tl)) by (unfold Int.inRange64; lia).
  rewrite (wrap32_inRange (getStart fade - getStart tl))
    by (unfold Int.inRange, Int.INT_MIN, Int.INT_MAX; lia).
  rewrite (wrap64_inRange (getStart tl - getStart fade)) by (unfold Int.inRange64; lia).
  rewrite (wrap64_inRange (getEnd tl - getStart fade)) by (unfold Int.inRange64; lia).
  destruct (Z.leb_spec (getStart fade - getStart tl) 0); [|lia].
  destruct (Z.leb_spec (getEnd fade) (getEnd tl)); [lia|].
  split; [reflexivity|]. unfold intersects.
  split; apply andb_true_iff; split; apply Z.ltb_lt; lia.
Qed.

(** X23.  Inside a linear fade-out the gain is what is left of the fade.
    With the play head playing, on a block that lies inside the fade-out
    range and on which no fade-in is rendered, [process] scales frame [i] of
    the input by [1 - (blockStart + i - fadeStart) / fadeLength]. *)
Theorem fade_out_gain_inside_the_fade :
  forall (curveGain : FadeInOutNode.FadeType -> Q -> Q) (node : FadeInOutNode.t)
         (playHeadState : FadeInOutNode.PlayHeadState)
         (sourceBuffers : AudioAndMidiBuffer) (pc : ProcessContext),
    let timelineRange := FadeInOutNode.timelineRange1 playHeadState (referenceSampleRange pc) in
    let fade := FadeInOutNode.fadeOutSampleRange node in
    FadeInOutNode.isPlaying playHeadState = true ->
    FadeInOutNode.fadeOutType node = FadeInOutNode.linear ->
    blockRange timelineRange ->
    validRange fade ->
    0 < getLength fade ->
    insideFade timelineRange fade ->
    noFadeIn node timelineRange ->
    sameShape (audio (buffers pc)) (audio sourceBuffers) ->
    Z.of_nat (length (audio sourceBuffers)) = getLength timelineRange ->
    forall (i : nat) (fr : Frame),
      nth_error (audio sourceBuffers) i = Some fr ->
      exists gain : Q,
        (gain == 1 - inject_Z (getStart timelineRange + Z.of_nat i - getStart fade)
                     / inject_Z (getEnd fade - getStart fade))%Q
        /\ nth_error
             (audio (FadeInOutNode.process curveGain node playHeadState sourceBuffers pc)) i
           = Some (FadeInOutNode.scaleFrame gain fr).
Proof.
  intros curveGain node ps src pc tl fade Hplay Hlin Htl Hfade Hlen Hin Hnofi Hshape Hn i fr Hi.
  set (n := getLength tl) in *.
  destruct (inside_fade_out_section n tl fade Htl Hfade Hlen Hin) as [Hsec [Hx1 Hx2]].
  pose proof (blockRange_length tl Htl) as Htlen. fold n in Htlen.
  pose proof (validRange_length fade Hfade Hlen) as Hflen.
  assert (Hnmax : 0 <= n <= Int.INT_MAX) by (destruct Htl as [_ H]; exact H).
  destruct Hin as [I1 [I2 [I3 I4]]].
  assert (Hlt : (i < length (audio src))%nat) by (apply nth_error_Some; congruence).
  unfold FadeInOutNode.process. fold tl.
  rewrite (copyFrom_sameShape _ _ Hshape).
  unfold FadeInOutNode.renderingNeeded. rewrite Hplay. fold fade. rewrite Hx2.
  rewrite orb_true_r. cbn [negb].
  unfold noFadeIn in Hnofi. rewrite Hnofi. rewrite Hx1.
  destruct (Z.ltb_spec 0 (getLength fade)) as [_|Hc]; [|lia]. cbn [andb].
  cbn [audio]. unfold getNumSamples. rewrite Hn.
  rewrite (wrap32_inRange n) by (unfold Int.inRange, Int.INT_MIN, Int.INT_MAX in *; lia).
  unfold FadeInOutNode.applyFadeOut. fold fade. rewrite Hsec.
  cbn [FadeInOutNode.startSamp FadeInOutNode.endSamp FadeInOutNode.alpha1 FadeInOutNode.alpha2].
  destruct (Z.leb_spec (getEnd fade) (getEnd tl)) as [Hc|_]; [lia|]. cbn [andb].
  destruct (Z.ltb_spec 0 n) as [_|Hc]; [|lia].
  rewrite Hlin. unfold FadeInOutNode.applyCrossfadeSection.
  rewrite nth_error_mapFrom, Hi. cbn [option_map].
  destruct (Z.leb_spec 0 (0 + Z.of_nat i)) as [_|Hc]; [|lia].
  destruct (Z.ltb_spec (0 + Z.of_nat i) (0 + (n - 0))) as [_|Hc]; [|lia].
  cbn [andb FadeInOutNode.alphaToGain]. eexists. split; [|reflexivity].
  assert (HL : 0 < getEnd fade - getStart fade) by (rewrite <- Hflen; assumption).
  assert (U1 : inUnit (1 - inject_Z (getStart tl - getStart fade)
                          / inject_Z (getEnd fade - getStart fade))).
  { destruct (ratio_inUnit (getStart tl - getStart fade) (getEnd fade - getStart fade))
      as [Ha Hb]; [lia|lia|]. unfold inUnit. lra. }
  assert (U2 : inUnit (1 - inject_Z (getEnd tl - getStart fade)
                          / inject_Z (getEnd fade - getStart fade))).
  { destruct (ratio_inUnit (getEnd tl - getStart fade) (getEnd fade - getStart fade))
      as [Ha Hb]; [lia|lia|]. unfold inUnit. lra. }
  rewrite (jlimit01_of_unit _ U1), (jlimit01_of_unit _ U2).
  replace (0 + Z.of_nat i - 0) with (Z.of_nat i) by lia.
  replace (n - 0) with (getEnd tl - getStart tl) by lia.
  replace (getEnd tl - getStart fade)
    with ((getStart tl - getStart fade) + (getEnd tl - getStart tl)) by lia.
  replace (getStart tl + Z.of_nat i - getStart fade)
    with ((getStart tl - getStart fade) + Z.of_nat i) by lia.
  rewrite !inject_Z_plus.
  assert (HLq : ~ (inject_Z (getEnd fade - getStart fade) == 0)%Q).
  { assert (Hp : (0 < inject_Z (getEnd fade - getStart fade))%Q)
      by (change 0%Q with (inject_Z 0); rewrite <- Zlt_Qlt; lia).
    intro H. rewrite H in Hp. apply (Qlt_irrefl 0). exact Hp. }
  assert (Hnq : ~ (inject_Z (getEnd tl - getStart tl) == 0)%Q).
  { assert (Hp : (0 < inject_Z (getEnd tl - getStart tl))%Q)
      by (change 0%Q with (inject_Z 0); rewrite <- Zlt_Qlt; lia).
    intro H. rewrite H in Hp. apply (Qlt_irrefl 0). exact Hp. }
  field. split; assumption.
Qed.

Lemma fade_out_gain_inside_the_fade_witness :
  FadeInOutNode.isPlaying scenarioPlayHead = true
  /\ FadeInOutNode.fadeOutType fadeOutNode = FadeInOutNode.linear
  /\ blockRange (mkRange 512 1024)
  /\ validRange (mkRange 0 4800)
  /\ 0 < getLength (mkRange 0 4800)
  /\ insideFade (mkRange 512 1024) (mkRange 0 4800)
  /\ noFadeIn fadeOutNode (mkRange 512 1024)
  /\ sameShape (audio (buffers (scenarioContext 512))) (audio scenarioSource)
  /\ Z.of_nat (length (audio scenarioSource)) = getLength (mkRange 512 1024)
  /\ exists gain : Q,
       (gain == 1 - inject_Z (512 + Z.of_nat 3 - 0) / inject_Z (4800 - 0))%Q
       /\ nth_error
            (audio (FadeInOutNode.process (fun _ a => a) fadeOutNode
                      scenarioPlayHead scenarioSource (scenarioContext 512))) 3
          = Some (FadeInOutNode.scaleFrame gain [1%Q]).
Proof.
  assert (H1 : FadeInOutNode.isPlaying scenarioPlayHead = true) by reflexivity.
  assert (H2 : FadeInOutNode.fadeOutType fadeOutNode = FadeInOutNode.linear) by reflexivity.
  assert (H3 : blockRange (mkRange 512 1024)).
  { unfold blockRange, validRange, Int.inRange64, Int.INT_MAX. vm_compute.
    repeat split; discriminate. }
  assert (H4 : validRange (mkRange 0 4800)).
  { unfold validRange, Int.inRange64. vm_compute. repeat split; discriminate. }
  assert (H5 : 0 < getLength (mkRange 0 4800)) by reflexivity.
  assert (H6 : insideFade (mkRange 512 1024) (mkRange 0 4800)).
  { unfold insideFade, Int.INT_MAX. vm_compute. repeat split; discriminate. }
  assert (H7 : noFadeIn fadeOutNode (mkRange 512 1024)) by reflexivity.
  assert (H8 : sameShape (audio (buffers (scenarioContext 512))) (audio scenarioSource))
    by (apply (sameShape_silence 1 512 [1%Q]); reflexivity).
  assert (H9 : Z.of_nat (length (audio scenarioSource)) = getLength (mkRange 512 1024))
    by reflexivity.
  repeat (split; [assumption|]).
  exact (fade_out_gain_inside_the_fade (fun _ a => a) fadeOutNode
           scenarioPlayHead scenarioSource (scenarioContext 512)
           H1 H2 H3 H4 H5 H6 H7 H8 H9 3%nat [1%Q] eq_refl).
Defined.
